(** * GetThis collection pipeline (OrcCommand/GetThis_Run.cpp)

    A shallow embedding of the sample-collection core of DFIR-Orc's GetThis
    command: sample naming, limit evaluation, stream configuration, match
    ingestion into the sample registry, the CSV reporter and the two sinks.

    Machine integers are carried as [Z] with the wrap-around of their C++
    type written out; wide strings are lists of UTF-16 code units. *)

From Stdlib Require Import ZArith String Ascii Lia.
From stdpp Require Import base option list sorting gmap sets.

Local Open Scope Z_scope.

(** ** Platform types and constants

    Values of the Windows SDK headers (winerror.h, winbase.h, minwindef.h),
    which the translation unit includes through stdafx.h. *)

Definition WCHAR := Z.
Abbreviation wstring := (list Z).
Abbreviation CBinaryBuffer := (list Z).

(** A narrow literal as a wide string, one code unit per character. *)
Definition L (s : string) : wstring :=
  map (fun a => Z.of_N (N_of_ascii a)) (list_ascii_of_string s).

Definition HRESULT := Z.
Definition S_OK : HRESULT := 0.
Definition S_FALSE : HRESULT := 1.
Definition E_NOTIMPL : HRESULT := 0x80004001 - 2 ^ 32.
Definition E_POINTER : HRESULT := 0x80004003 - 2 ^ 32.
Definition E_ABORT : HRESULT := 0x80004004 - 2 ^ 32.
Definition E_FAIL : HRESULT := 0x80004005 - 2 ^ 32.
Definition E_INVALIDARG : HRESULT := 0x80070057 - 2 ^ 32.

(** [FAILED(hr)] is [((HRESULT)(hr)) < 0]. *)
Definition FAILED (hr : HRESULT) : bool := hr <? 0.

Definition INFINITE : Z := 0xFFFFFFFF.
Definition MAX_PATH : nat := 260.

(** Unsigned arithmetic of DWORD (32 bits) and DWORDLONG (64 bits). *)
Definition add32 (a b : Z) : Z := (a + b) mod 2 ^ 32.
Definition add64 (a b : Z) : Z := (a + b) mod 2 ^ 64.

(** ** Limits

    The members of [Limits] and the enumerators of [LimitStatus] (GetThis.h)
    that the code under verification names; the [dw] members are DWORD, the
    [dwl] members DWORDLONG. *)

Record Limits := mkLimits {
  bIgnoreLimits : bool;
  dwlMaxBytesTotal : Z;
  dwlAccumulatedBytesTotal : Z;
  bMaxBytesTotalReached : bool;
  dwlMaxBytesPerSample : Z;
  bMaxBytesPerSampleReached : bool;
  dwMaxSampleCount : Z;
  dwAccumulatedSampleCount : Z;
  bMaxSampleCountReached : bool
}.

Inductive LimitStatus :=
| NoLimits
| SampleWithinLimits
| GlobalSampleCountLimitReached
| GlobalMaxBytesPerSample
| GlobalMaxBytesTotal
| LocalSampleCountLimitReached
| LocalMaxBytesPerSample
| LocalMaxBytesTotal
| FailedToComputeLimits.

#[global] Instance LimitStatus_eq_dec : EqDecision LimitStatus.
Proof. solve_decision. Defined.

(** [Main::SampleLimitStatus], statement by statement. *)
Definition SampleLimitStatus (GlobalLimits LocalLimits : Limits) (DataSize : Z)
  : LimitStatus :=
  if bIgnoreLimits GlobalLimits then NoLimits
  else if negb (dwMaxSampleCount GlobalLimits =? INFINITE)
          && (dwAccumulatedSampleCount GlobalLimits >=? dwMaxSampleCount GlobalLimits)
  then GlobalSampleCountLimitReached
  else if negb (dwMaxSampleCount LocalLimits =? INFINITE)
          && (dwAccumulatedSampleCount LocalLimits >=? dwMaxSampleCount LocalLimits)
  then LocalSampleCountLimitReached
  else if negb (dwlMaxBytesPerSample GlobalLimits =? INFINITE)
          && (DataSize >? dwlMaxBytesPerSample GlobalLimits)
  then GlobalMaxBytesPerSample
  else if negb (dwlMaxBytesTotal GlobalLimits =? INFINITE)
          && (add64 DataSize (dwlAccumulatedBytesTotal GlobalLimits)
              >? dwlMaxBytesTotal GlobalLimits)
  then GlobalMaxBytesTotal
  else if negb (dwlMaxBytesPerSample LocalLimits =? INFINITE)
          && (DataSize >? dwlMaxBytesPerSample LocalLimits)
  then LocalMaxBytesPerSample
  else if negb (dwlMaxBytesTotal LocalLimits =? INFINITE)
          && (add64 DataSize (dwlAccumulatedBytesTotal LocalLimits)
              >? dwlMaxBytesTotal LocalLimits)
  then LocalMaxBytesTotal
  else SampleWithinLimits.

(** The limit contract as the specification words it: an ordered table of
    checks, each with the condition under which it is skipped, and the rule
    that the first check that triggers decides. *)
Module LimitContract.

Record Check := mkCheck {
  unlimited : bool;      (* the check's max is the sentinel: skip it *)
  triggers : bool;
  verdict : LimitStatus
}.

Definition count_exhausted (lim : Limits) : bool :=
  dwMaxSampleCount lim <=? dwAccumulatedSampleCount lim.

Definition over_per_sample (lim : Limits) (size : Z) : bool :=
  dwlMaxBytesPerSample lim <? size.

Definition over_total (lim : Limits) (size : Z) : bool :=
  dwlMaxBytesTotal lim <? size + dwlAccumulatedBytesTotal lim.

Definition checks (glob loc : Limits) (size : Z) : list Check :=
  [ mkCheck (dwMaxSampleCount glob =? INFINITE) (count_exhausted glob)
            GlobalSampleCountLimitReached;
    mkCheck (dwMaxSampleCount loc =? INFINITE) (count_exhausted loc)
            LocalSampleCountLimitReached;
    mkCheck (dwlMaxBytesPerSample glob =? INFINITE) (over_per_sample glob size)
            GlobalMaxBytesPerSample;
    mkCheck (dwlMaxBytesTotal glob =? INFINITE) (over_total glob size)
            GlobalMaxBytesTotal;
    mkCheck (dwlMaxBytesPerSample loc =? INFINITE) (over_per_sample loc size)
            LocalMaxBytesPerSample;
    mkCheck (dwlMaxBytesTotal loc =? INFINITE) (over_total loc size)
            LocalMaxBytesTotal ].

Definition fires (c : Check) : bool := negb (unlimited c) && triggers c.

Fixpoint first_trigger (cs : list Check) : LimitStatus :=
  match cs with
  | [] => SampleWithinLimits
  | c :: rest => if fires c then verdict c else first_trigger rest
  end.

Definition evaluate (glob loc : Limits) (size : Z) : LimitStatus :=
  if bIgnoreLimits glob then NoLimits else first_trigger (checks glob loc size).

End LimitContract.

(** ** Naming *)

Inductive ContentType := INVALID | DATA | STRINGS | RAW.

#[global] Instance ContentType_eq_dec : EqDecision ContentType.
Proof. solve_decision. Defined.

Record ContentSpec := mkContentSpec {
  Type_ : ContentType;
  MinChars : Z;
  MaxChars : Z
}.

(** NTFS file reference: ULONG low part, USHORT high part, USHORT sequence
    number (NtfsDataStructures.h). *)
Record MFT_SEGMENT_REFERENCE := mkSegmentReference {
  SegmentNumberLowPart : Z;
  SegmentNumberHighPart : Z;
  SequenceNumber : Z
}.

Definition sizeof_SegmentNumberLowPart : nat := 4.
Definition sizeof_SegmentNumberHighPart : nat := 2.
Definition sizeof_SequenceNumber : nat := 2.

Record FILE_NAME_INFO := mkFileNameInfo {
  CreationTime : Z;
  LastModificationTime : Z;
  LastAccessTime : Z;
  LastChangeTime : Z
}.

(** The $FILE_NAME attribute value.  [FileName] is the memory that follows
    the header; [FileNameLength] (a UCHAR) says how much of it is the name. *)
Record FILE_NAME := mkFileName {
  ParentDirectory : MFT_SEGMENT_REFERENCE;
  Info : FILE_NAME_INFO;
  FileNameLength : Z;
  FileName : wstring
}.

(** A [PFILE_NAME]; [None] is the null pointer. *)
Definition PFILE_NAME := option FILE_NAME.

(** The C runtime's character classification, left to the platform. *)
Class Runtime := { iswspace : WCHAR -> bool }.

(** *** The formatted-output routine

    [swprintf_s] as far as the four format strings of the naming routine
    use it: literal text, [%*.*X], [%.*s], [%u] and [%s]. *)
Module Printf.

Inductive Conversion :=
| Text (s : wstring)
| UpperHex (width precision : nat) (arg : Z)   (* %*.*X *)
| Chars (precision : nat) (arg : wstring)      (* %.*s  *)
| Unsigned (arg : Z)                           (* %u    *)
| CString (arg : wstring).                     (* %s    *)

(** Digits of [v] in [base], most significant first, none for zero. *)
Fixpoint digits (base : Z) (glyph : Z -> WCHAR) (n : nat) (v : Z) : wstring :=
  match n with
  | O => []
  | S k => if v =? 0 then []
           else digits base glyph k (v / base) ++ [glyph (v mod base)]
  end.

Definition hex_glyph (d : Z) : WCHAR := if d <? 10 then 48 + d else 55 + d.
Definition dec_glyph (d : Z) : WCHAR := 48 + d.

(** A string argument is read up to its terminating NUL. *)
Fixpoint until_nul (s : wstring) : wstring :=
  match s with
  | [] => []
  | c :: rest => if c =? 0 then [] else c :: until_nul rest
  end.

Definition pad_left (n : nat) (c : WCHAR) (s : wstring) : wstring :=
  replicate (n - length s) c ++ s.

(** The argument of [%X] and [%u] is an unsigned int: 32 bits, so at most
    8 hexadecimal or 10 decimal digits. *)
Definition convert (c : Conversion) : wstring :=
  match c with
  | Text s => s
  | UpperHex width precision arg =>
      pad_left width 32 (pad_left precision 48 (digits 16 hex_glyph 8 (arg mod 2 ^ 32)))
  | Chars precision arg => until_nul (take precision arg)
  | Unsigned arg =>
      let v := arg mod 2 ^ 32 in
      if v =? 0 then [48] else digits 10 dec_glyph 10 v
  | CString arg => until_nul arg
  end.

Definition render (fmt : list Conversion) : wstring := concat (map convert fmt).

(** [swprintf_s(buffer, sizeOfBuffer, ...)]: the output and its NUL must
    fit in the buffer; otherwise the runtime raises its invalid-parameter
    condition ([None]). *)
Definition swprintf_s (sizeOfBuffer : nat) (fmt : list Conversion) : option wstring :=
  let out := render fmt in
  if (length out <? sizeOfBuffer)%nat then Some out else None.

End Printf.

(** What a call of the naming routine ends in: a return, with the status and
    the value left in the [SampleFileName] out-parameter, or the runtime's
    invalid-parameter condition raised by [swprintf_s]. *)
Inductive NameOutcome :=
| Returned (hr : HRESULT) (SampleFileName : wstring)
| InvalidParameter.

Section Naming.
Context `{Runtime}.

Definition pContent (content : ContentSpec) : wstring :=
  match Type_ content with
  | DATA => L "data"
  | STRINGS => L "strings"
  | RAW => L "raw"
  | _ => L ""
  end.

(** The three leading [%*.*X] conversions shared by all four formats. *)
Definition ParentDirectory_conversions (pFileName : FILE_NAME) : list Printf.Conversion :=
  [ Printf.UpperHex (sizeof_SequenceNumber * 2) (sizeof_SequenceNumber * 2)
      (SequenceNumber (ParentDirectory pFileName));
    Printf.UpperHex (sizeof_SegmentNumberHighPart * 2) (sizeof_SegmentNumberHighPart * 2)
      (SegmentNumberHighPart (ParentDirectory pFileName));
    Printf.UpperHex (sizeof_SegmentNumberLowPart * 2) (sizeof_SegmentNumberLowPart * 2)
      (SegmentNumberLowPart (ParentDirectory pFileName)) ].

Definition name_format (content : ContentSpec) (pFileName : FILE_NAME)
    (DataName : wstring) (idx : Z) : list Printf.Conversion :=
  let name := Printf.Chars (Z.to_nat (FileNameLength pFileName)) (FileName pFileName) in
  let data := Printf.Chars (length DataName) DataName in
  let tag := Printf.CString (pContent content) in
  let us := Printf.Text (L "_") in
  if negb (idx =? 0) then
    if negb (length DataName =? 0)%nat then
      (* L"%*.*X%*.*X%*.*X_%.*s_%.*s_%u_%s" *)
      ParentDirectory_conversions pFileName
        ++ [us; name; us; data; us; Printf.Unsigned idx; us; tag]
    else
      (* L"%*.*X%*.*X%*.*X__%.*s_%u_%s" *)
      ParentDirectory_conversions pFileName
        ++ [us; us; name; us; Printf.Unsigned idx; us; tag]
  else
    if negb (length DataName =? 0)%nat then
      (* L"%*.*X%*.*X%*.*X__%.*s_%.*s_%s" *)
      ParentDirectory_conversions pFileName
        ++ [us; us; name; us; data; us; tag]
    else
      (* L"%*.*X%*.*X%*.*X_%.*s_%s" *)
      ParentDirectory_conversions pFileName ++ [us; name; us; tag].

(** The lambda of the final [std::for_each]. *)
Definition replace_item (Item : WCHAR) : WCHAR :=
  if iswspace Item || (Item =? 58) || (Item =? 35) then 95 else Item.

(** [Main::CreateSampleFileName]. *)
Definition CreateSampleFileName (content : ContentSpec) (pFileName : PFILE_NAME)
    (DataName : wstring) (idx : Z) (SampleFileName : wstring) : NameOutcome :=
  match pFileName with
  | None => Returned E_POINTER SampleFileName
  | Some fn =>
      match Printf.swprintf_s MAX_PATH (name_format content fn DataName idx) with
      | None => InvalidParameter
      | Some tmpName => Returned S_OK (map replace_item tmpName)
      end
  end.

End Naming.

(** The naming contract in the specification's words. *)
Module NameContract.

(** [n] hexadecimal digits, leading zeros kept. *)
Fixpoint fixed_hex (n : nat) (v : Z) : wstring :=
  match n with
  | O => []
  | S k => fixed_hex k (v / 16) ++ [Printf.hex_glyph (v mod 16)]
  end.

(** A field of [bytes] bytes takes twice as many digits. *)
Definition hex_field (bytes : nat) (v : Z) : wstring := fixed_hex (2 * bytes) v.

Definition PPP (r : MFT_SEGMENT_REFERENCE) : wstring :=
  hex_field sizeof_SequenceNumber (SequenceNumber r)
  ++ hex_field sizeof_SegmentNumberHighPart (SegmentNumberHighPart r)
  ++ hex_field sizeof_SegmentNumberLowPart (SegmentNumberLowPart r).

Definition NAME (fn : FILE_NAME) : wstring :=
  take (Z.to_nat (FileNameLength fn)) (FileName fn).

Definition IDX (idx : Z) : wstring := Printf.digits 10 Printf.dec_glyph 10 idx.

Definition TAG (t : ContentType) : wstring :=
  match t with
  | DATA => L "data"
  | STRINGS => L "strings"
  | RAW => L "raw"
  | INVALID => []
  end.

(** The table of the four templates, by (idx > 0, data-name non-empty). *)
Definition template (content : ContentSpec) (fn : FILE_NAME)
    (data_name : wstring) (idx : Z) : wstring :=
  let p := PPP (ParentDirectory fn) in
  let t := TAG (Type_ content) in
  match bool_decide (0 < idx), bool_decide (data_name <> []) with
  | false, false => p ++ L "_" ++ NAME fn ++ L "_" ++ t
  | false, true => p ++ L "__" ++ NAME fn ++ L "_" ++ data_name ++ L "_" ++ t
  | true, false => p ++ L "__" ++ NAME fn ++ L "_" ++ IDX idx ++ L "_" ++ t
  | true, true =>
      p ++ L "_" ++ NAME fn ++ L "_" ++ data_name ++ L "_" ++ IDX idx ++ L "_" ++ t
  end.

Definition forbidden `{Runtime} (c : WCHAR) : Prop :=
  iswspace c = true \/ c = 58 \/ c = 35.

#[global] Instance forbidden_dec `{Runtime} c : Decision (forbidden c).
Proof. unfold forbidden. apply _. Defined.

Definition replace_forbidden `{Runtime} (s : wstring) : wstring :=
  map (fun c => if decide (forbidden c) then 95 else c) s.

(** Inputs as their C++ types allow them, with strings free of NUL. *)
Record well_formed (fn : FILE_NAME) (data_name : wstring) (idx : Z) : Prop := {
  wf_sequence : 0 <= SequenceNumber (ParentDirectory fn) < 2 ^ 16;
  wf_high : 0 <= SegmentNumberHighPart (ParentDirectory fn) < 2 ^ 16;
  wf_low : 0 <= SegmentNumberLowPart (ParentDirectory fn) < 2 ^ 32;
  wf_idx : 0 <= idx < 2 ^ 32;
  wf_name : Forall (fun c => c <> 0) (NAME fn);
  wf_data : Forall (fun c => c <> 0) data_name
}.

End NameContract.

(** The error kinds of the specification, as far as the statuses of this
    file go.  The specification files three failures under InvalidArgument:
    a missing file-name record, an empty sample name and an unsupported
    output type; the statuses the code has for invalid arguments and
    unsupported requests are [E_POINTER], [E_INVALIDARG] and [E_NOTIMPL].
    Every other failure status is left in one class. *)
Module ErrorContract.

Inductive ErrorKind := InvalidArgument | OtherFailure.

Definition invalid_argument_status (hr : HRESULT) : Prop :=
  hr = E_POINTER \/ hr = E_INVALIDARG \/ hr = E_NOTIMPL.

#[global] Instance invalid_argument_status_dec hr : Decision (invalid_argument_status hr).
Proof. unfold invalid_argument_status. apply _. Defined.

(** The kind of a status; [None] for a status that is not a failure. *)
Definition kind (hr : HRESULT) : option ErrorKind :=
  if FAILED hr then
    Some (if decide (invalid_argument_status hr) then InvalidArgument else OtherFailure)
  else None.

End ErrorContract.

(** ** Matches, samples and configuration

    The declarations of GetThis.h and FileFind.h as the code under
    verification uses them. *)

(** A byte stream is known by how it was composed. *)
Inductive ByteStream :=
| AttributeStream (handle : Z)
| StringsStream (inner : ByteStream) (minChars maxChars : Z)
| CryptoHashStream (algs : Z) (inner : ByteStream)
| FuzzyHashStream (algs : Z) (inner : ByteStream).

(** [Algorithm::Undefined] of both hash stream classes. *)
Definition Undefined : Z := 0.

Definition GUID := Z.
Definition GUID_NULL : GUID := 0.

(** A search term: the identity of the shared object and its description. *)
Record TermSpec := mkTerm {
  term_address : Z;
  GetDescription : wstring
}.

Module Name.
Record t := mk {
  (* what FILENAME() returns *)
  FILENAME : PFILE_NAME;
  FullPathName : wstring
}.
End Name.

Module Attribute.
Record t := mk {
  Type_ : Z;
  AttrName : wstring;
  InstanceID : Z;
  DataStream : ByteStream;
  RawStream : ByteStream;
  YaraRules : option (list wstring)
}.
End Attribute.

Module Match.
Record t := mk {
  FRN : MFT_SEGMENT_REFERENCE;
  (* VolumeReader->VolumeSerialNumber() *)
  VolumeSerialNumber : Z;
  (* the snapshot id when VolumeReader is a SnapshotVolumeReader *)
  SnapshotVolumeReader : option GUID;
  StandardInformation : FILE_NAME_INFO;
  MatchingNames : list Name.t;
  MatchingAttributes : list Attribute.t;
  Term : TermSpec
}.
End Match.

(** The 64-bit view of a segment reference ([LARGE_INTEGER::QuadPart]). *)
Definition QuadPart (r : MFT_SEGMENT_REFERENCE) : Z :=
  Z.lor (SegmentNumberLowPart r)
        (Z.lor (Z.shiftl (SegmentNumberHighPart r) 32) (Z.shiftl (SequenceNumber r) 48)).

Module SampleRef.
Record t := mk {
  VolumeSerial : Z;
  SnapshotID : GUID;
  FRN : MFT_SEGMENT_REFERENCE;
  InstanceID : Z;
  AttributeIndex : nat;
  Matches : list Match.t;
  Content : ContentSpec;
  SampleName : wstring;
  CollectionDate : Z;
  OffLimits : bool;
  SampleSize : Z;
  HashStream : option ByteStream;
  FuzzyHashStream : option ByteStream;
  CopyStream : option ByteStream;
  MD5 : CBinaryBuffer;
  SHA1 : CBinaryBuffer;
  SHA256 : CBinaryBuffer;
  SSDeep : CBinaryBuffer;
  TLSH : CBinaryBuffer
}.

(** A default-constructed sample: no match, empty name, null streams, empty
    buffers.  The initialisers of the scalar members are in GetThis.h; zero
    is taken for them, and no property below depends on that. *)
Definition default : t :=
  mk 0 GUID_NULL (mkSegmentReference 0 0 0) 0 0 [] (mkContentSpec INVALID 0 0) [] 0 false 0
     None None None [] [] [] [] [].

Definition set_identity (vs : Z) (snap : GUID) (frn : MFT_SEGMENT_REFERENCE)
    (inst : Z) (idx : nat) (s : t) : t :=
  mk vs snap frn inst idx (Matches s) (Content s) (SampleName s) (CollectionDate s)
     (OffLimits s) (SampleSize s) (HashStream s) (FuzzyHashStream s) (CopyStream s)
     (MD5 s) (SHA1 s) (SHA256 s) (SSDeep s) (TLSH s).

Definition push_back_Matches (m : Match.t) (s : t) : t :=
  mk (VolumeSerial s) (SnapshotID s) (FRN s) (InstanceID s) (AttributeIndex s)
     (Matches s ++ [m]) (Content s) (SampleName s) (CollectionDate s)
     (OffLimits s) (SampleSize s) (HashStream s) (FuzzyHashStream s) (CopyStream s)
     (MD5 s) (SHA1 s) (SHA256 s) (SSDeep s) (TLSH s).

Definition set_OffLimits (b : bool) (s : t) : t :=
  mk (VolumeSerial s) (SnapshotID s) (FRN s) (InstanceID s) (AttributeIndex s)
     (Matches s) (Content s) (SampleName s) (CollectionDate s)
     b (SampleSize s) (HashStream s) (FuzzyHashStream s) (CopyStream s)
     (MD5 s) (SHA1 s) (SHA256 s) (SSDeep s) (TLSH s).

Definition set_Content (c : ContentSpec) (date : Z) (s : t) : t :=
  mk (VolumeSerial s) (SnapshotID s) (FRN s) (InstanceID s) (AttributeIndex s)
     (Matches s) c (SampleName s) date
     (OffLimits s) (SampleSize s) (HashStream s) (FuzzyHashStream s) (CopyStream s)
     (MD5 s) (SHA1 s) (SHA256 s) (SSDeep s) (TLSH s).

Definition set_SampleName (n : wstring) (s : t) : t :=
  mk (VolumeSerial s) (SnapshotID s) (FRN s) (InstanceID s) (AttributeIndex s)
     (Matches s) (Content s) n (CollectionDate s)
     (OffLimits s) (SampleSize s) (HashStream s) (FuzzyHashStream s) (CopyStream s)
     (MD5 s) (SHA1 s) (SHA256 s) (SSDeep s) (TLSH s).

Definition set_HashStream (h : option ByteStream) (s : t) : t :=
  mk (VolumeSerial s) (SnapshotID s) (FRN s) (InstanceID s) (AttributeIndex s)
     (Matches s) (Content s) (SampleName s) (CollectionDate s)
     (OffLimits s) (SampleSize s) h (FuzzyHashStream s) (CopyStream s)
     (MD5 s) (SHA1 s) (SHA256 s) (SSDeep s) (TLSH s).

Definition set_FuzzyHashStream (h : option ByteStream) (s : t) : t :=
  mk (VolumeSerial s) (SnapshotID s) (FRN s) (InstanceID s) (AttributeIndex s)
     (Matches s) (Content s) (SampleName s) (CollectionDate s)
     (OffLimits s) (SampleSize s) (HashStream s) h (CopyStream s)
     (MD5 s) (SHA1 s) (SHA256 s) (SSDeep s) (TLSH s).

Definition set_CopyStream (c : option ByteStream) (size : Z) (s : t) : t :=
  mk (VolumeSerial s) (SnapshotID s) (FRN s) (InstanceID s) (AttributeIndex s)
     (Matches s) (Content s) (SampleName s) (CollectionDate s)
     (OffLimits s) size (HashStream s) (FuzzyHashStream s) c
     (MD5 s) (SHA1 s) (SHA256 s) (SSDeep s) (TLSH s).

Definition set_crypto (md5 sha1 sha256 : CBinaryBuffer) (s : t) : t :=
  mk (VolumeSerial s) (SnapshotID s) (FRN s) (InstanceID s) (AttributeIndex s)
     (Matches s) (Content s) (SampleName s) (CollectionDate s)
     (OffLimits s) (SampleSize s) (HashStream s) (FuzzyHashStream s) (CopyStream s)
     md5 sha1 sha256 (SSDeep s) (TLSH s).

Definition set_fuzzy (ssdeep tlsh : CBinaryBuffer) (s : t) : t :=
  mk (VolumeSerial s) (SnapshotID s) (FRN s) (InstanceID s) (AttributeIndex s)
     (Matches s) (Content s) (SampleName s) (CollectionDate s)
     (OffLimits s) (SampleSize s) (HashStream s) (FuzzyHashStream s) (CopyStream s)
     (MD5 s) (SHA1 s) (SHA256 s) ssdeep tlsh.

(** [Matches.front()->MatchingAttributes[AttributeIndex]]. *)
Definition attribute (s : t) : option Attribute.t :=
  m ← head (Matches s); Match.MatchingAttributes m !! AttributeIndex s.

End SampleRef.

(** Modelled from the spec: the ordering of [SampleRef] that makes
    [SampleSet] a set is declared in GetThis.h, which is not part of the
    sources; the specification keys the registry by (volume-serial, frn,
    attribute-instance-id). *)
Definition SampleKey : Type := Z * Z * Z.

Definition key_of (s : SampleRef.t) : SampleKey :=
  (SampleRef.VolumeSerial s, QuadPart (SampleRef.FRN s), SampleRef.InstanceID s).

(** Modelled from the spec: the registry offers "ordered iteration", and the
    [operator<] that orders [SampleSet] is declared in GetThis.h, which is
    not part of the sources.  The key's components are compared in the order
    the specification lists them. *)
Definition SampleKey_le (a b : SampleKey) : Prop :=
  a.1.1 < b.1.1
  \/ (a.1.1 = b.1.1 /\ (a.1.2 < b.1.2 \/ (a.1.2 = b.1.2 /\ a.2 <= b.2))).

#[global] Instance SampleKey_le_dec a b : Decision (SampleKey_le a b).
Proof. unfold SampleKey_le. apply _. Defined.

(** The elements of a registry as a loop over [SampleSet] meets them: in
    ascending order of their keys. *)
Definition registry_order {A} (registry : gmap SampleKey A) : list (SampleKey * A) :=
  merge_sort (fun p q => SampleKey_le p.1 q.1) (map_to_list registry).

Module SampleSpec.
Record t := mk {
  Name : wstring;
  Terms : list TermSpec;
  Content : ContentSpec;
  PerSampleLimits : Limits
}.

Definition set_PerSampleLimits (l : Limits) (s : t) : t :=
  mk (Name s) (Terms s) (Content s) l.
End SampleSpec.

Inductive OutputKind := Archive | Directory | OtherOutput.

Record OutputSpec := mkOutputSpec {
  Output_Type : OutputKind;
  Output_Path : wstring
}.

Record Configuration := mkConfiguration {
  content : ContentSpec;
  CryptoHashAlgs : Z;
  FuzzyHashAlgs : Z;
  bReportAll : bool;
  bFlushRegistry : bool;
  listofSpecs : list SampleSpec.t;
  Output : OutputSpec
}.

(** ** Table output *)

Inductive Cell :=
| WriteString (s : wstring)
| WriteInteger (v : Z)
| WriteFileSize (v : Z)
| WriteBytes (b : CBinaryBuffer)
| WriteFileTime (t : Z)
| WriteExactFlags (flags : Z)
| WriteGUID (g : GUID)
| WriteNothing.

(** ** Calls that leave the program

    The calls that open, read, write or close something outside the
    program (streams, file system, archive encoder, table writer) are
    recorded, in order, in the run's trace. *)

Inductive Destination := DevNullStream | FileStream (path : wstring).

Inductive Event :=
| OpenForStrings (stream : ByteStream) (minChars maxChars : Z)
| CryptoOpenToRead (algs : Z) (stream : ByteStream)
| FuzzyOpenToRead (algs : Z) (stream : ByteStream)
| AddStream_call (name display : wstring) (stream : option ByteStream)
| EntryConsumed (name : wstring) (stream : option ByteStream)
| create_directories (path : wstring)
| WriteTo (path : wstring)
| CopyTo (stream : ByteStream) (dest : Destination)
| Close (stream : ByteStream)
| CloseOutput_file (path : wstring)
| GetMD5_call (stream : ByteStream)
| GetSHA1_call (stream : ByteStream)
| GetSHA256_call (stream : ByteStream)
| GetSSDeep_call (stream : ByteStream)
| GetTLSH_call (stream : ByteStream)
| Row (sample : SampleKey) (cells : list Cell).

(** What the collaborators answer.  An answer may depend on everything that
    happened before the call, so each takes the trace so far. *)
Class Collaborators := {
  ComputerName : wstring;
  GetSize : list Event -> ByteStream -> Z;
  OpenForStrings_hr : list Event -> ByteStream -> Z -> Z -> HRESULT;
  CryptoOpenToRead_hr : list Event -> Z -> ByteStream -> HRESULT;
  FuzzyOpenToRead_hr : list Event -> Z -> ByteStream -> HRESULT;
  GetMD5 : list Event -> ByteStream -> CBinaryBuffer;
  GetSHA1 : list Event -> ByteStream -> CBinaryBuffer;
  GetSHA256 : list Event -> ByteStream -> CBinaryBuffer;
  GetSSDeep : list Event -> ByteStream -> CBinaryBuffer;
  GetTLSH : list Event -> ByteStream -> CBinaryBuffer;
  GetMatchFullName : Match.t -> Name.t -> Attribute.t -> wstring;
  AddStream_hr : list Event -> wstring -> option ByteStream -> HRESULT;
  (* whether the encoder completes queued entries during this AddStream *)
  AddStream_flushes : list Event -> bool;
  (* the value of the std::error_code that create_directories sets; 0 is success *)
  create_directories_ec : list Event -> wstring -> Z;
  WriteTo_hr : list Event -> wstring -> HRESULT;
  CopyTo_hr : list Event -> ByteStream -> Destination -> HRESULT;
  CloseOutput_hr : list Event -> wstring -> HRESULT;
  parent_path : wstring -> wstring;
  path_append : wstring -> wstring -> wstring
}.

(** ** The state of [Main] *)

(** An entry queued in the archive encoder.  The completion callback of a
    sample entry is [itemArchivedCb], which captures the sample by
    reference: it is kept as the key of that registry element. *)
Record ArchiveItem := mkArchiveItem {
  NameInArchive : wstring;
  item_Path : wstring;
  item_Stream : option ByteStream;
  item_Callback : option SampleKey
}.

Record Main := mkMain {
  config : Configuration;
  GlobalLimits : Limits;
  Samples : gmap SampleKey SampleRef.t;
  SampleNames : gset wstring;
  CollectionDate : Z;
  m_compressor : list ArchiveItem;
  trace : list Event
}.

Definition set_config (c : Configuration) (st : Main) : Main :=
  mkMain c (GlobalLimits st) (Samples st) (SampleNames st) (CollectionDate st)
         (m_compressor st) (trace st).
Definition set_GlobalLimits (l : Limits) (st : Main) : Main :=
  mkMain (config st) l (Samples st) (SampleNames st) (CollectionDate st)
         (m_compressor st) (trace st).
Definition set_Samples (m : gmap SampleKey SampleRef.t) (st : Main) : Main :=
  mkMain (config st) (GlobalLimits st) m (SampleNames st) (CollectionDate st)
         (m_compressor st) (trace st).
Definition set_SampleNames (n : gset wstring) (st : Main) : Main :=
  mkMain (config st) (GlobalLimits st) (Samples st) n (CollectionDate st)
         (m_compressor st) (trace st).
Definition set_compressor (q : list ArchiveItem) (st : Main) : Main :=
  mkMain (config st) (GlobalLimits st) (Samples st) (SampleNames st) (CollectionDate st)
         q (trace st).
Definition emit (e : Event) (st : Main) : Main :=
  mkMain (config st) (GlobalLimits st) (Samples st) (SampleNames st) (CollectionDate st)
         (m_compressor st) (trace st ++ [e]).

(** [HRESULT_FROM_WIN32] on an error value of [std::error_code]. *)
Definition HRESULT_FROM_WIN32 (x : Z) : HRESULT :=
  if x <=? 0 then x else Z.lor (Z.land x 0xFFFF) 0x80070000 - 2 ^ 32.

(** The accumulators and sticky flags the match callback updates. *)
Definition accumulate (dwlDataSize : Z) (l : Limits) : Limits :=
  mkLimits (bIgnoreLimits l) (dwlMaxBytesTotal l)
           (add64 (dwlAccumulatedBytesTotal l) dwlDataSize) (bMaxBytesTotalReached l)
           (dwlMaxBytesPerSample l) (bMaxBytesPerSampleReached l)
           (dwMaxSampleCount l) (add32 (dwAccumulatedSampleCount l) 1)
           (bMaxSampleCountReached l).
Definition set_bMaxSampleCountReached (l : Limits) : Limits :=
  mkLimits (bIgnoreLimits l) (dwlMaxBytesTotal l) (dwlAccumulatedBytesTotal l)
           (bMaxBytesTotalReached l) (dwlMaxBytesPerSample l) (bMaxBytesPerSampleReached l)
           (dwMaxSampleCount l) (dwAccumulatedSampleCount l) true.
Definition set_bMaxBytesPerSampleReached (l : Limits) : Limits :=
  mkLimits (bIgnoreLimits l) (dwlMaxBytesTotal l) (dwlAccumulatedBytesTotal l)
           (bMaxBytesTotalReached l) (dwlMaxBytesPerSample l) true
           (dwMaxSampleCount l) (dwAccumulatedSampleCount l) (bMaxSampleCountReached l).
Definition set_bMaxBytesTotalReached (l : Limits) : Limits :=
  mkLimits (bIgnoreLimits l) (dwlMaxBytesTotal l) (dwlAccumulatedBytesTotal l)
           true (dwlMaxBytesPerSample l) (bMaxBytesPerSampleReached l)
           (dwMaxSampleCount l) (dwAccumulatedSampleCount l) (bMaxSampleCountReached l).

(** ** The operations of [Main]

    An operation takes the state of [Main] and gives back its result and the
    new state.  [None] stands for an execution that does not come back: the
    runtime's invalid-parameter condition, or an access the C++ leaves
    undefined (a null stream dereferenced, [front()] of an empty vector, an
    index out of range). *)

Section Operations.
Context `{Runtime} `{Collaborators}.

(** The [switch (sampleRef.Content.Type)] of [ConfigureSampleStreams]: the
    stream to read and the status of opening it. *)
Definition select_stream (sampleRef : SampleRef.t) (attr : Attribute.t) (st : Main)
  : HRESULT * ByteStream * Main :=
  let Content := SampleRef.Content sampleRef in
  let data := Attribute.DataStream attr in
  match Type_ Content with
  | DATA => (S_OK, data, st)
  | STRINGS =>
      let '(minChars, maxChars) :=
        if (MaxChars Content =? 0) && (MinChars Content =? 0)
        then (MinChars (content (config st)), MaxChars (content (config st)))
        else (MinChars Content, MaxChars Content) in
      (OpenForStrings_hr (trace st) data minChars maxChars,
       StringsStream data minChars maxChars,
       emit (OpenForStrings data minChars maxChars) st)
  | RAW => (S_OK, Attribute.RawStream attr, st)
  | INVALID => (S_OK, data, st)
  end.

(** The block on [config.CryptoHashAlgs]. *)
Definition chain_crypto (stream : ByteStream) (sampleRef : SampleRef.t) (st : Main)
  : HRESULT * ByteStream * SampleRef.t * Main :=
  let algs := CryptoHashAlgs (config st) in
  if decide (algs = Undefined) then (S_OK, stream, sampleRef, st)
  else
    let hashStream := CryptoHashStream algs stream in
    (CryptoOpenToRead_hr (trace st) algs stream, hashStream,
     SampleRef.set_HashStream (Some hashStream) sampleRef,
     emit (CryptoOpenToRead algs stream) st).

(** The block on [config.FuzzyHashAlgs]. *)
Definition chain_fuzzy (upstream : ByteStream) (sampleRef : SampleRef.t) (st : Main)
  : HRESULT * ByteStream * SampleRef.t * Main :=
  let fuzzy_algs := FuzzyHashAlgs (config st) in
  if decide (fuzzy_algs = Undefined) then (S_OK, upstream, sampleRef, st)
  else
    let fuzzyStream := FuzzyHashStream fuzzy_algs upstream in
    (FuzzyOpenToRead_hr (trace st) fuzzy_algs upstream, fuzzyStream,
     SampleRef.set_FuzzyHashStream (Some fuzzyStream) sampleRef,
     emit (FuzzyOpenToRead fuzzy_algs upstream) st).

(** [Main::ConfigureSampleStreams]. *)
Definition ConfigureSampleStreams (sampleRef : SampleRef.t) (st : Main)
  : option (HRESULT * SampleRef.t * Main) :=
  if decide (SampleRef.SampleName sampleRef = []) then Some (E_INVALIDARG, sampleRef, st)
  else
    attr ← SampleRef.attribute sampleRef;
    let '(hr, stream, st) := select_stream sampleRef attr st in
    if FAILED hr then Some (hr, sampleRef, st)
    else
      let '(hr, upstream, sampleRef, st) := chain_crypto stream sampleRef st in
      if FAILED hr then Some (hr, sampleRef, st)
      else
        let '(hr, upstream, sampleRef, st) := chain_fuzzy upstream sampleRef st in
        if FAILED hr then Some (hr, sampleRef, st)
        else
          Some (S_OK,
                SampleRef.set_CopyStream (Some upstream) (GetSize (trace st) upstream)
                                         sampleRef,
                st).

(** The [do ... while] of [AddSamplesForMatch] that looks for an unused name.
    Each turn either leaves the loop or has found one more member of
    [SampleNames]; [fuel] bounds the number of turns. *)
Fixpoint name_search (fuel : nat) (Content : ContentSpec) (name : Name.t)
    (AttrName specName : wstring) (names : gset wstring)
    (dwIdx : Z) (CabSampleName : wstring) : option (HRESULT * wstring) :=
  match fuel with
  | O => None
  | S fuel' =>
      match CreateSampleFileName Content (Name.FILENAME name) AttrName dwIdx
                                 CabSampleName with
      | InvalidParameter => None
      | Returned hr CabSampleName =>
          if FAILED hr then Some (hr, CabSampleName)
          else
            let CabSampleName :=
              if decide (specName = []) then CabSampleName
              else specName ++ L "\" ++ CabSampleName in
            if decide (CabSampleName ∈ names)
            then name_search fuel' Content name AttrName specName names
                             (add32 dwIdx 1) CabSampleName
            else Some (hr, CabSampleName)
      end
  end.

(** The [for] over [aMatch->MatchingNames]. *)
Fixpoint name_sample (aSpec : SampleSpec.t) (anAttr : Attribute.t) (date : Z)
    (MatchingNames : list Name.t) (sampleRef : SampleRef.t) (names : gset wstring)
  : option (SampleRef.t * gset wstring) :=
  match MatchingNames with
  | [] => Some (sampleRef, names)
  | name :: rest =>
      let sampleRef := SampleRef.set_Content (SampleSpec.Content aSpec) date sampleRef in
      '(hr, CabSampleName) ←
        name_search (S (size names)) (SampleRef.Content sampleRef) name
                    (Attribute.AttrName anAttr) (SampleSpec.Name aSpec) names 0 [];
      name_sample aSpec anAttr date rest
                  (SampleRef.set_SampleName CabSampleName sampleRef)
                  ({[CabSampleName]} ∪ names)
  end.

Definition OffLimits_for (status : LimitStatus) : bool :=
  match status with
  | NoLimits | SampleWithinLimits => false
  | GlobalSampleCountLimitReached
  | GlobalMaxBytesPerSample
  | GlobalMaxBytesTotal
  | LocalSampleCountLimitReached
  | LocalMaxBytesPerSample
  | LocalMaxBytesTotal
  | FailedToComputeLimits => true
  end.

(** The sample drafted for one attribute, up to the registry lookup. *)
Definition draft_sample (status : LimitStatus) (aMatch : Match.t)
    (anAttr : Attribute.t) (sIndex : nat) : SampleRef.t :=
  let sampleRef := SampleRef.push_back_Matches aMatch SampleRef.default in
  let SnapshotID :=
    match Match.SnapshotVolumeReader aMatch with
    | Some id => id
    | None => GUID_NULL
    end in
  let sampleRef :=
    SampleRef.set_identity (Match.VolumeSerialNumber aMatch) SnapshotID (Match.FRN aMatch)
                           (Attribute.InstanceID anAttr) sIndex sampleRef in
  SampleRef.set_OffLimits (OffLimits_for status) sampleRef.

(** One turn of the [for] over [aMatch->MatchingAttributes]. *)
Definition add_sample_for_attribute (status : LimitStatus) (aSpec : SampleSpec.t)
    (aMatch : Match.t) (sIndex : nat) (anAttr : Attribute.t) (st : Main)
  : option (HRESULT * Main) :=
  let sampleRef := draft_sample status aMatch anAttr sIndex in
  match Samples st !! key_of sampleRef with
  | Some prevSample =>
      (* the log line reads aMatch->MatchingNames.front() *)
      front ← head (Match.MatchingNames aMatch);
      Some (S_FALSE, st)
  | None =>
      '(sampleRef, names) ←
        name_sample aSpec anAttr (CollectionDate st) (Match.MatchingNames aMatch)
                    sampleRef (SampleNames st);
      '(hr, sampleRef, st) ← ConfigureSampleStreams sampleRef (set_SampleNames names st);
      Some (hr, set_Samples (<[key_of sampleRef := sampleRef]> (Samples st)) st)
  end.

Fixpoint add_samples_for_attributes (status : LimitStatus) (aSpec : SampleSpec.t)
    (aMatch : Match.t) (sIndex : nat) (attrs : list Attribute.t)
    (hr : HRESULT) (st : Main) : option (HRESULT * Main) :=
  match attrs with
  | [] => Some (hr, st)
  | anAttr :: rest =>
      '(hr, st) ← add_sample_for_attribute status aSpec aMatch sIndex anAttr st;
      add_samples_for_attributes status aSpec aMatch (S sIndex) rest hr st
  end.

(** [Main::AddSamplesForMatch]. *)
Definition AddSamplesForMatch (status : LimitStatus) (aSpec : SampleSpec.t)
    (aMatch : Match.t) (st : Main) : option (HRESULT * Main) :=
  '(hr, st) ← add_samples_for_attributes status aSpec aMatch 0
                (Match.MatchingAttributes aMatch) E_FAIL st;
  if decide (hr = S_FALSE) then Some (hr, st) else Some (S_OK, st).

End Operations.

Section Reporting.
Context `{Runtime} `{Collaborators}.

(** Column 28: the rules, each followed by the delimiter. *)
Definition yara_cell (rules : option (list wstring)) : Cell :=
  match rules with
  | Some rs => WriteString (concat (map (fun r => r ++ L "; ") rs))
  | None => WriteNothing
  end.

(** The cells [AddSampleRefToCSV] writes for one name of one match, up to
    [WriteEndOfLine]; [pFileName] is what [name.FILENAME()] points to. *)
Definition csv_cells (sample : SampleRef.t) (aMatch : Match.t) (attr : Attribute.t)
    (name : Name.t) (pFileName : FILE_NAME) : list Cell :=
  [ WriteString ComputerName;
    WriteInteger (Match.VolumeSerialNumber aMatch);
    WriteInteger (QuadPart (ParentDirectory pFileName));
    WriteInteger (QuadPart (Match.FRN aMatch));
    WriteString (Name.FullPathName name);
    (if SampleRef.OffLimits sample then WriteNothing
     else WriteString (SampleRef.SampleName sample));
    WriteFileSize (SampleRef.SampleSize sample);
    WriteBytes (SampleRef.MD5 sample);
    WriteBytes (SampleRef.SHA1 sample);
    WriteString (GetDescription (Match.Term aMatch));
    match Type_ (SampleRef.Content sample) with
    | DATA => WriteString (L "data")
    | STRINGS => WriteString (L "strings")
    | _ => WriteNothing
    end;
    WriteFileTime (SampleRef.CollectionDate sample);
    WriteFileTime (CreationTime (Match.StandardInformation aMatch));
    WriteFileTime (LastModificationTime (Match.StandardInformation aMatch));
    WriteFileTime (LastAccessTime (Match.StandardInformation aMatch));
    WriteFileTime (LastChangeTime (Match.StandardInformation aMatch));
    WriteFileTime (CreationTime (Info pFileName));
    WriteFileTime (LastModificationTime (Info pFileName));
    WriteFileTime (LastAccessTime (Info pFileName));
    WriteFileTime (LastChangeTime (Info pFileName));
    WriteExactFlags (Attribute.Type_ attr);
    WriteString (Attribute.AttrName attr);
    WriteInteger (SampleRef.InstanceID sample mod 2 ^ 32);
    WriteGUID (SampleRef.SnapshotID sample);
    WriteBytes (SampleRef.SHA256 sample);
    WriteBytes (SampleRef.SSDeep sample);
    WriteBytes (SampleRef.TLSH sample);
    yara_cell (Attribute.YaraRules attr) ].

(** One turn of the inner [for]: the row of one name. *)
Definition csv_row (sample : SampleRef.t) (aMatch : Match.t) (attr : Attribute.t)
    (name : Name.t) : option (list Cell) :=
  pFileName ← Name.FILENAME name;
  Some (csv_cells sample aMatch attr name pFileName).

(** The rows of one match: one per matching name. *)
Definition match_rows (sample : SampleRef.t) (aMatch : Match.t) : option (list (list Cell)) :=
  match Match.MatchingNames aMatch with
  | [] => Some []
  | names =>
      attr ← Match.MatchingAttributes aMatch !! SampleRef.AttributeIndex sample;
      mapM (csv_row sample aMatch attr) names
  end.

Fixpoint sample_rows (sample : SampleRef.t) (Matches : list Match.t)
  : option (list (list Cell)) :=
  match Matches with
  | [] => Some []
  | aMatch :: rest =>
      rows ← match_rows sample aMatch;
      more ← sample_rows sample rest;
      Some (rows ++ more)
  end.

Definition write_rows (k : SampleKey) (rows : list (list Cell)) (st : Main) : Main :=
  foldl (fun st cells => emit (Row k cells) st) st rows.

(** [Main::AddSampleRefToCSV]. *)
Definition AddSampleRefToCSV (sample : SampleRef.t) (st : Main) : option (HRESULT * Main) :=
  rows ← sample_rows sample (SampleRef.Matches sample);
  Some (S_OK, write_rows (key_of sample) rows st).

(** The three digests read from the crypto-hash stream. *)
Definition read_crypto (hashStream : ByteStream) (sample : SampleRef.t) (st : Main)
  : SampleRef.t * Main :=
  let md5 := GetMD5 (trace st) hashStream in
  let st := emit (GetMD5_call hashStream) st in
  let sha1 := GetSHA1 (trace st) hashStream in
  let st := emit (GetSHA1_call hashStream) st in
  let sha256 := GetSHA256 (trace st) hashStream in
  let st := emit (GetSHA256_call hashStream) st in
  (SampleRef.set_crypto md5 sha1 sha256 sample, st).

(** The two fuzzy hashes read from the fuzzy-hash stream. *)
Definition read_fuzzy (fuzzyStream : ByteStream) (sample : SampleRef.t) (st : Main)
  : SampleRef.t * Main :=
  let ssdeep := GetSSDeep (trace st) fuzzyStream in
  let st := emit (GetSSDeep_call fuzzyStream) st in
  let tlsh := GetTLSH (trace st) fuzzyStream in
  let st := emit (GetTLSH_call fuzzyStream) st in
  (SampleRef.set_fuzzy ssdeep tlsh sample, st).

(** [Main::FinalizeHashes]; the sample it gives back is the registry element
    with the buffers it wrote through [const_cast]. *)
Definition FinalizeHashes (sample : SampleRef.t) (st : Main) : option (SampleRef.t * Main) :=
  match SampleRef.HashStream sample with
  | None => Some (sample, st)
  | Some hashStream =>
      st ←
        (if SampleRef.OffLimits sample && bReportAll (config st)
            && negb (bool_decide (CryptoHashAlgs (config st) = Undefined))
         then
           copyStream ← SampleRef.CopyStream sample;
           Some (emit (Close copyStream) (emit (CopyTo copyStream DevNullStream) st))
         else Some st);
      let '(sample, st) := read_crypto hashStream sample st in
      match SampleRef.FuzzyHashStream sample with
      | None => Some (sample, st)
      | Some fuzzyStream => Some (read_fuzzy fuzzyStream sample st)
      end
  end.

(** The lambda [itemArchivedCb] of the archive sink, for the registry element
    with key [k]. *)
Definition itemArchivedCb (k : SampleKey) (st : Main) : option Main :=
  sample ← Samples st !! k;
  '(sample, st) ← FinalizeHashes sample st;
  let st := set_Samples (<[k := sample]> (Samples st)) st in
  '(hr, st) ← AddSampleRefToCSV sample st;
  Some st.

End Reporting.

(** Modelled from the spec: the archive encoder ([ArchiveCreate]) is not part
    of the sources.  The specification gives it as an appender with a
    per-entry completion callback, which it invokes synchronously, from the
    write or from the flush, once it has consumed the entry's stream. *)
Module ArchiveCreate.
Section Encoder.
Context `{Runtime} `{Collaborators}.

Definition complete_entry (item : ArchiveItem) (st : Main) : option Main :=
  let st := emit (EntryConsumed (NameInArchive item) (item_Stream item)) st in
  match item_Callback item with
  | None => Some st
  | Some k => itemArchivedCb k st
  end.

Fixpoint complete_entries (items : list ArchiveItem) (st : Main) : option Main :=
  match items with
  | [] => Some st
  | item :: rest => st ← complete_entry item st; complete_entries rest st
  end.

Definition FlushQueue (st : Main) : option Main :=
  complete_entries (m_compressor st) (set_compressor [] st).

Definition AddStream (name display : wstring) (stream : option ByteStream)
    (callback : option SampleKey) (st : Main) : option (HRESULT * Main) :=
  let hr := AddStream_hr (trace st) name stream in
  let flushes := AddStream_flushes (trace st) in
  let st := emit (AddStream_call name display stream) st in
  if FAILED hr then Some (hr, st)
  else
    let st := set_compressor (m_compressor st ++ [mkArchiveItem name display stream callback])
                             st in
    if flushes then st ← FlushQueue st; Some (hr, st) else Some (hr, st).

End Encoder.
End ArchiveCreate.

Section Sinks.
Context `{Runtime} `{Collaborators}.

(** [sample.Matches.front()] with its [MatchingNames.front()] and its
    [MatchingAttributes.front()]. *)
Definition fronts (sample : SampleRef.t) : option (Match.t * Name.t * Attribute.t) :=
  front ← head (SampleRef.Matches sample);
  name ← head (Match.MatchingNames front);
  attr ← head (Match.MatchingAttributes front);
  Some (front, name, attr).

(** [Main::WriteSample(compressor, sample)], for the registry element with
    key [k]. *)
Definition WriteSample_archive (k : SampleKey) (st : Main) : option (HRESULT * Main) :=
  sample ← Samples st !! k;
  if SampleRef.OffLimits sample then Some (S_OK, st)
  else
    '(front, name, attr) ← fronts sample;
    let strName := GetMatchFullName front name attr in
    '(hr, st) ← ArchiveCreate.AddStream (SampleRef.SampleName sample) strName
                  (SampleRef.CopyStream sample) (Some k) st;
    Some (S_OK, st).

(** The file-local [CopyStream(src, outPath)]. *)
Definition CopyStream (src : ByteStream) (outPath : wstring) (st : Main) : HRESULT * Main :=
  let ec := create_directories_ec (trace st) (parent_path outPath) in
  let st := emit (create_directories (parent_path outPath)) st in
  if negb (ec =? 0) then (HRESULT_FROM_WIN32 ec, st)
  else
    let hr := WriteTo_hr (trace st) outPath in
    let st := emit (WriteTo outPath) st in
    if FAILED hr then (hr, st)
    else
      let hr := CopyTo_hr (trace st) src (FileStream outPath) in
      let st := emit (CopyTo src (FileStream outPath)) st in
      if FAILED hr then (hr, st)
      else
        let hr := CloseOutput_hr (trace st) outPath in
        let st := emit (CloseOutput_file outPath) st in
        if FAILED hr then (hr, st)
        else (S_OK, emit (Close src) st).

(** [Main::WriteSample(outputDir, sample)], for the registry element with
    key [k]. *)
Definition WriteSample_directory (outputDir : wstring) (k : SampleKey) (st : Main)
  : option (HRESULT * Main) :=
  sample ← Samples st !! k;
  if SampleRef.OffLimits sample then Some (S_OK, st)
  else
    let sampleFile := path_append outputDir (SampleRef.SampleName sample) in
    let ec := create_directories_ec (trace st) (parent_path sampleFile) in
    let st := emit (create_directories (parent_path sampleFile)) st in
    if negb (ec =? 0) then Some (HRESULT_FROM_WIN32 ec, st)
    else
      src ← SampleRef.CopyStream sample;
      let '(hr, st) := CopyStream src sampleFile st in
      if FAILED hr then Some (hr, st)
      else
        '(sample, st) ← FinalizeHashes sample st;
        let st := set_Samples (<[k := sample]> (Samples st)) st in
        '(hr, st) ← AddSampleRefToCSV sample st;
        if FAILED hr then Some (hr, st) else Some (S_OK, st).

(** The loop of [Main::WriteSamples(compressor, samples)]. *)
Fixpoint write_to_archive (keys : list SampleKey) (st : Main) : option Main :=
  match keys with
  | [] => Some st
  | k :: rest => '(hr, st) ← WriteSample_archive k st; write_to_archive rest st
  end.

(** The loop of [Main::WriteSamples(outputDir, samples)]; after a write that
    did not fail it asks the sample's copy stream for its size, for the log. *)
Fixpoint write_to_directory (outputDir : wstring) (keys : list SampleKey) (st : Main)
  : option Main :=
  match keys with
  | [] => Some st
  | k :: rest =>
      '(hr, st) ← WriteSample_directory outputDir k st;
      if FAILED hr then write_to_directory outputDir rest st
      else
        sample ← Samples st !! k;
        copyStream ← SampleRef.CopyStream sample;
        write_to_directory outputDir rest st
  end.

(** The two [Main::WriteSamples]: every element of the registry, in the
    registry's order. *)
Definition WriteSamples_archive (st : Main) : option (HRESULT * Main) :=
  st ← write_to_archive (map fst (registry_order (Samples st))) st;
  Some (S_OK, st).

Definition WriteSamples_directory (outputDir : wstring) (st : Main)
  : option (HRESULT * Main) :=
  st ← write_to_directory outputDir (map fst (registry_order (Samples st))) st;
  Some (S_OK, st).

(** [Main::CollectSamples]. *)
Definition CollectSamples (st : Main) : option (HRESULT * Main) :=
  match Output_Type (Output (config st)) with
  | Archive => WriteSamples_archive st
  | Directory => WriteSamples_directory (Output_Path (Output (config st))) st
  | OtherOutput => Some (E_NOTIMPL, st)
  end.

End Sinks.

Section Orchestrator.
Context `{Runtime} `{Collaborators}.

Definition has_term (term : TermSpec) (aSpec : SampleSpec.t) : Prop :=
  Exists (fun t => term_address t = term_address term) (SampleSpec.Terms aSpec).

#[global] Instance has_term_dec term aSpec : Decision (has_term term aSpec).
Proof. unfold has_term. apply _. Defined.

Definition update_spec (i : nat) (f : Limits -> Limits) (st : Main) : Main :=
  let c := config st in
  set_config
    (mkConfiguration (content c) (CryptoHashAlgs c) (FuzzyHashAlgs c) (bReportAll c)
       (bFlushRegistry c)
       (alter (fun aSpec =>
                 SampleSpec.set_PerSampleLimits (f (SampleSpec.PerSampleLimits aSpec)) aSpec)
              i (listofSpecs c))
       (Output c))
    st.

Definition update_global (f : Limits -> Limits) (st : Main) : Main :=
  set_GlobalLimits (f (GlobalLimits st)) st.

(** The [switch (status)] that closes each turn of the callback's loop. *)
Definition account (status : LimitStatus) (hr : HRESULT) (dwlDataSize : Z)
    (aSpecIt : nat) (st : Main) : Main :=
  match status with
  | NoLimits | SampleWithinLimits =>
      if decide (hr = S_FALSE) then st
      else update_global (accumulate dwlDataSize)
             (update_spec aSpecIt (accumulate dwlDataSize) st)
  | GlobalSampleCountLimitReached => update_global set_bMaxSampleCountReached st
  | GlobalMaxBytesPerSample => update_global set_bMaxBytesPerSampleReached st
  | GlobalMaxBytesTotal => update_global set_bMaxBytesTotalReached st
  | LocalSampleCountLimitReached => update_spec aSpecIt set_bMaxSampleCountReached st
  | LocalMaxBytesPerSample => update_spec aSpecIt set_bMaxBytesPerSampleReached st
  | LocalMaxBytesTotal => update_spec aSpecIt set_bMaxBytesTotalReached st
  | FailedToComputeLimits => st
  end.

(** The [for] over the match's attributes in the callback. *)
Fixpoint on_attributes (aSpecIt : nat) (aMatch : Match.t) (attrs : list Attribute.t)
    (st : Main) : option Main :=
  match attrs with
  | [] => Some st
  | attr :: rest =>
      aSpec ← listofSpecs (config st) !! aSpecIt;
      (* strName, for the log, is built from aMatch->MatchingNames.front() *)
      name ← head (Match.MatchingNames aMatch);
      let dwlDataSize := GetSize (trace st) (Attribute.DataStream attr) in
      let status :=
        SampleLimitStatus (GlobalLimits st) (SampleSpec.PerSampleLimits aSpec) dwlDataSize in
      '(hr, st) ← AddSamplesForMatch status aSpec aMatch st;
      on_attributes aSpecIt aMatch rest (account status hr dwlDataSize aSpecIt st)
  end.

(** The lambda [onMatchCb] of [FindMatchingSamples]. *)
Definition onMatchCb (aMatch : Match.t) (st : Main) : option Main :=
  match Match.MatchingAttributes aMatch with
  | [] =>
      (* the warning reads aMatch->MatchingNames.front() *)
      name ← head (Match.MatchingNames aMatch);
      Some st
  | attrs =>
      match list_find (has_term (Match.Term aMatch)) (listofSpecs (config st)) with
      | None => Some st
      | Some (aSpecIt, _) => on_attributes aSpecIt aMatch attrs st
      end
  end.

(** [Main::FindMatchingSamples]: the finder hands each of its matches, in
    turn, to the callback. *)
Fixpoint FindMatchingSamples (found : list Match.t) (st : Main) : option Main :=
  match found with
  | [] => Some st
  | aMatch :: rest => st ← onMatchCb aMatch st; FindMatchingSamples rest st
  end.

(** [Main::Run] with the output initialised, from [FindMatchingSamples] to
    the [FlushQueue] that opens [CloseArchiveOutput]; [found] is what the
    finder finds.  What follows in [CloseOutput] adds the table and the log
    to the archive and closes the writers. *)
Definition Run (found : list Match.t) (st : Main) : option Main :=
  st ← FindMatchingSamples found st;
  '(hr, st) ← CollectSamples st;
  if FAILED hr then Some st
  else
    match Output_Type (Output (config st)) with
    | Archive => ArchiveCreate.FlushQueue st
    | _ => Some st
    end.

End Orchestrator.

(** ** Observations on streams and traces *)

(** The stream under the hash observers. *)
Fixpoint base_stream (s : ByteStream) : ByteStream :=
  match s with
  | CryptoHashStream _ inner => base_stream inner
  | FuzzyHashStream _ inner => base_stream inner
  | _ => s
  end.

(** The [OpenForStrings] calls of a trace, in order. *)
Definition strings_calls (events : list Event) : list (ByteStream * Z * Z) :=
  omap (fun e => match e with
                 | OpenForStrings s lo hi => Some (s, lo, hi)
                 | _ => None
                 end) events.

(** The bounds the specification asks for. *)
Definition strings_bounds (own global : ContentSpec) : Z * Z :=
  if decide (MinChars own = 0 /\ MaxChars own = 0)
  then (MinChars global, MaxChars global)
  else (MinChars own, MaxChars own).

(** The CSV rows of a trace, in order, each with the sample it reports. *)
Definition rows (events : list Event) : list (SampleKey * list Cell) :=
  omap (fun e => match e with
                 | Row k cells => Some (k, cells)
                 | _ => None
                 end) events.

(** ** Vocabulary of the registry properties *)

(** What naming and stream configuration leave alone in a sample. *)
Record keeps_record (s s' : SampleRef.t) : Prop := {
  keeps_key : key_of s' = key_of s;
  keeps_Matches : SampleRef.Matches s' = SampleRef.Matches s;
  keeps_AttributeIndex : SampleRef.AttributeIndex s' = SampleRef.AttributeIndex s;
  keeps_InstanceID : SampleRef.InstanceID s' = SampleRef.InstanceID s;
  keeps_OffLimits : SampleRef.OffLimits s' = SampleRef.OffLimits s;
  keeps_MD5 : SampleRef.MD5 s' = SampleRef.MD5 s;
  keeps_SHA1 : SampleRef.SHA1 s' = SampleRef.SHA1 s;
  keeps_SHA256 : SampleRef.SHA256 s' = SampleRef.SHA256 s;
  keeps_SSDeep : SampleRef.SSDeep s' = SampleRef.SSDeep s;
  keeps_TLSH : SampleRef.TLSH s' = SampleRef.TLSH s
}.

(** A state that differs from another only by calls added to the trace,
    none of them a CSV row. *)
Definition log (events : list Event) (st : Main) : Main :=
  mkMain (config st) (GlobalLimits st) (Samples st) (SampleNames st)
         (CollectionDate st) (m_compressor st) (trace st ++ events).

Definition quiet (st st' : Main) : Prop :=
  exists events, st' = log events st /\ rows events = [].

(** A sample as ingestion of [aMatch] under [status] leaves it in the
    registry, the crypto algorithms configured being [crypto]. *)
Record created_by (status : LimitStatus) (aMatch : Match.t) (crypto : Z)
    (s : SampleRef.t) : Prop := {
  created_Matches : SampleRef.Matches s = [aMatch];
  created_OffLimits : SampleRef.OffLimits s = OffLimits_for status;
  created_MD5 : SampleRef.MD5 s = [];
  created_SHA1 : SampleRef.SHA1 s = [];
  created_SHA256 : SampleRef.SHA256 s = [];
  created_SSDeep : SampleRef.SSDeep s = [];
  created_TLSH : SampleRef.TLSH s = [];
  created_HashStream : crypto = Undefined -> SampleRef.HashStream s = None;
  created_attribute :
    exists anAttr,
      Match.MatchingAttributes aMatch !! SampleRef.AttributeIndex s = Some anAttr
      /\ SampleRef.InstanceID s = Attribute.InstanceID anAttr
}.

(** [st'] is [st] after some ingestion, every limit status of which was
    [allowed]: the registry only grew, by samples created so, and nothing
    was queued or reported. *)
Record ingested (allowed : LimitStatus -> Prop) (st st' : Main) : Prop := {
  ingested_old : Samples st ⊆ Samples st';
  ingested_new :
    forall k s, Samples st' !! k = Some s ->
      Samples st !! k = Some s
      \/ (Samples st !! k = None /\ key_of s = k
          /\ exists status aMatch,
               allowed status /\ created_by status aMatch (CryptoHashAlgs (config st)) s);
  ingested_crypto : CryptoHashAlgs (config st') = CryptoHashAlgs (config st);
  ingested_fuzzy : FuzzyHashAlgs (config st') = FuzzyHashAlgs (config st);
  ingested_report : bReportAll (config st') = bReportAll (config st);
  ingested_Output : Output (config st') = Output (config st);
  ingested_specs : length (listofSpecs (config st')) = length (listofSpecs (config st));
  ingested_ignore : bIgnoreLimits (GlobalLimits st') = bIgnoreLimits (GlobalLimits st);
  ingested_queue : m_compressor st' = m_compressor st;
  ingested_rows : rows (trace st') = rows (trace st)
}.

(** What hash finalization leaves alone in a sample: all but the five hash
    buffers. *)
Record same_report (s s' : SampleRef.t) : Prop := {
  same_key : key_of s' = key_of s;
  same_Matches : SampleRef.Matches s' = SampleRef.Matches s;
  same_AttributeIndex : SampleRef.AttributeIndex s' = SampleRef.AttributeIndex s;
  same_OffLimits : SampleRef.OffLimits s' = SampleRef.OffLimits s;
  same_SampleName : SampleRef.SampleName s' = SampleRef.SampleName s;
  same_CopyStream : SampleRef.CopyStream s' = SampleRef.CopyStream s;
  same_HashStream : SampleRef.HashStream s' = SampleRef.HashStream s;
  same_FuzzyHashStream : SampleRef.FuzzyHashStream s' = SampleRef.FuzzyHashStream s
}.

(** Every element of the registry sits under its own key. *)
Definition well_keyed (st : Main) : Prop :=
  map_Forall (fun k s => key_of s = k) (Samples st).

(** Columns 26 and 27 of a row (SSDEEP, TLSH) are empty buffers. *)
Definition fuzzy_columns_empty (cells : list Cell) : Prop :=
  cells !! 25%nat = Some (WriteBytes []) /\ cells !! 26%nat = Some (WriteBytes []).

(** Column 6 of a row (sample-name). *)
Definition name_column (cells : list Cell) : option Cell := cells !! 5%nat.

(** The steps a run is made of: a match handed to the callback, a sample
    written to either sink, the encoder's queue flushed. *)
Inductive run_step `{Runtime} `{Collaborators} : Main -> Main -> Prop :=
| step_match aMatch st st' :
    onMatchCb aMatch st = Some st' -> run_step st st'
| step_write_archive k st hr st' :
    WriteSample_archive k st = Some (hr, st') -> run_step st st'
| step_write_directory outputDir k st hr st' :
    WriteSample_directory outputDir k st = Some (hr, st') -> run_step st st'
| step_flush st st' :
    ArchiveCreate.FlushQueue st = Some st' -> run_step st st'.

(** The archive sink as the CSV and the encoder see it: entries consumed,
    hashes read, rows written (their cells left out), in order; the
    [AddStream] calls themselves are left out. *)
Definition archive_view (events : list Event) : list Event :=
  omap (fun e => match e with
                 | AddStream_call _ _ _ => None
                 | Row k _ => Some (Row k [])
                 | _ => Some e
                 end) events.

(** The hash reads of [FinalizeHashes] on a sample that is not off-limits. *)
Definition finalize_calls (s : SampleRef.t) : list Event :=
  match SampleRef.HashStream s with
  | None => []
  | Some h =>
      [GetMD5_call h; GetSHA1_call h; GetSHA256_call h]
      ++ match SampleRef.FuzzyHashStream s with
         | None => []
         | Some f => [GetSSDeep_call f; GetTLSH_call f]
         end
  end.

(** All matching names of a sample, match by match. *)
Definition names_of (s : SampleRef.t) : list Name.t :=
  SampleRef.Matches s ≫= Match.MatchingNames.

(** What the archive sink owes a written sample: its entry consumed, then
    its hashes read, then one row per matching name. *)
Definition entry_block (s : SampleRef.t) : list Event :=
  EntryConsumed (SampleRef.SampleName s) (SampleRef.CopyStream s)
  :: finalize_calls s ++ replicate (length (names_of s)) (Row (key_of s) []).

(** A registry element the sinks can handle: its first match has a name and
    an attribute to call the entry after, and the reporter finds its
    attribute and the file name of each of its names. *)
Definition reportable `{Collaborators} (s : SampleRef.t) : Prop :=
  is_Some (fronts s)
  /\ is_Some (sample_rows s (SampleRef.Matches s)).

(** The entry [WriteSample] queues for a sample, with [itemArchivedCb] bound
    to the registry element. *)
Definition entry_item `{Collaborators} (s : SampleRef.t) : ArchiveItem :=
  mkArchiveItem
    (SampleRef.SampleName s)
    (match fronts s with
     | Some (front, name, attr) => GetMatchFullName front name attr
     | None => []
     end)
    (SampleRef.CopyStream s)
    (Some (key_of s)).

(** The registry of [st] still holds every sample of [registry], up to hash
    buffers. *)
Definition tracks (registry : gmap SampleKey SampleRef.t) (st : Main) : Prop :=
  forall k s, registry !! k = Some s ->
    exists s', Samples st !! k = Some s' /\ same_report s s'.

(** The samples of a registry the archive sink writes: those within limits,
    in the registry's order. *)
Definition written_samples (registry : gmap SampleKey SampleRef.t) : list SampleRef.t :=
  filter (fun s => SampleRef.OffLimits s = false) (map snd (registry_order registry)).

(** The encoder's answer to the [AddStream] of a sample, given at a point of
    the trace from [before] to [after]: a failure or not. *)
Definition AddStream_answered `{Collaborators} (failed : bool) (before after : list Event)
    (s : SampleRef.t) : Prop :=
  exists history,
    before `prefix_of` history /\ history `prefix_of` after
    /\ FAILED (AddStream_hr history (SampleRef.SampleName s) (SampleRef.CopyStream s))
       = failed.

(** A sample the archive sink has queued or may queue. *)
Definition writable `{Collaborators} (registry : gmap SampleKey SampleRef.t)
    (s : SampleRef.t) : Prop :=
  registry !! key_of s = Some s /\ SampleRef.OffLimits s = false /\ reportable s.

(** ** Vocabulary of the name search *)

(** The name tried at index [idx] for the file name [fn]. *)
Definition candidate `{Runtime} (Content : ContentSpec) (fn : FILE_NAME)
    (AttrName specName : wstring) (idx : Z) : wstring :=
  let formatted :=
    map replace_item (Printf.render (name_format Content fn AttrName idx)) in
  if decide (specName = []) then formatted else specName ++ L "\" ++ formatted.

(** The name formatted for index [idx] fits the buffer. *)
Definition fits `{Runtime} (Content : ContentSpec) (fn : FILE_NAME)
    (AttrName : wstring) (idx : Z) : Prop :=
  (length (Printf.render (name_format Content fn AttrName idx)) < MAX_PATH)%nat.

(** The number a string of decimal digits writes. *)
Definition dec_value (s : wstring) : Z :=
  fold_left (fun acc c => acc * 10 + (c - 48)) s 0.

(** What comes before and after the index in the two formats that have one. *)
Definition before_index `{Runtime} (Content : ContentSpec) (fn : FILE_NAME)
    (DataName : wstring) : wstring :=
  let name := Printf.Chars (Z.to_nat (FileNameLength fn)) (FileName fn) in
  let data := Printf.Chars (length DataName) DataName in
  let us := Printf.Text (L "_") in
  Printf.render
    (ParentDirectory_conversions fn
       ++ (if negb (length DataName =? 0)%nat then [us; name; us; data; us]
           else [us; us; name; us])).

Definition after_index `{Runtime} (Content : ContentSpec) : wstring :=
  Printf.render [Printf.Text (L "_"); Printf.CString (pContent Content)].

(** Every name the ingestion of [aMatch] under [aSpec] may format fits the
    buffer. *)
Definition names_fit `{Runtime} (aSpec : SampleSpec.t) (aMatch : Match.t) : Prop :=
  forall name fn anAttr j,
    name ∈ Match.MatchingNames aMatch ->
    Name.FILENAME name = Some fn ->
    anAttr ∈ Match.MatchingAttributes aMatch ->
    0 <= j < 2 ^ 32 ->
    fits (SampleSpec.Content aSpec) fn (Attribute.AttrName anAttr) j.

(** ** Vocabulary of the further properties *)

(** The calls of the file-local [CopyStream] when none fails, in order. *)
Definition CopyStream_calls `{Collaborators} (src : ByteStream) (outPath : wstring)
  : list Event :=
  [ create_directories (parent_path outPath); WriteTo outPath;
    CopyTo src (FileStream outPath); CloseOutput_file outPath; Close src ].

(** The stream [ConfigureSampleStreams] starts from: the strings of the data
    stream, the raw stream or the data stream, by the content asked for. *)
Definition selected_stream (own global : ContentSpec) (attr : Attribute.t) : ByteStream :=
  match Type_ own with
  | STRINGS =>
      let '(lo, hi) := strings_bounds own global in
      StringsStream (Attribute.DataStream attr) lo hi
  | RAW => Attribute.RawStream attr
  | _ => Attribute.DataStream attr
  end.

(** The hash streams it chains over a stream, where an algorithm is set. *)
Definition crypto_layer (crypto : Z) (stream : ByteStream) : ByteStream :=
  if decide (crypto = Undefined) then stream else CryptoHashStream crypto stream.

Definition fuzzy_layer (fuzzy : Z) (stream : ByteStream) : ByteStream :=
  if decide (fuzzy = Undefined) then stream else FuzzyHashStream fuzzy stream.

(** Every named sample of the registry has its name in [SampleNames]. *)
Definition names_reserved (st : Main) : Prop :=
  forall k s, Samples st !! k = Some s ->
    SampleRef.SampleName s <> [] -> SampleRef.SampleName s ∈ SampleNames st.

(** No two samples of the registry share a name, the empty name apart. *)
Definition names_distinct (st : Main) : Prop :=
  forall k1 k2 s1 s2,
    Samples st !! k1 = Some s1 -> Samples st !! k2 = Some s2 -> k1 <> k2 ->
    SampleRef.SampleName s1 <> [] ->
    SampleRef.SampleName s1 <> SampleRef.SampleName s2.

(** What a run leaves of a [Limits]: the maxima and the ignore flag as they
    were, and every sticky flag that was set still set. *)
Record limits_kept (l l' : Limits) : Prop := {
  kept_bIgnoreLimits : bIgnoreLimits l' = bIgnoreLimits l;
  kept_dwlMaxBytesTotal : dwlMaxBytesTotal l' = dwlMaxBytesTotal l;
  kept_dwlMaxBytesPerSample : dwlMaxBytesPerSample l' = dwlMaxBytesPerSample l;
  kept_dwMaxSampleCount : dwMaxSampleCount l' = dwMaxSampleCount l;
  sticky_bMaxBytesTotalReached :
    bMaxBytesTotalReached l = true -> bMaxBytesTotalReached l' = true;
  sticky_bMaxBytesPerSampleReached :
    bMaxBytesPerSampleReached l = true -> bMaxBytesPerSampleReached l' = true;
  sticky_bMaxSampleCountReached :
    bMaxSampleCountReached l = true -> bMaxSampleCountReached l' = true
}.

Record spec_kept (a b : SampleSpec.t) : Prop := {
  kept_Name : SampleSpec.Name b = SampleSpec.Name a;
  kept_Terms : SampleSpec.Terms b = SampleSpec.Terms a;
  kept_Content : SampleSpec.Content b = SampleSpec.Content a;
  kept_PerSampleLimits : limits_kept (SampleSpec.PerSampleLimits a) (SampleSpec.PerSampleLimits b)
}.

Record settings_kept (st st' : Main) : Prop := {
  kept_GlobalLimits : limits_kept (GlobalLimits st) (GlobalLimits st');
  kept_listofSpecs : Forall2 spec_kept (listofSpecs (config st)) (listofSpecs (config st'));
  kept_content : content (config st') = content (config st);
  kept_CryptoHashAlgs : CryptoHashAlgs (config st') = CryptoHashAlgs (config st);
  kept_FuzzyHashAlgs : FuzzyHashAlgs (config st') = FuzzyHashAlgs (config st);
  kept_bReportAll : bReportAll (config st') = bReportAll (config st);
  kept_bFlushRegistry : bFlushRegistry (config st') = bFlushRegistry (config st);
  kept_Output : Output (config st') = Output (config st);
  kept_CollectionDate : CollectionDate st' = CollectionDate st
}.

(** The registry key of an attribute of a match. *)
Definition attribute_key (aMatch : Match.t) (anAttr : Attribute.t) : SampleKey :=
  (Match.VolumeSerialNumber aMatch, QuadPart (Match.FRN aMatch), Attribute.InstanceID anAttr).

(** The accumulators of a [Limits], and those of a state: the global ones
    and those of each sample specification. *)
Definition accumulated (l : Limits) : Z * Z :=
  (dwAccumulatedSampleCount l, dwlAccumulatedBytesTotal l).

Definition accumulators (st : Main) : (Z * Z) * list (Z * Z) :=
  (accumulated (GlobalLimits st),
   map (fun aSpec => accumulated (SampleSpec.PerSampleLimits aSpec)) (listofSpecs (config st))).

(** The first call of the directory sink for a sample: the directory of its
    file is created. *)
Definition directory_attempt `{Collaborators} (outputDir : wstring) (s : SampleRef.t) : Event :=
  create_directories (parent_path (path_append outputDir (SampleRef.SampleName s))).

(** ** Output set-up and tear-down

    The calls [Main::Run] makes around the collection: to the registry, the
    archive encoder, the log and the table writer.  Each is made at most once
    in a run, so what the platform answers is a record; the calls made are
    listed in order. *)

Inductive OutputCall :=
| RegFlushKey_call (hKey : Z)
| GetWorkingDirectoryApi_call
| LogStream_Open_call (out : wstring)
| LogToStream_call
| MakeCreate_call
| InitArchive_call (path : wstring)
| SetPassword_call (password : wstring)
| SetCompressionLevel_call
| SetCallback_call
| CsvStream_Open_call (out : wstring)
| WriteToStream_call
| SetSchema_call
| create_output_directories (path : wstring)
| Writer_Flush_call
| TableStream_SetFilePointer_call
| AddStream_table_call
| CloseLogToStream_call
| LogStream_SetFilePointer_call
| AddStream_log_call
| Complete_call
| TableStream_Close_call
| Writer_Close_call.

Record OutputAnswers := mkOutputAnswers {
  RegFlushKey : Z -> Z;
  GetWorkingDirectoryApi : wstring;
  LogStream_Open_hr : HRESULT;
  LogToStream_hr : HRESULT;
  MakeCreate_null : bool;
  InitArchive_hr : HRESULT;
  SetPassword_hr : HRESULT;
  SetCompressionLevel_hr : HRESULT;
  CsvStream_Open_hr : HRESULT;
  WriteToStream_hr : HRESULT;
  SetSchema_hr : HRESULT;
  create_output_directories_ec : Z;
  Writer_Flush_hr : HRESULT;
  (* m_tableWriter->GetStream(): null or not, and its size *)
  GetStream_null : bool;
  TableStream_GetSize : Z;
  TableStream_SetFilePointer_hr : HRESULT;
  AddStream_table_hr : HRESULT;
  (* _L_->GetByteStream() *)
  GetByteStream_null : bool;
  LogStream_GetSize : Z;
  LogStream_SetFilePointer_hr : HRESULT;
  AddStream_log_hr : HRESULT;
  Complete_hr : HRESULT;
  TableStream_Close_hr : HRESULT;
  Writer_Close_hr : HRESULT
}.

Definition HKEY_LOCAL_MACHINE : Z := 0x80000002.
Definition HKEY_USERS : Z := 0x80000003.
Definition ERROR_SUCCESS : Z := 0.

(** [(HRESULT)(x)] for a DWORD [x]. *)
Definition HRESULT_of_DWORD (x : Z) : HRESULT := if x <? 2 ^ 31 then x else x - 2 ^ 32.

(** [Main::RegFlushKeys]. *)
Definition RegFlushKeys (a : OutputAnswers) : HRESULT * list OutputCall :=
  let bSuccess := true in
  let dwGLE := RegFlushKey a HKEY_LOCAL_MACHINE in
  let bSuccess := if negb (dwGLE =? ERROR_SUCCESS) then false else bSuccess in
  let dwGLE := RegFlushKey a HKEY_USERS in
  let bSuccess := if negb (dwGLE =? ERROR_SUCCESS) then false else bSuccess in
  (if negb bSuccess then HRESULT_FROM_WIN32 (HRESULT_of_DWORD dwGLE) else S_OK,
   [RegFlushKey_call HKEY_LOCAL_MACHINE; RegFlushKey_call HKEY_USERS]).

(** The file-local [CreateCompressor]: whether a compressor comes back, the
    value left in the [hr] out-parameter, and the calls made.  [Password] is
    [outputSpec.Password]. *)
Definition CreateCompressor (a : OutputAnswers) (Path Password : wstring)
  : bool * HRESULT * list OutputCall :=
  if MakeCreate_null a then (false, E_POINTER, [MakeCreate_call])
  else
    let hr := InitArchive_hr a in
    let calls := [MakeCreate_call; InitArchive_call Path] in
    if FAILED hr then (false, hr, calls)
    else
      let '(failed, hr, calls) :=
        if decide (Password <> []) then
          (FAILED (SetPassword_hr a), SetPassword_hr a, calls ++ [SetPassword_call Password])
        else (false, hr, calls) in
      if failed then (false, hr, calls)
      else
        let hr := SetCompressionLevel_hr a in
        let calls := calls ++ [SetCompressionLevel_call] in
        if FAILED hr then (false, hr, calls)
        else (true, hr, calls ++ [SetCallback_call]).

(** The file-local [CreateLogStream]; the stream is opened as the file
    [out.filename()] of [out.parent_path()]. *)
Definition CreateLogStream (a : OutputAnswers) (out : wstring)
  : bool * HRESULT * list OutputCall :=
  let hr := LogStream_Open_hr a in
  if FAILED hr then (false, hr, [LogStream_Open_call out])
  else
    let hr := LogToStream_hr a in
    if FAILED hr then (false, hr, [LogStream_Open_call out; LogToStream_call])
    else (true, hr, [LogStream_Open_call out; LogToStream_call]).

(** The file-local [CreateCsvWriter]. *)
Definition CreateCsvWriter (a : OutputAnswers) (out : wstring)
  : bool * HRESULT * list OutputCall :=
  let hr := CsvStream_Open_hr a in
  if FAILED hr then (false, hr, [CsvStream_Open_call out])
  else
    let hr := WriteToStream_hr a in
    if FAILED hr then (false, hr, [CsvStream_Open_call out; WriteToStream_call])
    else
      let hr := SetSchema_hr a in
      if FAILED hr
      then (false, hr, [CsvStream_Open_call out; WriteToStream_call; SetSchema_call])
      else (true, hr, [CsvStream_Open_call out; WriteToStream_call; SetSchema_call]).

(** The members [Main] keeps of the output: whether [m_compressor] and
    [m_tableWriter] are set. *)
Record Outputs := mkOutputs {
  compressor_set : bool;
  tableWriter_set : bool
}.

Definition set_CollectionDate (now : Z) (st : Main) : Main :=
  mkMain (config st) (GlobalLimits st) (Samples st) (SampleNames st) now
         (m_compressor st) (trace st).

(** The stages of [Main::Run] that its two [try] blocks enclose. *)
Inductive Stage :=
| RegFlushKeys_stage
| InitOutput_stage
| FindMatchingSamples_stage
| CollectSamples_stage
| CloseOutput_stage.

(** How [Main::Run] ends: by one of its [return] statements, with the status,
    the state and the calls made around the collection; or in one of its two
    [catch (...)] handlers, with the status the handler returns.  What the
    stage had done when the exception left it is not told. *)
Inductive RunResult :=
| Returned_from_Run (hr : HRESULT) (st : Main) (calls : list OutputCall)
| Caught (hr : HRESULT).

Section Output.
Context `{Runtime} `{Collaborators}.
Variable a : OutputAnswers.
(* config.Output.Password *)
Variable Password : wstring.
(* whether an exception escapes a stage of Main::Run *)
Variable throws : Stage -> bool.

(** [Main::InitArchiveOutput]. *)
Definition InitArchiveOutput (st : Main) : HRESULT * Outputs * list OutputCall :=
  let archivePath := Output_Path (Output (config st)) in
  let tempDir := parent_path archivePath in
  let '(tempDir, calls) :=
    if decide (tempDir = []) then (GetWorkingDirectoryApi a, [GetWorkingDirectoryApi_call])
    else (tempDir, []) in
  let '(logStream, hr, made) :=
    CreateLogStream a (path_append tempDir (L "GetThisLogStream")) in
  let calls := calls ++ made in
  if FAILED hr then (hr, mkOutputs false false, calls)
  else
    let '(compressor, hr, made) := CreateCompressor a archivePath Password in
    let calls := calls ++ made in
    if negb compressor then (hr, mkOutputs false false, calls)
    else
      let '(tableWriter, hr, made) :=
        CreateCsvWriter a (path_append tempDir (L "GetThisCsvStream")) in
      let calls := calls ++ made in
      if negb tableWriter then (hr, mkOutputs true false, calls)
      else (S_OK, mkOutputs true true, calls).

(** [Main::InitDirectoryOutput]. *)
Definition InitDirectoryOutput (st : Main) : HRESULT * Outputs * list OutputCall :=
  let outputDir := Output_Path (Output (config st)) in
  let ec := create_output_directories_ec a in
  let calls := [create_output_directories outputDir] in
  if negb (ec =? 0) then (HRESULT_FROM_WIN32 ec, mkOutputs false false, calls)
  else
    let '(tableWriter, hr, made) :=
      CreateCsvWriter a (path_append outputDir (L "GetThis.csv")) in
    let calls := calls ++ made in
    if negb tableWriter then (hr, mkOutputs false false, calls)
    else (S_OK, mkOutputs false true, calls).

(** [Main::InitOutput]. *)
Definition InitOutput (st : Main) : HRESULT * Outputs * list OutputCall :=
  match Output_Type (Output (config st)) with
  | Archive => InitArchiveOutput st
  | Directory => InitDirectoryOutput st
  | OtherOutput => (E_NOTIMPL, mkOutputs false false, [])
  end.

(** [Main::CloseArchiveOutput]; it goes through [m_compressor] and
    [m_tableWriter] without a test, and through the table stream at the
    end. *)
Definition CloseArchiveOutput (o : Outputs) (st : Main)
  : option (HRESULT * Main * list OutputCall) :=
  if negb (compressor_set o) then None
  else
    st ← ArchiveCreate.FlushQueue st;
    if negb (tableWriter_set o) then None
    else
      let calls := [Writer_Flush_call] in
      let calls :=
        if negb (GetStream_null a) && negb (TableStream_GetSize a =? 0)
        then calls ++ [TableStream_SetFilePointer_call; AddStream_table_call]
        else calls in
      let calls := calls ++ [CloseLogToStream_call] in
      let calls :=
        if negb (GetByteStream_null a) && (LogStream_GetSize a >? 0)
        then calls ++ [LogStream_SetFilePointer_call; AddStream_log_call]
        else calls in
      let hr := Complete_hr a in
      let calls := calls ++ [Complete_call] in
      if FAILED hr then Some (hr, st, calls)
      else if GetStream_null a then None
      else
        let hr := TableStream_Close_hr a in
        let calls := calls ++ [TableStream_Close_call] in
        if FAILED hr then Some (hr, st, calls) else Some (S_OK, st, calls).

(** [Main::CloseDirectoryOutput]. *)
Definition CloseDirectoryOutput (o : Outputs) : option (HRESULT * list OutputCall) :=
  if negb (tableWriter_set o) then None
  else
    let hr := Writer_Flush_hr a in
    if FAILED hr then Some (hr, [Writer_Flush_call])
    else
      let hr := Writer_Close_hr a in
      if FAILED hr then Some (hr, [Writer_Flush_call; Writer_Close_call])
      else Some (S_OK, [Writer_Flush_call; Writer_Close_call]).

(** [Main::CloseOutput]. *)
Definition CloseOutput (o : Outputs) (st : Main)
  : option (HRESULT * Main * list OutputCall) :=
  match Output_Type (Output (config st)) with
  | Archive => CloseArchiveOutput o st
  | Directory => '(hr, calls) ← CloseDirectoryOutput o; Some (hr, st, calls)
  | OtherOutput => Some (E_FAIL, st, [])
  end.

(** [Main::Run]: the finder hands [found] to the callback, [now] is the
    system time, and [throws] tells of each stage whether an exception
    escapes it once it is entered.  The first [try] block holds the registry
    flush, entered only if the flush is asked for; the second one the four
    other stages. *)
Definition Main_Run (found : list Match.t) (now : Z) (st : Main) : option RunResult :=
  let st := set_CollectionDate now st in
  if bFlushRegistry (config st) && throws RegFlushKeys_stage then Some (Caught E_FAIL)
  else
    let flushed := if bFlushRegistry (config st) then (RegFlushKeys a).2 else [] in
    if throws InitOutput_stage then Some (Caught E_ABORT)
    else
      let '(hr, o, made) := InitOutput st in
      let calls := flushed ++ made in
      if FAILED hr then Some (Returned_from_Run hr st calls)
      else
        (* m_compressor is the compressor just created *)
        let st := if compressor_set o then set_compressor [] st else st in
        if throws FindMatchingSamples_stage then Some (Caught E_ABORT)
        else
          st ← FindMatchingSamples found st;
          if throws CollectSamples_stage then Some (Caught E_ABORT)
          else
            '(hr, st) ← CollectSamples st;
            if FAILED hr then Some (Returned_from_Run hr st calls)
            else if throws CloseOutput_stage then Some (Caught E_ABORT)
            else
              '(hr, st, made) ← CloseOutput o st;
              Some (Returned_from_Run S_OK st (calls ++ made)).

End Output.

(** ** A small run

    One volume, one file with an unnamed data attribute and a named one, a
    collaborator set that accepts everything and reports 11 bytes for every
    stream. *)
Module Example.

(** Whitespace of the "C" locale. *)
#[export] Instance crt : Runtime :=
  {| iswspace c := (c =? 32) || ((9 <=? c) && (c <=? 13)) |}.

#[export] Instance env : Collaborators :=
  {| ComputerName := L "HOST";
     GetSize _ _ := 11;
     OpenForStrings_hr _ _ _ _ := S_OK;
     CryptoOpenToRead_hr _ _ _ := S_OK;
     FuzzyOpenToRead_hr _ _ _ := S_OK;
     GetMD5 _ _ := [1];
     GetSHA1 _ _ := [2];
     GetSHA256 _ _ := [3];
     GetSSDeep _ _ := [4];
     GetTLSH _ _ := [5];
     GetMatchFullName _ _ _ := L "\dir\a.txt";
     AddStream_hr _ _ _ := S_OK;
     AddStream_flushes _ := false;
     create_directories_ec _ _ := 0;
     WriteTo_hr _ _ := S_OK;
     CopyTo_hr _ _ _ := S_OK;
     CloseOutput_hr _ _ := S_OK;
     parent_path p := p;
     path_append a b := a ++ L "\" ++ b |}.

Definition no_times : FILE_NAME_INFO := mkFileNameInfo 0 0 0 0.

Definition a_txt : FILE_NAME :=
  mkFileName (mkSegmentReference 0x2A 0 5) no_times 5 (L "a.txt").

(** A file name of 255 characters, the longest NTFS allows. *)
Definition long_name : FILE_NAME :=
  mkFileName (mkSegmentReference 0x2A 0 5) no_times 255 (replicate 255 65).

(** A name whose three counted characters hold a NUL. *)
Definition nul_name : FILE_NAME :=
  mkFileName (mkSegmentReference 0x2A 0 5) no_times 3 [97; 0; 98].

Definition name0 : Name.t := Name.mk (Some a_txt) (L "\dir\a.txt").
Definition data0 : Attribute.t :=
  Attribute.mk 128 [] 0 (AttributeStream 1) (AttributeStream 2) None.
Definition ads1 : Attribute.t :=
  Attribute.mk 128 (L "ads") 1 (AttributeStream 3) (AttributeStream 4) None.
Definition term0 : TermSpec := mkTerm 1 (L "a.txt").
Definition frn0 : MFT_SEGMENT_REFERENCE := mkSegmentReference 77 0 1.

(** The file matched on its unnamed stream, and matched again on both. *)
Definition first_match : Match.t := Match.mk frn0 1234 None no_times [name0] [data0] term0.
Definition second_match : Match.t :=
  Match.mk frn0 1234 None no_times [name0] [data0; ads1] term0.

Definition unlimited_limits : Limits :=
  mkLimits false INFINITE 0 false INFINITE false INFINITE 0 false.
(** At most 10 bytes per sample. *)
Definition ten_bytes : Limits :=
  mkLimits false INFINITE 0 false 10 false INFINITE 0 false.
Definition ten_bytes_ignored : Limits :=
  mkLimits true INFINITE 0 false 10 false INFINITE 0 false.
(** At most 100 bytes in all, with five bytes short of 2^64 accumulated. *)
Definition nearly_wrapped : Limits :=
  mkLimits false 100 (2 ^ 64 - 5) false INFINITE false INFINITE 0 false.

Definition data_spec : SampleSpec.t :=
  SampleSpec.mk [] [term0] (mkContentSpec DATA 0 0) unlimited_limits.

Definition configuration (kind : OutputKind) (crypto fuzzy : Z) : Configuration :=
  mkConfiguration (mkContentSpec STRINGS 4 16) crypto fuzzy false false [data_spec]
                  (mkOutputSpec kind (L "out")).

Definition start (kind : OutputKind) (crypto fuzzy : Z) (glob : Limits) : Main :=
  mkMain (configuration kind crypto fuzzy) glob ∅ ∅ 0 [] [].

Definition key0 : SampleKey := (1234, QuadPart frn0, 0).

(** The file is 11 bytes, the limit 10: archive and directory runs. *)
Definition over_limit_archive : Main :=
  Eval vm_compute in
    default (start Archive 7 0 ten_bytes) (Run [first_match] (start Archive 7 0 ten_bytes)).
Definition over_limit_directory : Main :=
  Eval vm_compute in
    default (start Directory 7 0 ten_bytes)
            (Run [first_match] (start Directory 7 0 ten_bytes)).
Definition over_limit_sample : SampleRef.t :=
  Eval vm_compute in default SampleRef.default (Samples over_limit_archive !! key0).

(** The same with the limits ignored. *)
Definition ignored_found : Main :=
  Eval vm_compute in
    default (start Archive 7 0 ten_bytes_ignored)
            (FindMatchingSamples [first_match; second_match]
                                 (start Archive 7 0 ten_bytes_ignored)).

(** The registry after the first match, and after the second. *)
Definition after_first : Main :=
  Eval vm_compute in
    default (start Archive 7 0 unlimited_limits)
            (snd <$> AddSamplesForMatch SampleWithinLimits data_spec first_match
                                        (start Archive 7 0 unlimited_limits)).
Definition after_second : Main :=
  Eval vm_compute in
    default after_first
            (snd <$> AddSamplesForMatch SampleWithinLimits data_spec second_match after_first).

(** No crypto algorithm, both fuzzy algorithms: found, then all of the run. *)
Definition fuzzy_only_found : Main :=
  Eval vm_compute in
    default (start Archive Undefined 3 unlimited_limits)
            (FindMatchingSamples [first_match] (start Archive Undefined 3 unlimited_limits)).
Definition fuzzy_only_sample : SampleRef.t :=
  Eval vm_compute in default SampleRef.default (Samples fuzzy_only_found !! key0).
Definition fuzzy_only_written : Main :=
  Eval vm_compute in
    default fuzzy_only_found
            (snd <$> WriteSample_archive key0 fuzzy_only_found).
Definition fuzzy_only_flushed : Main :=
  Eval vm_compute in
    default fuzzy_only_written (ArchiveCreate.FlushQueue fuzzy_only_written).

(** Both matches found, all five hashes configured. *)
Definition both_found : Main :=
  Eval vm_compute in
    default (start Archive 7 3 unlimited_limits)
            (FindMatchingSamples [first_match; second_match]
                                 (start Archive 7 3 unlimited_limits)).

(** A sample asking for strings with no bounds of its own. *)
Definition strings_sample : SampleRef.t :=
  SampleRef.set_SampleName (L "sample")
    (SampleRef.set_Content (mkContentSpec STRINGS 0 0) 0
       (draft_sample SampleWithinLimits first_match data0 0)).

(** Collaborators that refuse to open the crypto-hash stream. *)
Definition refusing : Collaborators :=
  {| ComputerName := L "HOST";
     GetSize _ _ := 11;
     OpenForStrings_hr _ _ _ _ := S_OK;
     CryptoOpenToRead_hr _ _ _ := E_FAIL;
     FuzzyOpenToRead_hr _ _ _ := S_OK;
     GetMD5 _ _ := [1];
     GetSHA1 _ _ := [2];
     GetSHA256 _ _ := [3];
     GetSSDeep _ _ := [4];
     GetTLSH _ _ := [5];
     GetMatchFullName _ _ _ := L "\dir\a.txt";
     AddStream_hr _ _ _ := S_OK;
     AddStream_flushes _ := false;
     create_directories_ec _ _ := 0;
     WriteTo_hr _ _ := S_OK;
     CopyTo_hr _ _ _ := S_OK;
     CloseOutput_hr _ _ := S_OK;
     parent_path p := p;
     path_append a b := a ++ L "\" ++ b |}.

(** Collaborators whose encoder refuses every stream. *)
Definition unaccepting : Collaborators :=
  {| ComputerName := L "HOST";
     GetSize _ _ := 11;
     OpenForStrings_hr _ _ _ _ := S_OK;
     CryptoOpenToRead_hr _ _ _ := S_OK;
     FuzzyOpenToRead_hr _ _ _ := S_OK;
     GetMD5 _ _ := [1];
     GetSHA1 _ _ := [2];
     GetSHA256 _ _ := [3];
     GetSSDeep _ _ := [4];
     GetTLSH _ _ := [5];
     GetMatchFullName _ _ _ := L "\dir\a.txt";
     AddStream_hr _ _ _ := E_FAIL;
     AddStream_flushes _ := false;
     create_directories_ec _ _ := 0;
     WriteTo_hr _ _ := S_OK;
     CopyTo_hr _ _ _ := S_OK;
     CloseOutput_hr _ _ := S_OK;
     parent_path p := p;
     path_append a b := a ++ L "\" ++ b |}.

(** The first match found, written and flushed with that encoder. *)
Definition unaccepted : Main :=
  Eval vm_compute in
    default (start Archive 0 0 unlimited_limits)
            (@Run crt unaccepting [first_match] (start Archive 0 0 unlimited_limits)).

(** Collaborators for a file whose unnamed stream has 5 bytes and whose
    named stream has 11. *)
Definition sized : Collaborators :=
  {| ComputerName := L "HOST";
     GetSize _ stream := match stream with AttributeStream 1 => 5 | _ => 11 end;
     OpenForStrings_hr _ _ _ _ := S_OK;
     CryptoOpenToRead_hr _ _ _ := S_OK;
     FuzzyOpenToRead_hr _ _ _ := S_OK;
     GetMD5 _ _ := [1];
     GetSHA1 _ _ := [2];
     GetSHA256 _ _ := [3];
     GetSSDeep _ _ := [4];
     GetTLSH _ _ := [5];
     GetMatchFullName _ _ _ := L "\dir\a.txt";
     AddStream_hr _ _ _ := S_OK;
     AddStream_flushes _ := false;
     create_directories_ec _ _ := 0;
     WriteTo_hr _ _ := S_OK;
     CopyTo_hr _ _ _ := S_OK;
     CloseOutput_hr _ _ := S_OK;
     parent_path p := p;
     path_append a b := a ++ L "\" ++ b |}.

(** That file matched on both streams against the 10-byte limit. *)
Definition uneven_found : Main :=
  Eval vm_compute in
    default (start Archive 0 0 ten_bytes)
            (@onMatchCb crt sized second_match (start Archive 0 0 ten_bytes)).

(** A platform that answers every call with success, but the flush of
    HKEY_LOCAL_MACHINE, which is denied (ERROR_ACCESS_DENIED). *)
Definition answers : OutputAnswers :=
  {| RegFlushKey hKey := if hKey =? HKEY_LOCAL_MACHINE then 5 else ERROR_SUCCESS;
     GetWorkingDirectoryApi := L "C:\work";
     LogStream_Open_hr := S_OK;
     LogToStream_hr := S_OK;
     MakeCreate_null := false;
     InitArchive_hr := S_OK;
     SetPassword_hr := S_OK;
     SetCompressionLevel_hr := S_OK;
     CsvStream_Open_hr := S_OK;
     WriteToStream_hr := S_OK;
     SetSchema_hr := S_OK;
     create_output_directories_ec := 0;
     Writer_Flush_hr := E_FAIL;
     GetStream_null := false;
     TableStream_GetSize := 120;
     TableStream_SetFilePointer_hr := S_OK;
     AddStream_table_hr := E_FAIL;
     GetByteStream_null := false;
     LogStream_GetSize := 0;
     LogStream_SetFilePointer_hr := S_OK;
     AddStream_log_hr := S_OK;
     Complete_hr := S_OK;
     TableStream_Close_hr := S_OK;
     Writer_Close_hr := S_OK |}.

(** The 11-byte file matched on both streams against the 10-byte limit. *)
Definition both_over_limit : Main :=
  Eval vm_compute in
    default (start Archive 7 0 ten_bytes) (onMatchCb second_match (start Archive 7 0 ten_bytes)).

(** The same match with no limit. *)
Definition both_counted : Main :=
  Eval vm_compute in
    default (start Archive 7 0 unlimited_limits)
            (onMatchCb second_match (start Archive 7 0 unlimited_limits)).

(** The first match under the refusing collaborators. *)
Definition refused : Main :=
  Eval vm_compute in
    default (start Archive 7 0 unlimited_limits)
            (snd <$> @add_sample_for_attribute crt refusing SampleWithinLimits data_spec
                       first_match 0 data0 (start Archive 7 0 unlimited_limits)).

(** Both samples written to the directory [out]. *)
Definition both_copied : Main :=
  Eval vm_compute in
    default both_found (snd <$> WriteSamples_directory (L "out") both_found).

Definition first_sample : SampleRef.t :=
  Eval vm_compute in default SampleRef.default (Samples both_found !! key0).

Definition first_copied : Main :=
  Eval vm_compute in
    default both_found (snd <$> WriteSample_directory (L "out") key0 both_found).

End Example.

(** * Properties *)

Lemma add64_exact a b : 0 <= a + b < 2 ^ 64 -> add64 a b = a + b.
Proof. intros H. unfold add64. now apply Z.mod_small. Qed.


(** ** Naming *)

Lemma fixed_hex_zero n : NameContract.fixed_hex n 0 = replicate n 48.
Proof.
  induction n as [|n IH]; [reflexivity|].
  cbn [NameContract.fixed_hex]. rewrite Zdiv_0_l, Zmod_0_l, IH.
  now rewrite replicate_S_end.
Qed.

Lemma length_fixed_hex n v : length (NameContract.fixed_hex n v) = n.
Proof.
  revert v; induction n as [|n IH]; intros v; [reflexivity|].
  cbn [NameContract.fixed_hex]. rewrite length_app, IH. simpl. lia.
Qed.

Lemma digits_fuel base glyph n m v :
  1 < base -> 0 <= v < base ^ Z.of_nat n -> (n <= m)%nat ->
  Printf.digits base glyph m v = Printf.digits base glyph n v.
Proof.
  intros Hb. revert m v; induction n as [|n IH]; intros m v Hv Hm.
  - assert (v = 0) by (simpl in Hv; lia). subst v.
    destruct m; reflexivity.
  - destruct m as [|m]; [lia|]. cbn [Printf.digits].
    destruct (v =? 0) eqn:E; [reflexivity|].
    rewrite (IH m (v / base)); [reflexivity| |lia].
    rewrite Nat2Z.inj_succ, Z.pow_succ_r in Hv by lia.
    split; [apply Z.div_pos; lia|].
    apply Z.div_lt_upper_bound; lia.
Qed.

Lemma pad_digits_fixed_hex n v :
  0 <= v < 16 ^ Z.of_nat n ->
  Printf.pad_left n 48 (Printf.digits 16 Printf.hex_glyph n v)
  = NameContract.fixed_hex n v.
Proof.
  unfold Printf.pad_left.
  revert v; induction n as [|n IH]; intros v Hv.
  - reflexivity.
  - cbn [Printf.digits NameContract.fixed_hex].
    destruct (v =? 0) eqn:E.
    + apply Z.eqb_eq in E. subst v. simpl length. rewrite Nat.sub_0_r, app_nil_r.
      rewrite Zdiv_0_l, Zmod_0_l, fixed_hex_zero. now rewrite replicate_S_end.
    + rewrite <- IH.
      * rewrite length_app. simpl length.
        replace (S n - (length (Printf.digits 16 Printf.hex_glyph n (v / 16)) + 1))%nat
          with (n - length (Printf.digits 16 Printf.hex_glyph n (v / 16)))%nat by lia.
        now rewrite app_assoc.
      * rewrite Nat2Z.inj_succ, Z.pow_succ_r in Hv by lia.
        split; [apply Z.div_pos; lia|].
        apply Z.div_lt_upper_bound; lia.
Qed.

Lemma convert_UpperHex_fixed (w : nat) v :
  (w <= 8)%nat -> 0 <= v < 16 ^ Z.of_nat w ->
  Printf.convert (Printf.UpperHex w w v) = NameContract.fixed_hex w v.
Proof.
  intros Hw Hv. cbn [Printf.convert].
  assert (H32 : 16 ^ Z.of_nat w <= 2 ^ 32).
  { change (2 ^ 32) with (16 ^ 8). apply Z.pow_le_mono_r; lia. }
  rewrite Z.mod_small by lia.
  rewrite (digits_fuel 16 _ w 8 v) by lia.
  rewrite pad_digits_fixed_hex by exact Hv.
  unfold Printf.pad_left. rewrite length_fixed_hex, Nat.sub_diag. reflexivity.
Qed.

Lemma until_nul_no_nul s : Forall (fun c => c <> 0) s -> Printf.until_nul s = s.
Proof.
  induction 1 as [|c s Hc _ IH]; [reflexivity|].
  cbn [Printf.until_nul]. apply Z.eqb_neq in Hc. now rewrite Hc, IH.
Qed.

Lemma replace_item_forbidden `{Runtime} s :
  map replace_item s = NameContract.replace_forbidden s.
Proof.
  unfold NameContract.replace_forbidden. apply map_ext. intros c.
  unfold replace_item, NameContract.forbidden.
  destruct (decide _) as [Hf|Hf].
  - destruct Hf as [->|[->| ->]]; [reflexivity| |]; now rewrite orb_true_r.
  - destruct (iswspace c) eqn:Ew; [tauto|].
    destruct (c =? 58) eqn:E1; [apply Z.eqb_eq in E1; tauto|].
    destruct (c =? 35) eqn:E2; [apply Z.eqb_eq in E2; tauto|]. reflexivity.
Qed.

Lemma render_ParentDirectory fn :
  0 <= SequenceNumber (ParentDirectory fn) < 2 ^ 16 ->
  0 <= SegmentNumberHighPart (ParentDirectory fn) < 2 ^ 16 ->
  0 <= SegmentNumberLowPart (ParentDirectory fn) < 2 ^ 32 ->
  forall rest,
    Printf.render (ParentDirectory_conversions fn ++ rest)
    = NameContract.PPP (ParentDirectory fn) ++ Printf.render rest.
Proof.
  intros Hs Hh Hl rest. unfold Printf.render, ParentDirectory_conversions.
  cbn [app map concat].
  rewrite !convert_UpperHex_fixed;
    [|unfold sizeof_SegmentNumberLowPart; simpl; lia
     |exact Hl
     |unfold sizeof_SegmentNumberHighPart; simpl; lia
     |exact Hh
     |unfold sizeof_SequenceNumber; simpl; lia
     |exact Hs].
  unfold NameContract.PPP, NameContract.hex_field. now rewrite <- !app_assoc.
Qed.

Lemma render_name_format content fn DataName idx :
  NameContract.well_formed fn DataName idx ->
  Printf.render (name_format content fn DataName idx)
  = NameContract.template content fn DataName idx.
Proof.
  intros [Hs Hh Hl Hi Hn Hd].
  assert (Htag : Printf.until_nul (pContent content) = NameContract.TAG (Type_ content)).
  { unfold pContent. now destruct (Type_ content). }
  assert (Hname : Printf.until_nul (take (Z.to_nat (FileNameLength fn)) (FileName fn))
                  = NameContract.NAME fn).
  { now apply until_nul_no_nul. }
  assert (Hdata : Printf.until_nul (take (length DataName) DataName) = DataName).
  { rewrite firstn_all. now apply until_nul_no_nul. }
  assert (Hidx : negb (idx =? 0) = bool_decide (0 < idx)).
  { case_bool_decide; [apply negb_true_iff, Z.eqb_neq|apply negb_false_iff, Z.eqb_eq]; lia. }
  assert (Hdn : negb (length DataName =? 0)%nat = bool_decide (DataName <> [])).
  { case_bool_decide as Hne; destruct DataName; try reflexivity; congruence. }
  unfold name_format, NameContract.template. rewrite Hidx, Hdn.
  change (L "__") with (L "_" ++ L "_").
  case_bool_decide as Hpos; case_bool_decide as Hne;
    rewrite render_ParentDirectory by assumption;
    unfold Printf.render; cbn [map concat Printf.convert];
    rewrite ?Htag, ?Hname, ?Hdata, ?app_nil_r;
    rewrite ?(Z.mod_small idx) by lia;
    rewrite ?(proj2 (Z.eqb_neq idx 0)) by lia;
    unfold NameContract.IDX; now rewrite <- ?app_assoc.
Qed.

(** C6 (as amended). For every non-null, well-formed file-name record whose
    formatted name is shorter than [MAX_PATH] characters, the routine
    returns [S_OK] and the name is the template for (idx > 0, data-name
    non-empty) over the three fixed-width hex fields, the truncated file
    name, the data name, the decimal index and the content tag, with every
    whitespace, ':' and '#' replaced by '_'. *)
Theorem CreateSampleFileName_template `{Runtime}
    (content : ContentSpec) (fn : FILE_NAME) (DataName : wstring) (idx : Z)
    (SampleFileName : wstring) :
  NameContract.well_formed fn DataName idx ->
  (length (NameContract.template content fn DataName idx) < MAX_PATH)%nat ->
  CreateSampleFileName content (Some fn) DataName idx SampleFileName
  = Returned S_OK
      (NameContract.replace_forbidden (NameContract.template content fn DataName idx)).
Proof.
  intros Hwf Hfit. unfold CreateSampleFileName, Printf.swprintf_s.
  rewrite render_name_format by exact Hwf.
  apply Nat.ltb_lt in Hfit. rewrite Hfit.
  now rewrite replace_item_forbidden.
Qed.

(** C8. With a null file-name record the routine fails, whatever its other
    arguments: it returns [E_POINTER], a failure status of the kind the
    specification calls InvalidArgument, and leaves the output name as it
    was. *)
Theorem CreateSampleFileName_null `{Runtime}
    (content : ContentSpec) (DataName : wstring) (idx : Z) (SampleFileName : wstring) :
  CreateSampleFileName content None DataName idx SampleFileName
  = Returned E_POINTER SampleFileName
  /\ FAILED E_POINTER = true
  /\ ErrorContract.kind E_POINTER = Some ErrorContract.InvalidArgument.
Proof. repeat split. Qed.

(** The two other failures the specification files under InvalidArgument:
    the empty sample name and the unsupported output type. *)
Lemma ConfigureSampleStreams_empty_name `{Runtime} `{Collaborators} sampleRef st :
  SampleRef.SampleName sampleRef = [] ->
  ConfigureSampleStreams sampleRef st = Some (E_INVALIDARG, sampleRef, st)
  /\ ErrorContract.kind E_INVALIDARG = Some ErrorContract.InvalidArgument.
Proof.
  intros Hempty. split; [|reflexivity].
  unfold ConfigureSampleStreams. now destruct (decide _).
Qed.

Lemma CollectSamples_unsupported_output `{Runtime} `{Collaborators} st :
  Output_Type (Output (config st)) = OtherOutput ->
  CollectSamples st = Some (E_NOTIMPL, st)
  /\ ErrorContract.kind E_NOTIMPL = Some ErrorContract.InvalidArgument.
Proof. intros Hother. split; [|reflexivity]. unfold CollectSamples. now rewrite Hother. Qed.

(** ** Stream configuration *)

Lemma strings_calls_app a b : strings_calls (a ++ b) = strings_calls a ++ strings_calls b.
Proof. unfold strings_calls. apply omap_app. Qed.

Lemma select_stream_strings `{Collaborators} sampleRef attr st hr stream st' :
  Type_ (SampleRef.Content sampleRef) = STRINGS ->
  select_stream sampleRef attr st = (hr, stream, st') ->
  let '(lo, hi) := strings_bounds (SampleRef.Content sampleRef) (content (config st)) in
  stream = StringsStream (Attribute.DataStream attr) lo hi
  /\ trace st' = trace st ++ [OpenForStrings (Attribute.DataStream attr) lo hi]
  /\ config st' = config st.
Proof.
  intros Hs. unfold select_stream, strings_bounds. rewrite Hs.
  destruct (Z.eqb_spec (MaxChars (SampleRef.Content sampleRef)) 0) as [Hmax|Hmax];
    destruct (Z.eqb_spec (MinChars (SampleRef.Content sampleRef)) 0) as [Hmin|Hmin];
    cbn [andb];
    (destruct (decide _) as [Hz|Hz]; [|try tauto]; [try (exfalso; tauto)|..]);
    intros [= <- <- <-]; auto.
Qed.

Lemma chain_crypto_spec `{Collaborators} stream sampleRef st hr upstream sampleRef' st' :
  chain_crypto stream sampleRef st = (hr, upstream, sampleRef', st') ->
  base_stream upstream = base_stream stream
  /\ strings_calls (trace st') = strings_calls (trace st)
  /\ config st' = config st.
Proof.
  unfold chain_crypto. destruct (decide _); intros [= <- <- <- <-]; cbn [base_stream].
  - auto.
  - cbn [trace emit config]. rewrite strings_calls_app. cbn. now rewrite app_nil_r.
Qed.

Lemma chain_fuzzy_spec `{Collaborators} stream sampleRef st hr upstream sampleRef' st' :
  chain_fuzzy stream sampleRef st = (hr, upstream, sampleRef', st') ->
  base_stream upstream = base_stream stream
  /\ strings_calls (trace st') = strings_calls (trace st)
  /\ config st' = config st.
Proof.
  unfold chain_fuzzy. destruct (decide _); intros [= <- <- <- <-]; cbn [base_stream].
  - auto.
  - cbn [trace emit config]. rewrite strings_calls_app. cbn. now rewrite app_nil_r.
Qed.

(** C7. A sample with STRINGS content, a name and its attribute gets exactly
    one strings extractor opened, over the attribute's data stream, with the
    sample's own (min-chars, max-chars) unless both are zero, in which case
    with the configuration's; on success that extractor is the stream under
    the hash observers of the copy stream. *)
Theorem ConfigureSampleStreams_strings_bounds `{Runtime} `{Collaborators}
    (sampleRef : SampleRef.t) (attr : Attribute.t) (st : Main) :
  Type_ (SampleRef.Content sampleRef) = STRINGS ->
  SampleRef.SampleName sampleRef <> [] ->
  SampleRef.attribute sampleRef = Some attr ->
  exists hr sampleRef' st',
    ConfigureSampleStreams sampleRef st = Some (hr, sampleRef', st')
    /\ (let '(lo, hi) := strings_bounds (SampleRef.Content sampleRef) (content (config st)) in
        strings_calls (trace st')
        = strings_calls (trace st) ++ [(Attribute.DataStream attr, lo, hi)]
        /\ (hr = S_OK ->
            base_stream <$> SampleRef.CopyStream sampleRef'
            = Some (StringsStream (Attribute.DataStream attr) lo hi))).
Proof.
  intros Hstrings Hname Hattr.
  unfold ConfigureSampleStreams. rewrite Hattr. cbn [mbind option_bind].
  destruct (decide (SampleRef.SampleName sampleRef = [])) as [|_]; [contradiction|].
  destruct (select_stream sampleRef attr st) as [[hr1 stream] st1] eqn:E1.
  pose proof (select_stream_strings _ _ _ _ _ _ Hstrings E1) as Hsel.
  destruct (strings_bounds _ _) as [lo hi]. destruct Hsel as (-> & Ht1 & _).
  assert (Hcalls1 : strings_calls (trace st1)
                    = strings_calls (trace st) ++ [(Attribute.DataStream attr, lo, hi)]).
  { rewrite Ht1, strings_calls_app. reflexivity. }
  destruct (FAILED hr1) eqn:F1.
  { eexists _, _, _. split; [reflexivity|]. split; [exact Hcalls1|].
    intros ->. discriminate F1. }
  destruct (chain_crypto _ sampleRef st1) as [[[hr2 up2] s2] st2] eqn:E2.
  destruct (chain_crypto_spec _ _ _ _ _ _ _ E2) as (Hb2 & Ht2 & _).
  destruct (FAILED hr2) eqn:F2.
  { eexists _, _, _. split; [reflexivity|]. split; [now rewrite Ht2|].
    intros ->. discriminate F2. }
  destruct (chain_fuzzy up2 s2 st2) as [[[hr3 up3] s3] st3] eqn:E3.
  destruct (chain_fuzzy_spec _ _ _ _ _ _ _ E3) as (Hb3 & Ht3 & _).
  destruct (FAILED hr3) eqn:F3.
  { eexists _, _, _. split; [reflexivity|]. split; [now rewrite Ht3, Ht2|].
    intros ->. discriminate F3. }
  eexists _, _, _. split; [reflexivity|]. split; [now rewrite Ht3, Ht2|].
  intros _. cbn. now rewrite Hb3, Hb2.
Qed.

(** ** Ingestion *)

Lemma rows_app a b : rows (a ++ b) = rows a ++ rows b.
Proof. unfold rows. apply omap_app. Qed.

Lemma keeps_record_refl s : keeps_record s s.
Proof. now split. Qed.

Lemma keeps_record_trans a b c : keeps_record a b -> keeps_record b c -> keeps_record a c.
Proof. intros [] []. split; congruence. Qed.

Lemma log_nil st : log [] st = st.
Proof. destruct st. unfold log. cbn. now rewrite app_nil_r. Qed.

Lemma log_log a b st : log b (log a st) = log (a ++ b) st.
Proof. unfold log. cbn. now rewrite app_assoc. Qed.

Lemma quiet_refl st : quiet st st.
Proof. exists []. now rewrite log_nil. Qed.

Lemma quiet_trans a b c : quiet a b -> quiet b c -> quiet a c.
Proof.
  intros (e1 & -> & H1) (e2 & -> & H2). exists (e1 ++ e2).
  rewrite log_log, rows_app, H1, H2. auto.
Qed.

Lemma quiet_emit e st : rows [e] = [] -> quiet st (emit e st).
Proof. intros He. exists [e]. auto. Qed.

Lemma quiet_fields st st' :
  quiet st st' ->
  config st' = config st /\ GlobalLimits st' = GlobalLimits st
  /\ Samples st' = Samples st /\ SampleNames st' = SampleNames st
  /\ CollectionDate st' = CollectionDate st /\ m_compressor st' = m_compressor st
  /\ rows (trace st') = rows (trace st).
Proof.
  intros (ev & -> & Hev). cbn. rewrite rows_app, Hev, app_nil_r. repeat split.
Qed.

Lemma select_stream_quiet `{Collaborators} sampleRef attr st hr stream st' :
  select_stream sampleRef attr st = (hr, stream, st') -> quiet st st'.
Proof.
  unfold select_stream.
  destruct (Type_ _); [| |destruct (_ && _)|]; intros [= <- <- <-];
    first [apply quiet_refl | now apply quiet_emit].
Qed.

Lemma chain_crypto_frame `{Collaborators} stream sampleRef st hr upstream sampleRef' st' :
  chain_crypto stream sampleRef st = (hr, upstream, sampleRef', st') ->
  quiet st st' /\ keeps_record sampleRef sampleRef'
  /\ (CryptoHashAlgs (config st) = Undefined ->
      SampleRef.HashStream sampleRef' = SampleRef.HashStream sampleRef).
Proof.
  unfold chain_crypto. destruct (decide _) as [Hu|Hu]; intros [= <- <- <- <-].
  - split; [apply quiet_refl|]. split; [apply keeps_record_refl|]. auto.
  - split; [now apply quiet_emit|]. split; [now split|]. intros; contradiction.
Qed.

Lemma chain_fuzzy_frame `{Collaborators} stream sampleRef st hr upstream sampleRef' st' :
  chain_fuzzy stream sampleRef st = (hr, upstream, sampleRef', st') ->
  quiet st st' /\ keeps_record sampleRef sampleRef'
  /\ SampleRef.HashStream sampleRef' = SampleRef.HashStream sampleRef.
Proof.
  unfold chain_fuzzy. destruct (decide _) as [Hu|Hu]; intros [= <- <- <- <-].
  - split; [apply quiet_refl|]. split; [apply keeps_record_refl|]. auto.
  - split; [now apply quiet_emit|]. split; [now split|]. reflexivity.
Qed.

Lemma FAILED_not_S_FALSE hr : FAILED hr = true -> hr <> S_FALSE.
Proof. unfold FAILED, S_FALSE. intros Hf%Z.ltb_lt. lia. Qed.

(** Stream configuration touches only the stream members of the sample and
    adds no row; its status is never [S_FALSE]. *)
Lemma ConfigureSampleStreams_frame `{Runtime} `{Collaborators} sampleRef st hr sampleRef' st' :
  ConfigureSampleStreams sampleRef st = Some (hr, sampleRef', st') ->
  hr <> S_FALSE /\ quiet st st' /\ keeps_record sampleRef sampleRef'
  /\ (CryptoHashAlgs (config st) = Undefined ->
      SampleRef.HashStream sampleRef' = SampleRef.HashStream sampleRef).
Proof.
  unfold ConfigureSampleStreams.
  destruct (decide _) as [|_].
  { intros [= <- <- <-]. split; [discriminate|].
    split; [apply quiet_refl|]. split; [apply keeps_record_refl|]. auto. }
  destruct (SampleRef.attribute sampleRef) as [attr|]; [|discriminate].
  cbn [mbind option_bind].
  destruct (select_stream sampleRef attr st) as [[hr1 stream] st1] eqn:E1.
  pose proof (select_stream_quiet _ _ _ _ _ _ E1) as Q1.
  destruct (FAILED hr1) eqn:F1.
  { intros [= <- <- <-]. split; [now apply FAILED_not_S_FALSE|].
    split; [exact Q1|]. split; [apply keeps_record_refl|]. auto. }
  destruct (chain_crypto stream sampleRef st1) as [[[hr2 up2] s2] st2] eqn:E2.
  destruct (chain_crypto_frame _ _ _ _ _ _ _ E2) as (Q2 & K2 & H2).
  assert (Hc1 : config st1 = config st) by apply (quiet_fields _ _ Q1).
  rewrite Hc1 in H2.
  destruct (FAILED hr2) eqn:F2.
  { intros [= <- <- <-]. split; [now apply FAILED_not_S_FALSE|].
    split; [eapply quiet_trans; eassumption|]. auto. }
  destruct (chain_fuzzy up2 s2 st2) as [[[hr3 up3] s3] st3] eqn:E3.
  destruct (chain_fuzzy_frame _ _ _ _ _ _ _ E3) as (Q3 & K3 & H3).
  assert (Q : quiet st st3) by (eapply quiet_trans; [eapply quiet_trans|]; eassumption).
  assert (K : keeps_record sampleRef s3) by (eapply keeps_record_trans; eassumption).
  destruct (FAILED hr3) eqn:F3.
  { intros [= <- <- <-]. split; [now apply FAILED_not_S_FALSE|].
    split; [exact Q|]. split; [exact K|]. intros Hu. rewrite H3. auto. }
  intros [= <- <- <-]. split; [discriminate|]. split; [exact Q|].
  split.
  - eapply keeps_record_trans; [exact K|]. now split.
  - intros Hu. cbn. rewrite H3. auto.
Qed.

Lemma name_sample_keeps `{Runtime} aSpec anAttr date MatchingNames :
  forall sampleRef names sampleRef' names',
    name_sample aSpec anAttr date MatchingNames sampleRef names = Some (sampleRef', names') ->
    keeps_record sampleRef sampleRef'
    /\ SampleRef.HashStream sampleRef' = SampleRef.HashStream sampleRef.
Proof.
  induction MatchingNames as [|name rest IH]; intros s names s' names'; cbn [name_sample].
  - intros [= <- <-]. split; [apply keeps_record_refl|reflexivity].
  - destruct (name_search _ _ _ _ _ _ _ _) as [[hr cab]|]; [|discriminate].
    cbn [mbind option_bind]. intros Hrest.
    destruct (IH _ _ _ _ Hrest) as [K Hh]. split.
    + eapply keeps_record_trans; [|exact K]. now split.
    + rewrite Hh. reflexivity.
Qed.

Lemma ingested_refl allowed st : ingested allowed st st.
Proof. split; auto. Qed.

Lemma ingested_trans allowed a b c :
  ingested allowed a b -> ingested allowed b c -> ingested allowed a c.
Proof.
  intros [Ho1 Hn1 Hc1 Hf1 Hr1 Hp1 Hs1 Hi1 Hq1 Hw1] [Ho2 Hn2 Hc2 Hf2 Hr2 Hp2 Hs2 Hi2 Hq2 Hw2].
  split; try congruence.
  - etrans; eassumption.
  - intros k s Hk. destruct (Hn2 k s Hk) as [Hb|(Hb & Hkey & status & m & Hal & Hcr)].
    + apply Hn1. exact Hb.
    + right. split.
      * destruct (Samples a !! k) as [x|] eqn:Ea; [|reflexivity].
        eapply lookup_weaken in Ea; [|exact Ho1]. congruence.
      * split; [exact Hkey|]. exists status, m. split; [exact Hal|]. now rewrite <- Hc1.
Qed.

Lemma ingested_weaken (P Q : LimitStatus -> Prop) st st' :
  (forall status, P status -> Q status) -> ingested P st st' -> ingested Q st st'.
Proof.
  intros HPQ [Ho Hn Hc Hf Hr Hp Hs Hi Hq Hw]. split; auto.
  intros k s Hk. destruct (Hn k s Hk) as [|(Hb & Hkey & status & m & Hal & Hcr)]; [auto|].
  right. split; [exact Hb|]. split; [exact Hkey|]. exists status, m. auto.
Qed.

Lemma draft_sample_created status aMatch anAttr sIndex crypto :
  Match.MatchingAttributes aMatch !! sIndex = Some anAttr ->
  created_by status aMatch crypto (draft_sample status aMatch anAttr sIndex).
Proof. intros Hattr. split; try reflexivity. exists anAttr. auto. Qed.

Lemma created_by_keeps status aMatch crypto s s' :
  created_by status aMatch crypto s -> keeps_record s s' ->
  (crypto = Undefined -> SampleRef.HashStream s' = SampleRef.HashStream s) ->
  created_by status aMatch crypto s'.
Proof.
  intros [] [] Hh. split; try congruence.
  - intros Hu. rewrite Hh by exact Hu. auto.
  - destruct created_attribute0 as (a & Ha & Hi). exists a. split; congruence.
Qed.

(** One attribute: either its key is in the registry and nothing at all
    changes, or a sample created from the draft is inserted under that key. *)
Lemma add_sample_for_attribute_spec `{Runtime} `{Collaborators}
    status aSpec aMatch sIndex anAttr st hr st' :
  Match.MatchingAttributes aMatch !! sIndex = Some anAttr ->
  add_sample_for_attribute status aSpec aMatch sIndex anAttr st = Some (hr, st') ->
  let k := key_of (draft_sample status aMatch anAttr sIndex) in
  (is_Some (Samples st !! k) /\ hr = S_FALSE /\ st' = st)
  \/ (Samples st !! k = None /\ hr <> S_FALSE
      /\ exists s, key_of s = k
           /\ created_by status aMatch (CryptoHashAlgs (config st)) s
           /\ Samples st' = <[k := s]> (Samples st)
           /\ config st' = config st /\ GlobalLimits st' = GlobalLimits st
           /\ m_compressor st' = m_compressor st
           /\ rows (trace st') = rows (trace st)).
Proof.
  intros Hattr. unfold add_sample_for_attribute. cbv zeta.
  set (d := draft_sample status aMatch anAttr sIndex).
  destruct (Samples st !! key_of d) as [prev|] eqn:Hk.
  { destruct (head (Match.MatchingNames aMatch)); [|discriminate].
    intros [= <- <-]. left. eauto. }
  destruct (name_sample _ _ _ _ _ _) as [[s1 names]|] eqn:En; [|discriminate].
  cbn [mbind option_bind].
  destruct (ConfigureSampleStreams s1 _) as [[[hr2 s2] st2]|] eqn:Ec; [|discriminate].
  cbn [mbind option_bind]. intros [= <- <-].
  destruct (name_sample_keeps _ _ _ _ _ _ _ _ En) as [K1 H1].
  destruct (ConfigureSampleStreams_frame _ _ _ _ _ Ec) as (Hhr & Q & K2 & H2).
  destruct (quiet_fields _ _ Q) as (Hc & Hg & Hs & Hn & Hd & Hq & Hr).
  cbn in Hc, Hg, Hs, Hn, Hd, Hq, Hr, H2.
  assert (K : keeps_record d s2) by (eapply keeps_record_trans; eassumption).
  right. split; [reflexivity|]. split; [exact Hhr|].
  exists s2. rewrite (keeps_key _ _ K). split; [reflexivity|].
  split.
  - apply (created_by_keeps _ _ _ d); [apply draft_sample_created; exact Hattr|exact K|].
    intros Hu. rewrite H2, H1 by exact Hu. reflexivity.
  - cbn. rewrite Hs. auto.
Qed.

Lemma add_sample_for_attribute_ingested `{Runtime} `{Collaborators}
    status aSpec aMatch sIndex anAttr st hr st' :
  Match.MatchingAttributes aMatch !! sIndex = Some anAttr ->
  add_sample_for_attribute status aSpec aMatch sIndex anAttr st = Some (hr, st') ->
  ingested (eq status) st st'.
Proof.
  intros Hattr Hadd.
  destruct (add_sample_for_attribute_spec _ _ _ _ _ _ _ _ Hattr Hadd)
    as [(_ & _ & ->)|(Hnone & _ & s & Hkey & Hcr & Hs & Hc & Hg & Hq & Hr)].
  - apply ingested_refl.
  - split; try congruence.
    + rewrite Hs. now apply insert_subseteq.
    + intros k s' Hk. rewrite Hs in Hk.
      destruct (decide (key_of (draft_sample status aMatch anAttr sIndex) = k)) as [<-|Hne].
      * rewrite lookup_insert_eq in Hk. injection Hk as <-.
        right. split; [exact Hnone|]. split; [exact Hkey|]. eauto.
      * rewrite lookup_insert_ne in Hk by exact Hne. auto.
Qed.

Lemma add_samples_for_attributes_ingested `{Runtime} `{Collaborators}
    status aSpec aMatch attrs :
  forall sIndex hr0 st hr st',
    drop sIndex (Match.MatchingAttributes aMatch) = attrs ->
    add_samples_for_attributes status aSpec aMatch sIndex attrs hr0 st = Some (hr, st') ->
    ingested (eq status) st st'.
Proof.
  induction attrs as [|anAttr rest IH]; intros sIndex hr0 st hr st' Hdrop;
    cbn [add_samples_for_attributes].
  - intros [= <- <-]. apply ingested_refl.
  - destruct (add_sample_for_attribute _ _ _ _ _ _) as [[hr1 st1]|] eqn:E1; [|discriminate].
    cbn [mbind option_bind]. intros Hrest.
    assert (Hattr : Match.MatchingAttributes aMatch !! sIndex = Some anAttr).
    { rewrite <- (Nat.add_0_r sIndex), <- lookup_drop, Hdrop. reflexivity. }
    eapply ingested_trans.
    + eapply add_sample_for_attribute_ingested; eassumption.
    + eapply IH; [|exact Hrest].
      replace (S sIndex) with (sIndex + 1)%nat by lia.
      rewrite <- drop_drop, Hdrop. reflexivity.
Qed.

Lemma AddSamplesForMatch_ingested `{Runtime} `{Collaborators}
    status aSpec aMatch st hr st' :
  AddSamplesForMatch status aSpec aMatch st = Some (hr, st') ->
  ingested (eq status) st st'.
Proof.
  unfold AddSamplesForMatch.
  destruct (add_samples_for_attributes _ _ _ _ _ _ _) as [[hr1 st1]|] eqn:E; [|discriminate].
  cbn [mbind option_bind]. intros Hret.
  assert (st' = st1) as -> by (destruct (decide _); congruence).
  eapply add_samples_for_attributes_ingested; [|exact E]. reflexivity.
Qed.

(** The status that leaves the loop over the attributes is that of its last
    turn: every turn assigns [hr]. *)
Lemma add_samples_for_attributes_snoc `{Runtime} `{Collaborators}
    status aSpec aMatch attrs last :
  forall sIndex hr0 st,
    add_samples_for_attributes status aSpec aMatch sIndex (attrs ++ [last]) hr0 st
    = '(hr1, st1) ← add_samples_for_attributes status aSpec aMatch sIndex attrs hr0 st;
      add_sample_for_attribute status aSpec aMatch (sIndex + length attrs) last st1.
Proof.
  induction attrs as [|anAttr rest IH]; intros sIndex hr0 st;
    cbn [app add_samples_for_attributes length].
  - cbn [mbind option_bind]. rewrite Nat.add_0_r.
    destruct (add_sample_for_attribute _ _ _ _ _ _) as [[hr1 st1]|]; reflexivity.
  - destruct (add_sample_for_attribute _ _ _ sIndex _ _) as [[hr1 st1]|]; [|reflexivity].
    cbn [mbind option_bind]. rewrite IH.
    replace (S sIndex + length rest)%nat with (sIndex + S (length rest))%nat by lia.
    reflexivity.
Qed.

(** [AddSamplesForMatch] returns [S_FALSE] exactly when the turn of the
    match's last attribute found its key in the registry. *)
Lemma AddSamplesForMatch_reports_last_attribute `{Runtime} `{Collaborators}
    status aSpec aMatch attrs last st hr st' :
  Match.MatchingAttributes aMatch = attrs ++ [last] ->
  AddSamplesForMatch status aSpec aMatch st = Some (hr, st') ->
  exists hr1 st1,
    add_samples_for_attributes status aSpec aMatch 0 attrs E_FAIL st = Some (hr1, st1)
    /\ (hr = S_FALSE
        <-> is_Some (Samples st1
                     !! key_of (draft_sample status aMatch last (length attrs))))
    /\ (hr = S_FALSE \/ hr = S_OK).
Proof.
  intros Hattrs. unfold AddSamplesForMatch.
  rewrite Hattrs, add_samples_for_attributes_snoc. cbn [Nat.add].
  destruct (add_samples_for_attributes _ _ _ 0 attrs _ _) as [[hr1 st1]|]; [|discriminate].
  cbn [mbind option_bind].
  destruct (add_sample_for_attribute _ _ _ _ _ _) as [[hr2 st2]|] eqn:E2; [|discriminate].
  cbn [mbind option_bind]. intros Hret. exists hr1, st1. split; [reflexivity|].
  assert (Hlast : Match.MatchingAttributes aMatch !! length attrs = Some last).
  { rewrite Hattrs. apply list_lookup_middle. reflexivity. }
  destruct (add_sample_for_attribute_spec _ _ _ _ _ _ _ _ Hlast E2)
    as [(Hin & -> & _)|(Hnone & Hne & _)].
  - destruct (decide (S_FALSE = S_FALSE)); [|congruence].
    injection Hret as <- <-. split; [tauto|auto].
  - destruct (decide (hr2 = S_FALSE)); [contradiction|].
    injection Hret as <- <-. split; [|auto].
    split; [discriminate|]. rewrite Hnone. intros [? [=]].
Qed.

Lemma account_ingested `{Runtime} `{Collaborators} allowed status hr dwlDataSize aSpecIt st :
  ingested allowed st (account status hr dwlDataSize aSpecIt st).
Proof.
  unfold account, update_global, update_spec.
  destruct status; try destruct (decide _);
    (split; cbn; rewrite ?length_alter; auto).
Qed.

Lemma on_attributes_ingested `{Runtime} `{Collaborators}
    (allowed : LimitStatus -> Prop) aSpecIt aMatch attrs :
  forall st st',
    (forall glob loc size,
        bIgnoreLimits glob = bIgnoreLimits (GlobalLimits st) ->
        allowed (SampleLimitStatus glob loc size)) ->
    on_attributes aSpecIt aMatch attrs st = Some st' ->
    ingested allowed st st'.
Proof.
  induction attrs as [|attr rest IH]; intros st st' Hal; cbn [on_attributes].
  - intros [= <-]. apply ingested_refl.
  - destruct (listofSpecs (config st) !! aSpecIt) as [aSpec|]; [|discriminate].
    cbn [mbind option_bind].
    destruct (head (Match.MatchingNames aMatch)); [|discriminate].
    cbn [mbind option_bind].
    destruct (AddSamplesForMatch _ _ _ _) as [[hr st1]|] eqn:E1; [|discriminate].
    cbn [mbind option_bind]. intros Hrest.
    assert (I1 : ingested allowed st st1).
    { eapply ingested_weaken; [|eapply AddSamplesForMatch_ingested; exact E1].
      intros status <-. now apply Hal. }
    eapply ingested_trans; [exact I1|].
    eapply ingested_trans; [apply account_ingested|].
    eapply IH; [|exact Hrest].
    intros glob loc size Hg. apply Hal. rewrite Hg.
    etrans; [apply (ingested_ignore allowed), account_ingested|].
    apply (ingested_ignore _ _ _ I1).
Qed.

Lemma onMatchCb_ingested `{Runtime} `{Collaborators}
    (allowed : LimitStatus -> Prop) aMatch st st' :
  (forall glob loc size,
      bIgnoreLimits glob = bIgnoreLimits (GlobalLimits st) ->
      allowed (SampleLimitStatus glob loc size)) ->
  onMatchCb aMatch st = Some st' ->
  ingested allowed st st'.
Proof.
  intros Hal. unfold onMatchCb.
  destruct (Match.MatchingAttributes aMatch) as [|a attrs].
  { destruct (head (Match.MatchingNames aMatch)); [|discriminate].
    intros [= <-]. apply ingested_refl. }
  destruct (list_find _ _) as [[aSpecIt aSpec]|].
  - now apply on_attributes_ingested.
  - intros [= <-]. apply ingested_refl.
Qed.

Lemma FindMatchingSamples_ingested `{Runtime} `{Collaborators}
    (allowed : LimitStatus -> Prop) found :
  forall st st',
    (forall glob loc size,
        bIgnoreLimits glob = bIgnoreLimits (GlobalLimits st) ->
        allowed (SampleLimitStatus glob loc size)) ->
    FindMatchingSamples found st = Some st' ->
    ingested allowed st st'.
Proof.
  induction found as [|aMatch rest IH]; intros st st' Hal; cbn [FindMatchingSamples].
  - intros [= <-]. apply ingested_refl.
  - destruct (onMatchCb aMatch st) as [st1|] eqn:E1; [|discriminate].
    cbn [mbind option_bind]. intros Hrest.
    assert (I1 : ingested allowed st st1) by (eapply onMatchCb_ingested; eassumption).
    eapply ingested_trans; [exact I1|].
    eapply IH; [|exact Hrest].
    intros glob loc size Hg. apply Hal. rewrite Hg. apply (ingested_ignore _ _ _ I1).
Qed.

Lemma OffLimits_for_iff status :
  OffLimits_for status = true <-> status <> NoLimits /\ status <> SampleWithinLimits.
Proof. destruct status; cbn; split; try discriminate; intuition congruence. Qed.

(** What the code keeps of C4.  Every sample that [AddSamplesForMatch] adds
    to the registry is off-limits exactly when the limit status the function
    was called with is neither [NoLimits] nor [SampleWithinLimits]; that
    status is the one of the attribute of the callback's turn, not the
    sample's own.  And a run of the finder's matches that starts with the
    global ignore-limits flag set, from a registry without off-limits
    samples, ends with none in the registry. *)
Theorem OffLimits_follows_status `{Runtime} `{Collaborators} :
  (forall status aSpec aMatch st hr st' k s,
      AddSamplesForMatch status aSpec aMatch st = Some (hr, st') ->
      Samples st !! k = None ->
      Samples st' !! k = Some s ->
      (SampleRef.OffLimits s = true
       <-> status <> NoLimits /\ status <> SampleWithinLimits))
  /\ (forall found st st',
         bIgnoreLimits (GlobalLimits st) = true ->
         map_Forall (fun _ s => SampleRef.OffLimits s = false) (Samples st) ->
         FindMatchingSamples found st = Some st' ->
         map_Forall (fun _ s => SampleRef.OffLimits s = false) (Samples st')).
Proof.
  split.
  - intros status aSpec aMatch st hr st' k s Hadd Hold Hnew.
    destruct (ingested_new _ _ _ (AddSamplesForMatch_ingested _ _ _ _ _ _ Hadd) k s Hnew)
      as [Hin|(_ & _ & status' & m & <- & Hcr)]; [congruence|].
    rewrite (created_OffLimits _ _ _ _ Hcr). apply OffLimits_for_iff.
  - intros found st st' Hignore Hold Hrun k s Hk.
    assert (I : ingested (eq NoLimits) st st').
    { eapply FindMatchingSamples_ingested; [|exact Hrun].
      intros glob loc size Hg. unfold SampleLimitStatus. now rewrite Hg, Hignore. }
    destruct (ingested_new _ _ _ I k s Hk) as [Hin|(_ & _ & status & m & <- & Hcr)].
    + exact (Hold k s Hin).
    + now rewrite (created_OffLimits _ _ _ _ Hcr).
Qed.

(** ** Reporting *)

Lemma write_rows_trace k rs :
  forall st, trace (write_rows k rs st) = trace st ++ map (Row k) rs.
Proof.
  unfold write_rows. induction rs as [|r rs IH]; intros st; cbn [foldl map].
  - now rewrite app_nil_r.
  - rewrite IH. cbn [trace emit]. now rewrite <- app_assoc.
Qed.

Lemma rows_map_Row k rs : rows (map (Row k) rs) = map (pair k) rs.
Proof. induction rs as [|r rs IH]; [reflexivity|]. cbn. now f_equal. Qed.

Lemma write_rows_fields k rs :
  forall st,
    config (write_rows k rs st) = config st
    /\ GlobalLimits (write_rows k rs st) = GlobalLimits st
    /\ Samples (write_rows k rs st) = Samples st
    /\ SampleNames (write_rows k rs st) = SampleNames st
    /\ m_compressor (write_rows k rs st) = m_compressor st.
Proof.
  unfold write_rows. induction rs as [|r rs IH]; intros st; cbn [foldl]; [auto|].
  destruct (IH (emit (Row k r) st)) as (-> & -> & -> & -> & ->). auto.
Qed.

Lemma match_rows_length `{Collaborators} s aMatch rs :
  match_rows s aMatch = Some rs -> length rs = length (Match.MatchingNames aMatch).
Proof.
  unfold match_rows. destruct (Match.MatchingNames aMatch) as [|n ns] eqn:En.
  - now intros [= <-].
  - destruct (_ !! _); [|discriminate]. cbn [mbind option_bind].
    intros Hrows. symmetry. exact (length_mapM _ _ _ Hrows).
Qed.

Lemma sample_rows_single `{Collaborators} s aMatch :
  sample_rows s [aMatch] = match_rows s aMatch.
Proof.
  cbn [sample_rows]. destruct (match_rows s aMatch) as [rs|]; [|reflexivity].
  cbn. now rewrite app_nil_r.
Qed.

(** C9. Every sample of the registry holds exactly one match.  Ingesting an
    attribute whose key is already in the registry returns [S_FALSE] and
    leaves the whole state, the earlier sample included, as it was (the
    match has a name, which the log line of that branch reads); so a sample
    once registered stays as it is through any further ingestion, and the
    rows written for it are those of the names of its one match. *)
Theorem registry_sample_keeps_its_one_match `{Runtime} `{Collaborators} :
  (forall found st st',
      map_Forall (fun _ s => length (SampleRef.Matches s) = 1%nat) (Samples st) ->
      FindMatchingSamples found st = Some st' ->
      map_Forall (fun _ s => length (SampleRef.Matches s) = 1%nat) (Samples st'))
  /\ (forall status aSpec aMatch sIndex anAttr st,
         is_Some (Samples st !! key_of (draft_sample status aMatch anAttr sIndex)) ->
         is_Some (head (Match.MatchingNames aMatch)) ->
         add_sample_for_attribute status aSpec aMatch sIndex anAttr st = Some (S_FALSE, st))
  /\ (forall found st st' k s,
         Samples st !! k = Some s ->
         FindMatchingSamples found st = Some st' ->
         Samples st' !! k = Some s)
  /\ (forall s aMatch st hr st',
         SampleRef.Matches s = [aMatch] ->
         AddSampleRefToCSV s st = Some (hr, st') ->
         exists rs,
           match_rows s aMatch = Some rs
           /\ length rs = length (Match.MatchingNames aMatch)
           /\ rows (trace st') = rows (trace st) ++ map (pair (key_of s)) rs).
Proof.
  split; [|split; [|split]].
  - intros found st st' Hold Hrun k s Hk.
    assert (I : ingested (fun _ => True) st st').
    { eapply FindMatchingSamples_ingested; [|exact Hrun]. auto. }
    destruct (ingested_new _ _ _ I k s Hk) as [Hin|(_ & _ & status & m & _ & Hcr)].
    + exact (Hold k s Hin).
    + now rewrite (created_Matches _ _ _ _ Hcr).
  - intros status aSpec aMatch sIndex anAttr st [prev Hprev] [front Hfront].
    unfold add_sample_for_attribute. cbv zeta. now rewrite Hprev, Hfront.
  - intros found st st' k s Hk Hrun.
    assert (I : ingested (fun _ => True) st st').
    { eapply FindMatchingSamples_ingested; [|exact Hrun]. auto. }
    eapply lookup_weaken; [exact Hk|apply (ingested_old _ _ _ I)].
  - intros s aMatch st hr st' HM. unfold AddSampleRefToCSV.
    rewrite HM, sample_rows_single.
    destruct (match_rows s aMatch) as [rs|] eqn:Er; [|discriminate].
    cbn [mbind option_bind]. intros [= <- <-].
    exists rs. split; [reflexivity|]. split; [exact (match_rows_length _ _ _ Er)|].
    now rewrite write_rows_trace, rows_app, rows_map_Row.
Qed.

(** ** Hash finalization and the reporter *)

Lemma write_rows_log k rs : forall st, write_rows k rs st = log (map (Row k) rs) st.
Proof.
  unfold write_rows. induction rs as [|r rs IH]; intros st; cbn [foldl map].
  - now rewrite log_nil.
  - rewrite IH. change (emit (Row k r) st) with (log [Row k r] st). now rewrite log_log.
Qed.

Lemma AddSampleRefToCSV_spec `{Runtime} `{Collaborators} s st hr st' :
  AddSampleRefToCSV s st = Some (hr, st') ->
  hr = S_OK
  /\ exists rs, sample_rows s (SampleRef.Matches s) = Some rs
                /\ st' = log (map (Row (key_of s)) rs) st.
Proof.
  unfold AddSampleRefToCSV.
  destruct (sample_rows _ _) as [rs|]; [|discriminate]. cbn [mbind option_bind].
  intros [= <- <-]. split; [reflexivity|]. exists rs. now rewrite write_rows_log.
Qed.

Lemma FinalizeHashes_no_stream `{Runtime} `{Collaborators} s st :
  SampleRef.HashStream s = None -> FinalizeHashes s st = Some (s, st).
Proof. intros Hn. unfold FinalizeHashes. now rewrite Hn. Qed.

Lemma FinalizeHashes_spec `{Runtime} `{Collaborators} s st s' st' :
  FinalizeHashes s st = Some (s', st') ->
  same_report s s'
  /\ exists events,
       st' = log events st /\ rows events = []
       /\ (SampleRef.OffLimits s = false -> events = finalize_calls s).
Proof.
  unfold FinalizeHashes, finalize_calls, read_fuzzy.
  destruct (SampleRef.HashStream s) as [h|] eqn:Hh.
  2:{ intros [= <- <-]. split; [now split|]. exists []. now rewrite log_nil. }
  destruct (SampleRef.OffLimits s && bReportAll (config st)
            && negb (bool_decide (CryptoHashAlgs (config st) = Undefined))) eqn:Hdrain.
  - destruct (SampleRef.CopyStream s) as [c|]; [|discriminate].
    cbn [mbind option_bind read_crypto SampleRef.FuzzyHashStream SampleRef.set_crypto].
    destruct (SampleRef.FuzzyHashStream s) as [f|] eqn:Hf; intros [= <- <-];
      (split; [split; reflexivity|]);
      eexists; (split; [unfold emit, log; cbn; rewrite <- ?app_assoc; reflexivity|]);
      (split; [reflexivity|]);
      intros Hoff; rewrite Hoff in Hdrain; discriminate.
  - cbn [mbind option_bind read_crypto SampleRef.FuzzyHashStream SampleRef.set_crypto].
    destruct (SampleRef.FuzzyHashStream s) as [f|] eqn:Hf; intros [= <- <-];
      (split; [split; reflexivity|]);
      eexists; (split; [unfold emit, log; cbn; rewrite <- ?app_assoc; reflexivity|]);
      (split; [reflexivity|]);
      intros _; rewrite ?app_nil_r; reflexivity.
Qed.

Lemma FinalizeHashes_in_limits `{Runtime} `{Collaborators} s st :
  SampleRef.OffLimits s = false ->
  exists s', FinalizeHashes s st = Some (s', log (finalize_calls s) st) /\ same_report s s'.
Proof.
  intros Hoff.
  assert (Hsome : is_Some (FinalizeHashes s st)).
  { unfold FinalizeHashes. rewrite Hoff. cbn [andb].
    destruct (SampleRef.HashStream s); [|eauto]. cbn [mbind option_bind].
    destruct (read_crypto _ _ _) as [s1 st1]. destruct (SampleRef.FuzzyHashStream s1); eauto. }
  destruct Hsome as [[s' st'] Hf].
  destruct (FinalizeHashes_spec _ _ _ _ Hf) as (Hsame & ev & -> & _ & Hev).
  exists s'. rewrite <- (Hev Hoff). auto.
Qed.

(** The cells of every row the reporter writes for a sample. *)
Lemma sample_rows_cells `{Collaborators} s Matches rs :
  sample_rows s Matches = Some rs ->
  Forall (fun cells =>
            name_column cells
            = Some (if SampleRef.OffLimits s then WriteNothing
                    else WriteString (SampleRef.SampleName s))
            /\ cells !! 25%nat = Some (WriteBytes (SampleRef.SSDeep s))
            /\ cells !! 26%nat = Some (WriteBytes (SampleRef.TLSH s))) rs.
Proof.
  revert rs; induction Matches as [|m ms IH]; intros rs; cbn [sample_rows].
  - intros [= <-]. constructor.
  - destruct (match_rows s m) as [r1|] eqn:E1; [|discriminate]. cbn [mbind option_bind].
    destruct (sample_rows s ms) as [r2|]; [|discriminate]. cbn [mbind option_bind].
    intros [= <-]. apply Forall_app. split; [|now apply IH].
    unfold match_rows in E1. destruct (Match.MatchingNames m) as [|n ns]; [now inversion E1|].
    destruct (_ !! _) as [attr|]; [|discriminate]. cbn [mbind option_bind] in E1.
    apply mapM_Some_1 in E1.
    induction E1 as [|name cells names r1 Hrow _ IHrows]; constructor; [|exact IHrows].
    unfold csv_row in Hrow. destruct (Name.FILENAME name) as [fn|]; [|discriminate].
    injection Hrow as <-. repeat split.
Qed.

Lemma sample_rows_length `{Collaborators} s Matches rs :
  sample_rows s Matches = Some rs -> length rs = length (Matches ≫= Match.MatchingNames).
Proof.
  revert rs; induction Matches as [|m ms IH]; intros rs; cbn [sample_rows].
  - now intros [= <-].
  - destruct (match_rows s m) as [r1|] eqn:E1; [|discriminate]. cbn [mbind option_bind].
    destruct (sample_rows s ms) as [r2|]; [|discriminate]. cbn [mbind option_bind].
    intros [= <-]. rewrite bind_cons, !length_app.
    rewrite (match_rows_length _ _ _ E1), (IH r2); reflexivity.
Qed.

(** ** Properties kept by every step of a run *)

Section RunInvariant.
Context `{Runtime} `{Collaborators}.
Variable J : Main -> Prop.
Hypothesis J_log : forall st events, J st -> rows events = [] -> J (log events st).
Hypothesis J_queue : forall st queue, J st -> J (set_compressor queue st).
Hypothesis J_report :
  forall k s s' rs st,
    J st -> Samples st !! k = Some s -> same_report s s' ->
    (SampleRef.HashStream s = None -> s' = s) ->
    sample_rows s' (SampleRef.Matches s') = Some rs ->
    J (log (map (Row (key_of s')) rs) (set_Samples (<[k := s']> (Samples st)) st)).
Hypothesis J_match : forall aMatch st st', J st -> onMatchCb aMatch st = Some st' -> J st'.

Lemma J_emit e st : J st -> rows [e] = [] -> J (emit e st).
Proof. intros HJ He. change (emit e st) with (log [e] st). now apply J_log. Qed.

Lemma finalize_and_report_J k s st s' st1 hr st2 :
  J st -> Samples st !! k = Some s ->
  FinalizeHashes s st = Some (s', st1) ->
  AddSampleRefToCSV s' (set_Samples (<[k := s']> (Samples st1)) st1) = Some (hr, st2) ->
  J st2.
Proof.
  intros HJ Hk Hfin Hcsv.
  destruct (FinalizeHashes_spec _ _ _ _ Hfin) as (Hsame & ev & -> & Hev & _).
  destruct (AddSampleRefToCSV_spec _ _ _ _ Hcsv) as (_ & rs & Hrs & ->).
  apply J_report with (s := s); auto.
  intros Hnone. rewrite (FinalizeHashes_no_stream _ _ Hnone) in Hfin. congruence.
Qed.

Lemma itemArchivedCb_J k st st' : J st -> itemArchivedCb k st = Some st' -> J st'.
Proof.
  intros HJ. unfold itemArchivedCb.
  destruct (Samples st !! k) as [s|] eqn:Hk; [|discriminate]. cbn [mbind option_bind].
  destruct (FinalizeHashes s st) as [[s' st1]|] eqn:Hfin; [|discriminate].
  cbn [mbind option_bind].
  destruct (AddSampleRefToCSV _ _) as [[hr st2]|] eqn:Hcsv; [|discriminate].
  cbn [mbind option_bind]. intros [= <-].
  eapply finalize_and_report_J; eassumption.
Qed.

Lemma complete_entries_J items :
  forall st st', J st -> ArchiveCreate.complete_entries items st = Some st' -> J st'.
Proof.
  induction items as [|item rest IH]; intros st st' HJ; cbn [ArchiveCreate.complete_entries].
  - now intros [= <-].
  - destruct (ArchiveCreate.complete_entry item st) as [st1|] eqn:E1; [|discriminate].
    cbn [mbind option_bind]. apply IH.
    unfold ArchiveCreate.complete_entry in E1.
    assert (HJ0 : J (emit (EntryConsumed (NameInArchive item) (item_Stream item)) st))
      by now apply J_emit.
    destruct (item_Callback item) as [k|].
    + eapply itemArchivedCb_J; eassumption.
    + now injection E1 as <-.
Qed.

Lemma FlushQueue_J st st' : J st -> ArchiveCreate.FlushQueue st = Some st' -> J st'.
Proof.
  intros HJ. unfold ArchiveCreate.FlushQueue. apply complete_entries_J. now apply J_queue.
Qed.

Lemma AddStream_J name display stream callback st hr st' :
  J st -> ArchiveCreate.AddStream name display stream callback st = Some (hr, st') -> J st'.
Proof.
  intros HJ. unfold ArchiveCreate.AddStream.
  assert (HJ0 : J (emit (AddStream_call name display stream) st)) by now apply J_emit.
  destruct (FAILED _); [now intros [= <- <-]|].
  destruct (AddStream_flushes _).
  - destruct (ArchiveCreate.FlushQueue _) as [st1|] eqn:E1; [|discriminate].
    cbn [mbind option_bind]. intros [= <- <-].
    eapply FlushQueue_J; [|exact E1]. now apply J_queue.
  - intros [= <- <-]. now apply J_queue.
Qed.

Lemma WriteSample_archive_J k st hr st' :
  J st -> WriteSample_archive k st = Some (hr, st') -> J st'.
Proof.
  intros HJ. unfold WriteSample_archive.
  destruct (Samples st !! k) as [s|]; [|discriminate]. cbn [mbind option_bind].
  destruct (SampleRef.OffLimits s); [now intros [= <- <-]|].
  destruct (fronts s) as [[[front name] attr]|]; [|discriminate].
  cbn [mbind option_bind].
  destruct (ArchiveCreate.AddStream _ _ _ _ _) as [[hr1 st1]|] eqn:E1; [|discriminate].
  cbn [mbind option_bind]. intros [= <- <-]. eapply AddStream_J; eassumption.
Qed.

Lemma CopyStream_quiet src outPath st hr st' :
  CopyStream src outPath st = (hr, st') -> quiet st st'.
Proof.
  unfold CopyStream. destruct (negb _).
  2: repeat match goal with
            | |- context [FAILED ?x] => destruct (FAILED x)
            end.
  all:
    intros [= <- <-];
    repeat (eapply quiet_trans; [|apply quiet_emit; reflexivity]);
    apply quiet_refl.
Qed.

Lemma J_quiet st st' : J st -> quiet st st' -> J st'.
Proof. intros HJ (ev & -> & Hev). now apply J_log. Qed.

Lemma WriteSample_directory_J outputDir k st hr st' :
  J st -> WriteSample_directory outputDir k st = Some (hr, st') -> J st'.
Proof.
  intros HJ. unfold WriteSample_directory.
  destruct (Samples st !! k) as [s|] eqn:Hk; [|discriminate]. cbn [mbind option_bind].
  destruct (SampleRef.OffLimits s); [now intros [= <- <-]|].
  set (st0 := emit (create_directories _) st).
  assert (Q0 : quiet st st0) by now apply quiet_emit.
  destruct (negb _); [intros [= <- <-]; eapply J_quiet; eassumption|].
  destruct (SampleRef.CopyStream s) as [src|]; [|discriminate]. cbn [mbind option_bind].
  destruct (CopyStream src _ st0) as [hr1 st1] eqn:E1.
  assert (Q1 : quiet st st1).
  { eapply quiet_trans; [exact Q0|]. eapply CopyStream_quiet; exact E1. }
  destruct (FAILED hr1); [intros [= <- <-]; eapply J_quiet; eassumption|].
  destruct (FinalizeHashes s st1) as [[s' st2]|] eqn:Hfin; [|discriminate].
  cbn [mbind option_bind].
  destruct (AddSampleRefToCSV _ _) as [[hr3 st3]|] eqn:Hcsv; [|discriminate].
  cbn [mbind option_bind]. intros Hret.
  assert (st' = st3) as -> by (destruct (FAILED hr3); congruence).
  eapply finalize_and_report_J; [eapply J_quiet; eassumption| |exact Hfin|exact Hcsv].
  destruct (quiet_fields _ _ Q1) as (_ & _ & -> & _). exact Hk.
Qed.

Lemma run_step_J st st' : J st -> run_step st st' -> J st'.
Proof.
  intros HJ Hstep.
  destruct Hstep;
    [eapply J_match|eapply WriteSample_archive_J
     |eapply WriteSample_directory_J|eapply FlushQueue_J]; eassumption.
Qed.

Lemma run_J st st' : J st -> rtc run_step st st' -> J st'.
Proof. intros HJ Hrun. induction Hrun; eauto using run_step_J. Qed.

End RunInvariant.

Lemma ingested_well_keyed allowed st st' :
  ingested allowed st st' -> well_keyed st -> well_keyed st'.
Proof.
  intros I Hwk k s Hk.
  destruct (ingested_new _ _ _ I k s Hk) as [Hin|(_ & Hkey & _)]; [exact (Hwk k s Hin)|exact Hkey].
Qed.

(** C10. Hash finalization of a sample without crypto-hash stream returns at
    once, sample and state untouched.  Ingestion with no crypto algorithm
    configured creates samples without crypto-hash stream and with empty
    SSDEEP and TLSH, whatever the fuzzy algorithms.  And such a sample stays
    exactly as it is through every step of a run, each row written for it
    carrying empty SSDEEP and TLSH columns. *)
Theorem no_crypto_stream_no_fuzzy_hashes `{Runtime} `{Collaborators} :
  (forall s st, SampleRef.HashStream s = None -> FinalizeHashes s st = Some (s, st))
  /\ (forall status aSpec aMatch st hr st' k s,
         CryptoHashAlgs (config st) = Undefined ->
         AddSamplesForMatch status aSpec aMatch st = Some (hr, st') ->
         Samples st !! k = None ->
         Samples st' !! k = Some s ->
         SampleRef.HashStream s = None
         /\ SampleRef.SSDeep s = [] /\ SampleRef.TLSH s = [])
  /\ (forall k s st st',
         well_keyed st ->
         Samples st !! k = Some s ->
         SampleRef.HashStream s = None ->
         SampleRef.SSDeep s = [] ->
         SampleRef.TLSH s = [] ->
         (forall cells, (k, cells) ∈ rows (trace st) -> fuzzy_columns_empty cells) ->
         rtc run_step st st' ->
         Samples st' !! k = Some s
         /\ (forall cells, (k, cells) ∈ rows (trace st') -> fuzzy_columns_empty cells)).
Proof.
  split; [exact FinalizeHashes_no_stream|]. split.
  - intros status aSpec aMatch st hr st' k s Hu Hadd Hold Hnew.
    destruct (ingested_new _ _ _ (AddSamplesForMatch_ingested _ _ _ _ _ _ Hadd) k s Hnew)
      as [Hin|(_ & _ & status' & m & _ & Hcr)]; [congruence|].
    destruct Hcr. auto.
  - intros k s st st' Hwk Hk Hnone Hss Htl Hrows Hrun.
    set (J := fun st : Main =>
                well_keyed st /\ Samples st !! k = Some s
                /\ forall cells, (k, cells) ∈ rows (trace st) -> fuzzy_columns_empty cells).
    assert (HJ : J st') ; [|now destruct HJ as (_ & ? & ?)].
    apply (run_J J) with (st := st); [| | | |unfold J; auto|exact Hrun].
    + clear Hwk Hk Hrows. intros a ev (Hwk & Hk & Hrows) Hev.
      split; [exact Hwk|]. split; [exact Hk|].
      cbn [log trace]. rewrite rows_app, Hev, app_nil_r. exact Hrows.
    + clear Hwk Hk Hrows. intros a q (Hwk & Hk & Hrows). unfold J. auto.
    + clear Hwk Hk Hrows. intros k' s1 s1' rs a (Hwk & Hk & Hrows) Hk' Hsame Hid Hrs.
      assert (Hkey : key_of s1' = k').
      { rewrite (same_key _ _ Hsame). exact (Hwk k' s1 Hk'). }
      split; [|split].
      * intros k2 s2. cbn [log set_Samples Samples].
        destruct (decide (k' = k2)) as [<-|Hne].
        -- rewrite lookup_insert_eq. now intros [= <-].
        -- rewrite lookup_insert_ne by exact Hne. apply Hwk.
      * cbn [log set_Samples Samples].
        destruct (decide (k' = k)) as [->|Hne].
        -- rewrite lookup_insert_eq. f_equal.
           assert (s1 = s) as -> by congruence. now apply Hid.
        -- now rewrite lookup_insert_ne.
      * intros cells. cbn [log set_Samples trace].
        rewrite rows_app, rows_map_Row, elem_of_app.
        intros [Hin|Hin]; [now apply Hrows|].
        apply list_elem_of_In, in_map_iff in Hin. destruct Hin as (r & [= Hkk <-] & Hr).
        assert (k' = k) as -> by congruence.
        assert (s1 = s) as -> by congruence.
        rewrite (Hid Hnone) in Hrs.
        pose proof (sample_rows_cells _ _ _ Hrs) as Hcells.
        rewrite List.Forall_forall in Hcells. destruct (Hcells r Hr) as (_ & H25 & H26).
        rewrite Hss in H25. rewrite Htl in H26. now split.
    + clear Hwk Hk Hrows. intros m a b (Hwk & Hk & Hrows) Hm.
      assert (I : ingested (fun _ => True) a b) by (eapply onMatchCb_ingested; eauto).
      split; [|split].
      * eapply ingested_well_keyed; eassumption.
      * eapply lookup_weaken; [exact Hk|apply (ingested_old _ _ _ I)].
      * rewrite (ingested_rows _ _ _ I). exact Hrows.
Qed.

(** ** The sinks

    Neither sink does anything for an off-limits sample: the first statement
    of both [WriteSample] returns. *)
Lemma WriteSample_off_limits `{Runtime} `{Collaborators} outputDir k s st :
  Samples st !! k = Some s ->
  SampleRef.OffLimits s = true ->
  WriteSample_archive k st = Some (S_OK, st)
  /\ WriteSample_directory outputDir k st = Some (S_OK, st).
Proof.
  intros Hk Hoff. unfold WriteSample_archive, WriteSample_directory.
  rewrite Hk. cbn [mbind option_bind]. now rewrite Hoff.
Qed.

Lemma archive_view_app a b : archive_view (a ++ b) = archive_view a ++ archive_view b.
Proof. unfold archive_view. apply omap_app. Qed.

Lemma archive_view_finalize_calls s : archive_view (finalize_calls s) = finalize_calls s.
Proof.
  unfold finalize_calls.
  destruct (SampleRef.HashStream s); [|reflexivity].
  destruct (SampleRef.FuzzyHashStream s); reflexivity.
Qed.

Lemma archive_view_rows k rs : archive_view (map (Row k) rs) = replicate (length rs) (Row k []).
Proof. induction rs as [|r rs IH]; [reflexivity|]. cbn. now f_equal. Qed.

Lemma same_report_refl s : same_report s s.
Proof. now split. Qed.

Lemma same_report_trans a b c : same_report a b -> same_report b c -> same_report a c.
Proof. intros [] []. split; congruence. Qed.

Lemma match_rows_is_Some `{Collaborators} s s' m :
  SampleRef.AttributeIndex s' = SampleRef.AttributeIndex s ->
  is_Some (match_rows s m) -> is_Some (match_rows s' m).
Proof.
  intros Hidx. unfold match_rows. rewrite Hidx.
  destruct (Match.MatchingNames m) as [|n ns]; [eauto|].
  destruct (_ !! _) as [attr|]; [|intros [? [=]]]. cbn [mbind option_bind].
  rewrite !mapM_is_Some. intros Hall. eapply Forall_impl; [exact Hall|].
  intros name. unfold compose, csv_row.
  destruct (Name.FILENAME name); [eauto|intros [? [=]]].
Qed.

Lemma sample_rows_is_Some `{Collaborators} s s' Matches :
  SampleRef.AttributeIndex s' = SampleRef.AttributeIndex s ->
  is_Some (sample_rows s Matches) -> is_Some (sample_rows s' Matches).
Proof.
  intros Hidx. induction Matches as [|m ms IH]; cbn [sample_rows]; [eauto|].
  destruct (match_rows s m) as [r1|] eqn:E1; [|intros [? [=]]].
  destruct (match_rows_is_Some s s' m Hidx) as [r1' ->]; [eauto|].
  cbn [mbind option_bind].
  destruct (sample_rows s ms); [|intros [? [=]]]. intros _.
  destruct IH as [r Hr]; [eauto|]. rewrite Hr. eauto.
Qed.

Lemma same_report_fronts s s' : same_report s s' -> fronts s' = fronts s.
Proof. intros Hsame. unfold fronts. now rewrite (same_Matches _ _ Hsame). Qed.

Lemma same_report_reportable `{Collaborators} s s' :
  same_report s s' -> reportable s -> reportable s'.
Proof.
  intros Hsame [Hhead Hrows]. split.
  - now rewrite (same_report_fronts _ _ Hsame).
  - rewrite (same_Matches _ _ Hsame).
    eapply sample_rows_is_Some; [|exact Hrows]. apply (same_AttributeIndex _ _ Hsame).
Qed.

Lemma same_report_entry_block s s' : same_report s s' -> entry_block s' = entry_block s.
Proof.
  intros [Hk HM HA HO HN HC HH HF]. unfold entry_block, finalize_calls, names_of.
  now rewrite Hk, HM, HN, HC, HH, HF.
Qed.

Lemma same_report_entry_item `{Collaborators} s s' :
  same_report s s' -> entry_item s' = entry_item s.
Proof.
  intros Hsame. unfold entry_item.
  now rewrite (same_report_fronts _ _ Hsame), (same_key _ _ Hsame),
    (same_SampleName _ _ Hsame), (same_CopyStream _ _ Hsame).
Qed.

Lemma tracks_refl st : tracks (Samples st) st.
Proof. intros k s Hk. exists s. split; [exact Hk|apply same_report_refl]. Qed.

(** Completing the entry of a sample within limits: the stream is consumed,
    then the hashes are read, then one row per matching name is written. *)
Lemma complete_entry_block `{Runtime} `{Collaborators} registry s st :
  tracks registry st ->
  registry !! key_of s = Some s ->
  SampleRef.OffLimits s = false ->
  reportable s ->
  exists st' events,
    ArchiveCreate.complete_entry (entry_item s) st = Some st'
    /\ tracks registry st'
    /\ m_compressor st' = m_compressor st
    /\ trace st' = trace st ++ events
    /\ archive_view events = entry_block s.
Proof.
  intros Htr Hreg Hoff Hrep.
  destruct (Htr _ _ Hreg) as (s1 & Hk1 & Hsame1).
  assert (Hoff1 : SampleRef.OffLimits s1 = false) by now rewrite (same_OffLimits _ _ Hsame1).
  unfold ArchiveCreate.complete_entry, entry_item. cbn [item_Callback NameInArchive item_Stream].
  set (st0 := emit _ st).
  destruct (FinalizeHashes_in_limits s1 st0 Hoff1) as (s2 & Hfin & Hsame2).
  assert (Hsame : same_report s s2) by (eapply same_report_trans; eassumption).
  destruct (same_report_reportable _ _ Hsame Hrep) as [_ [rs Hrs]].
  unfold itemArchivedCb. change (Samples st0) with (Samples st). rewrite Hk1.
  cbn [mbind option_bind]. rewrite Hfin. cbn [mbind option_bind].
  unfold AddSampleRefToCSV. rewrite Hrs. cbn [mbind option_bind]. rewrite write_rows_log.
  eexists _, _. split; [reflexivity|]. split; [|split; [reflexivity|split]].
  - intros k s' Hk'. cbn [log set_Samples Samples emit].
    destruct (decide (key_of s = k)) as [<-|Hne].
    + rewrite lookup_insert_eq. exists s2. split; [reflexivity|]. congruence.
    + rewrite lookup_insert_ne by exact Hne. exact (Htr k s' Hk').
  - cbn [log set_Samples trace emit]. unfold st0. cbn [emit trace].
    rewrite <- !app_assoc. reflexivity.
  - rewrite !archive_view_app, archive_view_finalize_calls, archive_view_rows.
    rewrite (sample_rows_length _ _ _ Hrs).
    rewrite <- (same_report_entry_block s s2 Hsame).
    unfold entry_block, names_of.
    rewrite (same_SampleName _ _ Hsame), (same_CopyStream _ _ Hsame).
    unfold finalize_calls.
    rewrite (same_HashStream _ _ Hsame2), (same_FuzzyHashStream _ _ Hsame2).
    reflexivity.
Qed.

Lemma complete_entries_blocks `{Runtime} `{Collaborators} registry queued :
  forall st,
    tracks registry st ->
    Forall (writable registry) queued ->
    exists st' events,
      ArchiveCreate.complete_entries (map entry_item queued) st = Some st'
      /\ tracks registry st'
      /\ m_compressor st' = m_compressor st
      /\ trace st' = trace st ++ events
      /\ archive_view events = concat (map entry_block queued).
Proof.
  induction queued as [|s rest IH]; intros st Htr Hall.
  - exists st, []. cbn. rewrite app_nil_r. auto.
  - apply Forall_cons in Hall. destruct Hall as [(Hreg & Hoff & Hrep) Hall].
    destruct (complete_entry_block registry s st Htr Hreg Hoff Hrep)
      as (st1 & ev1 & E1 & Htr1 & Hq1 & Ht1 & Hv1).
    destruct (IH st1 Htr1 Hall) as (st2 & ev2 & E2 & Htr2 & Hq2 & Ht2 & Hv2).
    exists st2, (ev1 ++ ev2). cbn [map ArchiveCreate.complete_entries concat].
    rewrite E1. cbn [mbind option_bind]. split; [exact E2|]. split; [exact Htr2|].
    split; [congruence|]. split.
    + rewrite Ht2, Ht1. now rewrite app_assoc.
    + now rewrite archive_view_app, Hv1, Hv2.
Qed.

Lemma FlushQueue_blocks `{Runtime} `{Collaborators} registry queued st :
  tracks registry st ->
  Forall (writable registry) queued ->
  m_compressor st = map entry_item queued ->
  exists st' events,
    ArchiveCreate.FlushQueue st = Some st'
    /\ tracks registry st'
    /\ m_compressor st' = []
    /\ trace st' = trace st ++ events
    /\ archive_view events = concat (map entry_block queued).
Proof.
  intros Htr Hall Hq. unfold ArchiveCreate.FlushQueue. rewrite Hq.
  destruct (complete_entries_blocks registry queued (set_compressor [] st) Htr Hall)
    as (st' & ev & E & Htr' & Hq' & Ht' & Hv).
  exists st', ev. auto.
Qed.

Lemma registry_order_Permutation {A} (registry : gmap SampleKey A) :
  registry_order registry ≡ₚ map_to_list registry.
Proof. apply merge_sort_Permutation. Qed.

Lemma elem_of_registry_order {A} (registry : gmap SampleKey A) k x :
  (k, x) ∈ registry_order registry <-> registry !! k = Some x.
Proof. rewrite registry_order_Permutation. apply elem_of_map_to_list. Qed.

Lemma SampleKey_le_trans {A} :
  Transitive (fun p q : SampleKey * A => SampleKey_le p.1 q.1).
Proof.
  intros [[[v1 f1] i1] x] [[[v2 f2] i2] y] [[[v3 f3] i3] z].
  unfold SampleKey_le. cbn. lia.
Qed.

Lemma SampleKey_le_total {A} : Total (fun p q : SampleKey * A => SampleKey_le p.1 q.1).
Proof.
  intros [[[v1 f1] i1] x] [[[v2 f2] i2] y]. unfold SampleKey_le. cbn. lia.
Qed.

(** The loops over the registry meet its elements in ascending order of
    volume serial number, then file reference, then attribute instance. *)
Lemma registry_order_sorted {A} (registry : gmap SampleKey A) :
  StronglySorted (fun p q => SampleKey_le p.1 q.1) (registry_order registry).
Proof.
  apply (@StronglySorted_merge_sort _ _ _ SampleKey_le_trans SampleKey_le_total).
Qed.

Lemma WriteSample_archive_blocks `{Runtime} `{Collaborators} registry queued k s st :
  tracks registry st ->
  Forall (writable registry) queued ->
  m_compressor st = map entry_item queued ->
  registry !! k = Some s -> key_of s = k -> reportable s ->
  exists st' queued' events accepted,
    WriteSample_archive k st = Some (S_OK, st')
    /\ tracks registry st'
    /\ Forall (writable registry) queued'
    /\ m_compressor st' = map entry_item queued'
    /\ trace st' = trace st ++ events
    /\ archive_view events ++ concat (map entry_block queued')
       = concat (map entry_block queued) ++ concat (map entry_block accepted)
    /\ (accepted = [s] /\ SampleRef.OffLimits s = false
        /\ FAILED (AddStream_hr (trace st) (SampleRef.SampleName s) (SampleRef.CopyStream s))
           = false
        \/ accepted = []
           /\ (SampleRef.OffLimits s = true
               \/ FAILED (AddStream_hr (trace st) (SampleRef.SampleName s)
                                       (SampleRef.CopyStream s)) = true)).
Proof.
  intros Htr Hall Hq Hreg Hkey Hrep.
  destruct (Htr _ _ Hreg) as (s1 & Hk1 & Hsame).
  unfold WriteSample_archive. rewrite Hk1. cbn [mbind option_bind].
  rewrite (same_OffLimits _ _ Hsame).
  destruct (SampleRef.OffLimits s) eqn:Hoff.
  { exists st, queued, [], []. cbn [map concat]. rewrite !app_nil_r. auto 12. }
  destruct (same_report_reportable _ _ Hsame Hrep) as [[[[front name] attr] Hfront] _].
  rewrite Hfront. cbn [mbind option_bind].
  assert (Hitem : mkArchiveItem (SampleRef.SampleName s1)
                    (GetMatchFullName front name attr)
                    (SampleRef.CopyStream s1) (Some k) = entry_item s).
  { rewrite <- (same_report_entry_item _ _ Hsame). unfold entry_item.
    now rewrite Hfront, (same_key _ _ Hsame), Hkey. }
  assert (Hw : Forall (writable registry) (queued ++ [s])).
  { apply Forall_app. split; [exact Hall|]. constructor; [|constructor].
    unfold writable. rewrite Hkey. auto. }
  unfold ArchiveCreate.AddStream. rewrite Hitem.
  rewrite <- (same_SampleName _ _ Hsame), <- (same_CopyStream _ _ Hsame).
  destruct (FAILED (AddStream_hr (trace st) (SampleRef.SampleName s1)
                                 (SampleRef.CopyStream s1))) eqn:Hhr.
  { eexists _, queued, [_], []. split; [reflexivity|]. split; [exact Htr|].
    split; [exact Hall|]. split; [exact Hq|]. split; [reflexivity|].
    cbn [map concat]. rewrite app_nil_r. split; [reflexivity|]. right. auto. }
  destruct (AddStream_flushes (trace st)).
  - set (st0 := set_compressor _ _).
    assert (Hq0 : m_compressor st0 = map entry_item (queued ++ [s])).
    { unfold st0. cbn [m_compressor set_compressor emit]. now rewrite Hq, map_app. }
    destruct (FlushQueue_blocks registry (queued ++ [s]) st0 Htr Hw Hq0)
      as (st' & ev & E & Htr' & Hq' & Ht' & Hv).
    rewrite E. cbn [mbind option_bind].
    exists st', [], (AddStream_call (SampleRef.SampleName s1)
                       (GetMatchFullName front name attr)
                       (SampleRef.CopyStream s1) :: ev), [s].
    split; [reflexivity|]. split; [exact Htr'|]. split; [constructor|].
    split; [exact Hq'|]. split.
    + rewrite Ht'. unfold st0. cbn [trace set_compressor emit]. now rewrite <- app_assoc.
    + split; [|left; auto]. cbn [map concat]. rewrite !app_nil_r.
      change (archive_view (?e :: ev)) with (archive_view ev).
      rewrite Hv, map_app, concat_app. cbn. now rewrite app_nil_r.
  - cbn [mbind option_bind].
    eexists _, (queued ++ [s]), [_], [s].
    split; [reflexivity|]. split; [exact Htr|]. split; [exact Hw|].
    split; [cbn [m_compressor set_compressor emit]; now rewrite Hq, map_app|].
    split; [reflexivity|]. split; [|left; auto].
    rewrite map_app, concat_app. cbn. now rewrite !app_nil_r.
Qed.

Lemma AddStream_answered_weaken `{Collaborators} failed a b c d s :
  a `prefix_of` b -> c `prefix_of` d ->
  AddStream_answered failed b c s -> AddStream_answered failed a d s.
Proof.
  intros Hab Hcd (history & Hb & Hc & Hf). exists history.
  split; [etrans; eassumption|]. split; [etrans; eassumption|exact Hf].
Qed.

Lemma write_to_archive_blocks `{Runtime} `{Collaborators} registry :
  (forall k s, registry !! k = Some s -> key_of s = k /\ reportable s) ->
  forall (elements : list (SampleKey * SampleRef.t)) queued st,
    Forall (fun p => registry !! p.1 = Some p.2) elements ->
    tracks registry st ->
    Forall (writable registry) queued ->
    m_compressor st = map entry_item queued ->
    let within := filter (fun s => SampleRef.OffLimits s = false) (map snd elements) in
    exists st' queued' events accepted,
      write_to_archive (map fst elements) st = Some st'
      /\ tracks registry st'
      /\ Forall (writable registry) queued'
      /\ m_compressor st' = map entry_item queued'
      /\ trace st' = trace st ++ events
      /\ archive_view events ++ concat (map entry_block queued')
         = concat (map entry_block queued) ++ concat (map entry_block accepted)
      /\ accepted `sublist_of` within
      /\ (forall s, s ∈ accepted -> AddStream_answered false (trace st) (trace st') s)
      /\ (forall s, s ∈ within -> s ∉ accepted ->
                    AddStream_answered true (trace st) (trace st') s)
      /\ ((forall history name stream, FAILED (AddStream_hr history name stream) = false) ->
          accepted = within).
Proof.
  intros Hwf elements.
  induction elements as [|[k s] rest IH]; intros queued st Hel Htr Hall Hq within.
  - exists st, queued, [], []. subst within. cbn [map fst snd write_to_archive concat].
    rewrite filter_nil, !app_nil_r.
    split; [reflexivity|]. split; [exact Htr|]. split; [exact Hall|]. split; [exact Hq|].
    split; [reflexivity|]. split; [reflexivity|]. split; [apply sublist_nil|].
    split; [|split; [|reflexivity]].
    + intros s Hin. now apply elem_of_nil in Hin.
    + intros s Hin. now apply elem_of_nil in Hin.
  - apply Forall_cons in Hel. destruct Hel as [Hreg Hel]. cbn [fst snd] in Hreg.
    destruct (Hwf _ _ Hreg) as [Hkey Hrep].
    destruct (WriteSample_archive_blocks registry queued k s st Htr Hall Hq Hreg Hkey Hrep)
      as (st1 & q1 & ev1 & acc1 & E1 & Htr1 & Hall1 & Hq1 & Ht1 & Hv1 & Hacc1).
    destruct (IH q1 st1 Hel Htr1 Hall1 Hq1)
      as (st2 & q2 & ev2 & acc2 & E2 & Htr2 & Hall2 & Hq2 & Ht2 & Hv2 & Hsub & Hyes & Hno & Hnever).
    assert (P1 : trace st `prefix_of` trace st1) by (rewrite Ht1; now exists ev1).
    assert (P2 : trace st1 `prefix_of` trace st2) by (rewrite Ht2; now exists ev2).
    assert (Hhere : forall failed,
               FAILED (AddStream_hr (trace st) (SampleRef.SampleName s)
                                    (SampleRef.CopyStream s)) = failed ->
               AddStream_answered failed (trace st) (trace st2) s).
    { intros failed Hf. exists (trace st). split; [reflexivity|]. split; [|exact Hf].
      etrans; eassumption. }
    exists st2, q2, (ev1 ++ ev2), (acc1 ++ acc2). cbn [map fst write_to_archive].
    rewrite E1. cbn [mbind option_bind]. split; [exact E2|]. split; [exact Htr2|].
    split; [exact Hall2|]. split; [exact Hq2|]. split.
    { rewrite Ht2, Ht1. now rewrite app_assoc. }
    split.
    { rewrite archive_view_app, <- app_assoc, Hv2, app_assoc, Hv1, <- app_assoc.
      now rewrite map_app, concat_app. }
    subst within. cbn [snd map].
    destruct Hacc1 as [(-> & Hoff & Hok)|(-> & Hwhy)].
    + rewrite filter_cons_True by exact Hoff. cbn [app]. split; [now apply sublist_skip|].
      split; [|split].
      * intros s' Hin. apply elem_of_cons in Hin. destruct Hin as [->|Hin]; [now apply Hhere|].
        eapply AddStream_answered_weaken; [exact P1|reflexivity|now apply Hyes].
      * intros s' Hin Hout. apply not_elem_of_cons in Hout. destruct Hout as [Hne Hout].
        apply elem_of_cons in Hin. destruct Hin as [->|Hin]; [congruence|].
        eapply AddStream_answered_weaken; [exact P1|reflexivity|now apply Hno].
      * intros Hn. now rewrite (Hnever Hn).
    + cbn [app]. destruct (SampleRef.OffLimits s) eqn:Hoff.
      * rewrite filter_cons_False by congruence. split; [exact Hsub|].
        split; [|split; [|exact Hnever]].
        -- intros s' Hin. eapply AddStream_answered_weaken; [exact P1|reflexivity|now apply Hyes].
        -- intros s' Hin Hout.
           eapply AddStream_answered_weaken; [exact P1|reflexivity|now apply Hno].
      * destruct Hwhy as [[=]|Hfail].
        rewrite filter_cons_True by exact Hoff. split; [now apply sublist_cons|].
        split; [|split].
        -- intros s' Hin. eapply AddStream_answered_weaken; [exact P1|reflexivity|now apply Hyes].
        -- intros s' Hin Hout. apply elem_of_cons in Hin.
           destruct Hin as [->|Hin]; [now apply Hhere|].
           eapply AddStream_answered_weaken; [exact P1|reflexivity|now apply Hno].
        -- intros Hn. now rewrite Hn in Hfail.
Qed.


(** ** The name search always ends

    The names tried at different indices differ, so a search given one turn
    more than [SampleNames] has members finds an unused name, unless a name
    does not fit the buffer. *)

Lemma render_app a b : Printf.render (a ++ b) = Printf.render a ++ Printf.render b.
Proof. unfold Printf.render. now rewrite map_app, concat_app. Qed.

Lemma dec_value_snoc s c : dec_value (s ++ [c]) = dec_value s * 10 + (c - 48).
Proof. unfold dec_value. now rewrite fold_left_app. Qed.

Lemma dec_value_digits n :
  forall v, 0 <= v < 10 ^ Z.of_nat n ->
            dec_value (Printf.digits 10 Printf.dec_glyph n v) = v.
Proof.
  induction n as [|n IH]; intros v Hv.
  - cbn in *. unfold dec_value. cbn. lia.
  - cbn [Printf.digits]. destruct (Z.eqb_spec v 0) as [->|Hne]; [reflexivity|].
    rewrite dec_value_snoc, IH.
    + unfold Printf.dec_glyph. pose proof (Z.div_mod v 10). lia.
    + rewrite Nat2Z.inj_succ, Z.pow_succ_r in Hv by lia.
      split; [apply Z.div_pos; lia|apply Z.div_lt_upper_bound; lia].
Qed.

Lemma digits_are_digits n :
  forall v, 0 <= v ->
            Forall (fun c => 48 <= c <= 57) (Printf.digits 10 Printf.dec_glyph n v).
Proof.
  induction n as [|n IH]; intros v Hv; cbn [Printf.digits]; [constructor|].
  destruct (v =? 0); [constructor|].
  apply Forall_app. split.
  - apply IH. apply Z.div_pos; lia.
  - constructor; [|constructor]. unfold Printf.dec_glyph.
    pose proof (Z.mod_pos_bound v 10). lia.
Qed.

Lemma digits_not_empty n v :
  v <> 0 -> (0 < length (Printf.digits 10 Printf.dec_glyph (S n) v))%nat.
Proof.
  intros Hv. cbn [Printf.digits]. apply Z.eqb_neq in Hv. rewrite Hv.
  rewrite length_app. cbn. lia.
Qed.

Lemma convert_Unsigned idx :
  0 < idx < 2 ^ 32 ->
  Printf.convert (Printf.Unsigned idx) = Printf.digits 10 Printf.dec_glyph 10 idx.
Proof.
  intros Hi. cbn [Printf.convert]. rewrite Z.mod_small by lia.
  destruct (Z.eqb_spec idx 0); [lia|reflexivity].
Qed.

Lemma name_format_indexed `{Runtime} Content fn DataName idx :
  idx <> 0 ->
  Printf.render (name_format Content fn DataName idx)
  = before_index Content fn DataName
    ++ Printf.convert (Printf.Unsigned idx) ++ after_index Content.
Proof.
  intros Hi. unfold name_format, before_index, after_index.
  apply Z.eqb_neq in Hi. rewrite Hi. cbn [negb].
  destruct (negb (length DataName =? 0)%nat);
    rewrite !render_app; unfold Printf.render; cbn [map concat];
    rewrite ?app_nil_r, <- ?app_assoc; reflexivity.
Qed.

Lemma name_format_zero_length `{Runtime} Content fn DataName :
  (length (Printf.render (name_format Content fn DataName 0))
   <= length (before_index Content fn DataName) + length (after_index Content))%nat.
Proof.
  unfold name_format, before_index, after_index. cbn [Z.eqb negb].
  destruct (negb (length DataName =? 0)%nat);
    rewrite !render_app; unfold Printf.render at 2 4 5; cbn [map concat];
    rewrite !length_app; cbn [length]; lia.
Qed.

Lemma map_on_digits `{Runtime} s :
  (forall c, 48 <= c <= 57 -> iswspace c = false) ->
  Forall (fun c => 48 <= c <= 57) s -> map replace_item s = s.
Proof.
  intros Hdigit. induction 1 as [|c s Hc _ IH]; [reflexivity|].
  cbn [map]. rewrite IH. f_equal. unfold replace_item. rewrite (Hdigit c Hc).
  destruct (Z.eqb_spec c 58); [lia|]. destruct (Z.eqb_spec c 35); [lia|]. reflexivity.
Qed.

Lemma formatted_name_inj `{Runtime} Content fn DataName i j :
  (forall c, 48 <= c <= 57 -> iswspace c = false) ->
  0 <= i < 2 ^ 32 -> 0 <= j < 2 ^ 32 ->
  map replace_item (Printf.render (name_format Content fn DataName i))
  = map replace_item (Printf.render (name_format Content fn DataName j)) ->
  i = j.
Proof.
  intros Hdigit Hi Hj Heq.
  assert (Hzero : forall k, 0 < k < 2 ^ 32 ->
            length (Printf.render (name_format Content fn DataName 0))
            <> length (Printf.render (name_format Content fn DataName k))).
  { intros k Hk. rewrite (name_format_indexed _ _ _ k) by lia.
    rewrite convert_Unsigned by exact Hk. rewrite !length_app.
    pose proof (name_format_zero_length Content fn DataName).
    pose proof (digits_not_empty 9 k). lia. }
  destruct (Z.eq_dec i 0) as [->|Hi0]; destruct (Z.eq_dec j 0) as [->|Hj0]; [reflexivity| | |].
  - exfalso. apply (Hzero j); [lia|]. apply (f_equal length) in Heq.
    now rewrite !length_map in Heq.
  - exfalso. apply (Hzero i); [lia|]. apply (f_equal length) in Heq.
    now rewrite !length_map in Heq.
  - rewrite !name_format_indexed, !map_app in Heq by assumption.
    apply app_inv_head in Heq.
    apply app_inv_tail in Heq.
    rewrite !convert_Unsigned in Heq by lia.
    rewrite !map_on_digits in Heq by (try assumption; apply digits_are_digits; lia).
    rewrite <- (dec_value_digits 10 i), <- (dec_value_digits 10 j) by (cbn; lia).
    now rewrite Heq.
Qed.

Lemma candidate_inj `{Runtime} (Content : ContentSpec) (fn : FILE_NAME)
    (AttrName specName : wstring) (i j : Z) :
  (forall c, 48 <= c <= 57 -> iswspace c = false) ->
  0 <= i < 2 ^ 32 -> 0 <= j < 2 ^ 32 ->
  candidate Content fn AttrName specName i = candidate Content fn AttrName specName j ->
  i = j.
Proof.
  intros Hdigit Hi Hj. unfold candidate. cbv zeta.
  destruct (decide (specName = [])); intros Heq.
  - eapply formatted_name_inj; eassumption.
  - apply app_inv_head in Heq. apply app_inv_head in Heq.
    eapply formatted_name_inj; eassumption.
Qed.

(** Names already tried and found taken are members of [SampleNames]:
    there are no more of them than the set has members. *)
Lemma tried_names_bound `{Runtime} (Content : ContentSpec) (fn : FILE_NAME)
    (AttrName specName : wstring) (names : gset wstring) (i : Z) :
  (forall c, 48 <= c <= 57 -> iswspace c = false) ->
  0 <= i <= 2 ^ 32 ->
  (forall j, 0 <= j < i -> candidate Content fn AttrName specName j ∈ names) ->
  i <= Z.of_nat (size names).
Proof.
  intros Hdigit Hi Htried.
  set (tried := candidate Content fn AttrName specName <$> seqZ 0 i).
  assert (Hnd : NoDup tried).
  { apply NoDup_fmap_2_strong; [|apply NoDup_seqZ].
    intros a b Ha%elem_of_seqZ Hb%elem_of_seqZ. apply candidate_inj; auto; lia. }
  assert (Hsub : list_to_set (C := gset wstring) tried ⊆ names).
  { intros x Hx. apply elem_of_list_to_set, list_elem_of_fmap in Hx.
    destruct Hx as (j & -> & Hj%elem_of_seqZ). apply Htried. lia. }
  apply subseteq_size in Hsub. rewrite size_list_to_set in Hsub by exact Hnd.
  unfold tried in Hsub. rewrite length_fmap, length_seqZ in Hsub. lia.
Qed.

(** A null [FILENAME()] ends the search at once, with the name as it was. *)
Lemma name_search_null `{Runtime} (Content : ContentSpec) (name : Name.t)
    (AttrName specName : wstring) (names : gset wstring) (fuel : nat) (idx : Z)
    (cab : wstring) :
  Name.FILENAME name = None ->
  name_search (S fuel) Content name AttrName specName names idx cab
  = Some (E_POINTER, cab).
Proof. intros Hnull. cbn [name_search]. now rewrite Hnull. Qed.

Lemma name_search_step `{Runtime} (Content : ContentSpec) (name : Name.t)
    (fn : FILE_NAME) (AttrName specName : wstring) (names : gset wstring)
    (fuel : nat) (idx : Z) (cab : wstring) :
  Name.FILENAME name = Some fn ->
  fits Content fn AttrName idx ->
  name_search (S fuel) Content name AttrName specName names idx cab
  = if decide (candidate Content fn AttrName specName idx ∈ names)
    then name_search fuel Content name AttrName specName names (add32 idx 1)
                     (candidate Content fn AttrName specName idx)
    else Some (S_OK, candidate Content fn AttrName specName idx).
Proof.
  intros Hfn Hfit. cbn [name_search]. rewrite Hfn.
  unfold CreateSampleFileName, Printf.swprintf_s.
  apply Nat.ltb_lt in Hfit. rewrite Hfit. cbn [FAILED S_OK Z.ltb Z.compare].
  unfold candidate. cbv zeta. destruct (decide (specName = [])); reflexivity.
Qed.

Lemma name_search_from `{Runtime} (Content : ContentSpec) (name : Name.t)
    (fn : FILE_NAME) (AttrName specName : wstring) (names : gset wstring)
    (fuel : nat) :
  Name.FILENAME name = Some fn ->
  (forall c, 48 <= c <= 57 -> iswspace c = false) ->
  forall idx cab,
    0 <= idx -> idx + Z.of_nat fuel < 2 ^ 32 ->
    (forall j, idx <= j < idx + Z.of_nat fuel -> fits Content fn AttrName j) ->
    (forall j, 0 <= j < idx -> candidate Content fn AttrName specName j ∈ names) ->
    Z.of_nat (size names) < idx + Z.of_nat fuel ->
    exists found,
      name_search fuel Content name AttrName specName names idx cab = Some (S_OK, found)
      /\ found ∉ names.
Proof.
  intros Hfn Hdigit.
  induction fuel as [|fuel IH]; intros idx cab Hidx Hmax Hfits Htried Hsize.
  - assert (idx <= Z.of_nat (size names)); [|lia].
    apply (tried_names_bound Content fn AttrName specName names idx Hdigit); [lia|].
    exact Htried.
  - rewrite (name_search_step _ _ fn) by (try exact Hfn; apply Hfits; lia).
    destruct (decide (_ ∈ names)) as [Hin|Hout]; [|eauto].
    assert (Hnext : add32 idx 1 = idx + 1) by (unfold add32; apply Z.mod_small; lia).
    rewrite Hnext. apply IH; try lia.
    + intros j Hj. apply Hfits. lia.
    + intros j Hj. destruct (Z.eq_dec j idx) as [->|]; [exact Hin|apply Htried; lia].
Qed.

(** The search as [AddSamplesForMatch] starts it comes back with an unused
    name whenever the names it formats fit the buffer. *)
Lemma name_search_finds_unused_name `{Runtime} (Content : ContentSpec) (name : Name.t)
    (fn : FILE_NAME) (AttrName specName : wstring) (names : gset wstring) :
  Name.FILENAME name = Some fn ->
  (forall c, 48 <= c <= 57 -> iswspace c = false) ->
  Z.of_nat (size names) + 1 < 2 ^ 32 ->
  (forall j, 0 <= j <= Z.of_nat (size names) -> fits Content fn AttrName j) ->
  exists found,
    name_search (S (size names)) Content name AttrName specName names 0 []
    = Some (S_OK, found)
    /\ found ∉ names.
Proof.
  intros Hfn Hdigit Hsize Hfits.
  apply (name_search_from _ _ fn); try assumption; try lia.
  intros j Hj. apply Hfits. lia.
Qed.

(** ** Ingestion comes back

    [AddSamplesForMatch] returns, for any registry and any limit status,
    when the match has a name and the names it may format fit the buffer. *)

Lemma size_add_name (x : wstring) (names : gset wstring) :
  (size ({[x]} ∪ names) <= S (size names))%nat.
Proof.
  destruct (decide (x ∈ names)) as [Hin|Hout].
  - rewrite (subseteq_union_1_L {[x]} names) by now apply singleton_subseteq_l. lia.
  - rewrite size_union by set_solver. rewrite size_singleton. lia.
Qed.

Lemma name_sample_total `{Runtime} aSpec anAttr date MatchingNames :
  (forall c, 48 <= c <= 57 -> iswspace c = false) ->
  (forall name fn j, name ∈ MatchingNames -> Name.FILENAME name = Some fn ->
                     0 <= j < 2 ^ 32 ->
                     fits (SampleSpec.Content aSpec) fn (Attribute.AttrName anAttr) j) ->
  forall sampleRef (names : gset wstring),
    Z.of_nat (size names) + Z.of_nat (length MatchingNames) + 1 < 2 ^ 32 ->
    exists sampleRef' names',
      name_sample aSpec anAttr date MatchingNames sampleRef names = Some (sampleRef', names')
      /\ (size names' <= size names + length MatchingNames)%nat.
Proof.
  intros Hdigit. induction MatchingNames as [|name rest IH]; intros Hfits s names Hsize.
  - exists s, names. split; [reflexivity|lia].
  - cbn [name_sample length] in *.
    change (SampleRef.Content (SampleRef.set_Content (SampleSpec.Content aSpec) date s))
      with (SampleSpec.Content aSpec).
    assert (Hsearch : exists hr found,
               name_search (S (size names)) (SampleSpec.Content aSpec) name
                           (Attribute.AttrName anAttr) (SampleSpec.Name aSpec) names 0 []
               = Some (hr, found)).
    { destruct (Name.FILENAME name) as [fn|] eqn:Hfn.
      - destruct (name_search_finds_unused_name (SampleSpec.Content aSpec) name fn
                    (Attribute.AttrName anAttr) (SampleSpec.Name aSpec) names Hfn Hdigit)
          as (found & Hfound & _); [lia| |eauto].
        intros j Hj. apply (Hfits name); [left|exact Hfn|lia].
      - rewrite name_search_null by exact Hfn. eauto. }
    destruct Hsearch as (hr & found & ->). cbn [mbind option_bind].
    pose proof (size_add_name found names) as Hgrow.
    destruct (IH (fun n fn j Hn => Hfits n fn j (list_elem_of_further _ _ _ Hn))
                 (SampleRef.set_SampleName found
                    (SampleRef.set_Content (SampleSpec.Content aSpec) date s))
                 ({[found]} ∪ names))
      as (s' & names' & Hrest & Hle).
    { lia. }
    exists s', names'. split; [exact Hrest|]. lia.
Qed.

Lemma ConfigureSampleStreams_total `{Runtime} `{Collaborators} sampleRef st :
  is_Some (SampleRef.attribute sampleRef) ->
  exists hr sampleRef' st', ConfigureSampleStreams sampleRef st = Some (hr, sampleRef', st').
Proof.
  intros [attr Hattr]. unfold ConfigureSampleStreams. rewrite Hattr.
  destruct (decide _); [eauto|]. cbn [mbind option_bind].
  destruct (select_stream _ _ _) as [[hr1 stream] st1].
  destruct (FAILED hr1); [eauto|].
  destruct (chain_crypto _ _ _) as [[[hr2 up2] s2] st2].
  destruct (FAILED hr2); [eauto|].
  destruct (chain_fuzzy _ _ _) as [[[hr3 up3] s3] st3].
  destruct (FAILED hr3); eauto.
Qed.

Lemma add_sample_for_attribute_total `{Runtime} `{Collaborators}
    status aSpec aMatch sIndex anAttr st :
  (forall c, 48 <= c <= 57 -> iswspace c = false) ->
  names_fit aSpec aMatch ->
  is_Some (head (Match.MatchingNames aMatch)) ->
  Match.MatchingAttributes aMatch !! sIndex = Some anAttr ->
  Z.of_nat (size (SampleNames st)) + Z.of_nat (length (Match.MatchingNames aMatch)) + 1
  < 2 ^ 32 ->
  exists hr st',
    add_sample_for_attribute status aSpec aMatch sIndex anAttr st = Some (hr, st')
    /\ (size (SampleNames st')
        <= size (SampleNames st) + length (Match.MatchingNames aMatch))%nat.
Proof.
  intros Hdigit Hfit [front Hfront] Hattr Hsize. unfold add_sample_for_attribute. cbv zeta.
  set (d := draft_sample status aMatch anAttr sIndex).
  destruct (Samples st !! key_of d).
  { exists S_FALSE, st. rewrite Hfront. split; [reflexivity|lia]. }
  destruct (name_sample_total aSpec anAttr (CollectionDate st) (Match.MatchingNames aMatch)
              Hdigit
              (fun n fn j Hn Hfn Hj =>
                 Hfit n fn anAttr j Hn Hfn (list_elem_of_lookup_2 _ _ _ Hattr) Hj)
              d (SampleNames st) Hsize)
    as (s1 & names & Hnamed & Hle).
  rewrite Hnamed. cbn [mbind option_bind].
  destruct (name_sample_keeps _ _ _ _ _ _ _ _ Hnamed) as [K _].
  destruct (ConfigureSampleStreams_total s1 (set_SampleNames names st))
    as (hr & s2 & st2 & Hconf).
  { unfold SampleRef.attribute.
    rewrite (keeps_Matches _ _ K), (keeps_AttributeIndex _ _ K). cbn. eauto. }
  rewrite Hconf. cbn [mbind option_bind]. eexists _, _. split; [reflexivity|].
  destruct (ConfigureSampleStreams_frame _ _ _ _ _ Hconf) as (_ & Q & _).
  destruct (quiet_fields _ _ Q) as (_ & _ & _ & Hn & _). cbn in Hn |- *. now rewrite Hn.
Qed.

Lemma add_samples_for_attributes_total `{Runtime} `{Collaborators}
    status aSpec aMatch attrs :
  (forall c, 48 <= c <= 57 -> iswspace c = false) ->
  names_fit aSpec aMatch ->
  is_Some (head (Match.MatchingNames aMatch)) ->
  forall sIndex hr0 st,
    drop sIndex (Match.MatchingAttributes aMatch) = attrs ->
    Z.of_nat (size (SampleNames st))
    + Z.of_nat (length attrs * length (Match.MatchingNames aMatch)) + 1 < 2 ^ 32 ->
    exists hr st',
      add_samples_for_attributes status aSpec aMatch sIndex attrs hr0 st = Some (hr, st').
Proof.
  intros Hdigit Hfit Hfront.
  induction attrs as [|anAttr rest IH]; intros sIndex hr0 st Hdrop Hsize.
  - cbn. eauto.
  - assert (Hattr : Match.MatchingAttributes aMatch !! sIndex = Some anAttr).
    { rewrite <- (Nat.add_0_r sIndex), <- lookup_drop, Hdrop. reflexivity. }
    cbn [length Nat.mul] in Hsize.
    destruct (add_sample_for_attribute_total status aSpec aMatch sIndex anAttr st
                Hdigit Hfit Hfront Hattr) as (hr1 & st1 & E1 & Hle); [lia|].
    cbn [add_samples_for_attributes]. rewrite E1. cbn [mbind option_bind].
    apply IH; [|lia].
    replace (S sIndex) with (sIndex + 1)%nat by lia.
    rewrite <- drop_drop, Hdrop. reflexivity.
Qed.

(** [AddSamplesForMatch] returns, and what it returns is [S_OK] or
    [S_FALSE]. *)
Lemma AddSamplesForMatch_total `{Runtime} `{Collaborators} status aSpec aMatch st :
  (forall c, 48 <= c <= 57 -> iswspace c = false) ->
  names_fit aSpec aMatch ->
  is_Some (head (Match.MatchingNames aMatch)) ->
  Z.of_nat (size (SampleNames st))
  + Z.of_nat (length (Match.MatchingAttributes aMatch)
              * length (Match.MatchingNames aMatch)) + 1 < 2 ^ 32 ->
  exists hr st',
    AddSamplesForMatch status aSpec aMatch st = Some (hr, st')
    /\ (hr = S_OK \/ hr = S_FALSE).
Proof.
  intros Hdigit Hfit Hfront Hsize. unfold AddSamplesForMatch.
  destruct (add_samples_for_attributes_total status aSpec aMatch
              (Match.MatchingAttributes aMatch) Hdigit Hfit Hfront 0 E_FAIL st eq_refl Hsize)
    as (hr & st' & E).
  rewrite E. cbn [mbind option_bind].
  destruct (decide (hr = S_FALSE)); eauto.
Qed.

(** * Further properties *)

(** ** The sample file name is a file name *)

Lemma replace_item_allowed `{Runtime} c :
  iswspace 95 = false ->
  iswspace (replace_item c) = false /\ replace_item c <> 58 /\ replace_item c <> 35.
Proof.
  intros Hus. unfold replace_item.
  destruct (iswspace c) eqn:Ew; cbn [orb].
  - rewrite Hus. repeat split; discriminate.
  - destruct (Z.eqb_spec c 58); cbn [orb].
    + rewrite Hus. repeat split; discriminate.
    + destruct (Z.eqb_spec c 35).
      * rewrite Hus. repeat split; discriminate.
      * rewrite Ew. repeat split; assumption.
Qed.

(** [CreateSampleFileName], when it does not fail, returns [S_OK] and a name
    that can be a file name: more than sixteen characters and fewer than
    [MAX_PATH], none of them white space, a colon or a number sign.  The
    underscore written in place of those is taken not to be white space. *)
Theorem CreateSampleFileName_is_a_file_name `{Runtime}
    (content : ContentSpec) (pFileName : PFILE_NAME) (DataName : wstring) (idx : Z)
    (SampleFileName : wstring) (hr : HRESULT) (name : wstring) :
  iswspace 95 = false ->
  CreateSampleFileName content pFileName DataName idx SampleFileName = Returned hr name ->
  FAILED hr = false ->
  hr = S_OK
  /\ (16 < length name < MAX_PATH)%nat
  /\ Forall (fun c => iswspace c = false /\ c <> 58 /\ c <> 35) name.
Proof.
  intros Hus. unfold CreateSampleFileName.
  destruct pFileName as [fn|]; [|intros [= <- <-]; discriminate].
  unfold Printf.swprintf_s.
  destruct (Nat.ltb_spec (length (Printf.render (name_format content fn DataName idx)))
                         MAX_PATH) as [Hlt|]; [|discriminate].
  intros [= <- <-] _. split; [reflexivity|]. split.
  - rewrite length_map. split; [|exact Hlt].
    unfold name_format.
    destruct (negb (idx =? 0)); destruct (negb (length DataName =? 0)%nat);
      rewrite render_app, length_app;
      unfold ParentDirectory_conversions, Printf.render at 1;
      cbn [map concat]; rewrite !length_app;
      unfold Printf.convert at 1 2 3, Printf.pad_left;
      rewrite !length_app, !length_replicate;
      unfold Printf.render; cbn [map concat Printf.convert]; rewrite !length_app;
      cbn [length L map list_ascii_of_string];
      unfold sizeof_SequenceNumber, sizeof_SegmentNumberHighPart, sizeof_SegmentNumberLowPart;
      lia.
  - apply List.Forall_map, Forall_true. intros c. now apply replace_item_allowed.
Qed.

(** ** The limits and the size *)

(** A sample that [SampleLimitStatus] lets through would also go through, with
    the same status, were it smaller: no test of the function fails for a
    smaller size (the 64-bit sums not wrapping). *)
Theorem SampleLimitStatus_accepts_smaller (glob loc : Limits) (size size' : Z) :
  0 <= size' <= size ->
  0 <= dwlAccumulatedBytesTotal glob -> size + dwlAccumulatedBytesTotal glob < 2 ^ 64 ->
  0 <= dwlAccumulatedBytesTotal loc -> size + dwlAccumulatedBytesTotal loc < 2 ^ 64 ->
  OffLimits_for (SampleLimitStatus glob loc size) = false ->
  SampleLimitStatus glob loc size' = SampleLimitStatus glob loc size.
Proof.
  intros Hs Hg0 Hg Hl0 Hl. unfold SampleLimitStatus.
  rewrite !add64_exact by lia.
  destruct (bIgnoreLimits glob); [reflexivity|].
  repeat match goal with
         | |- context [negb ?b && (?x >=? ?y)] =>
             destruct (negb b && (x >=? y)); [intros [=]|]
         end.
  repeat match goal with
         | |- context [negb ?b && (?x >? ?y)] =>
             let E := fresh "E" in
             destruct (negb b) eqn:E; cbn [andb]
         end;
  repeat match goal with
         | |- context [?x >? ?y] => destruct (Z.gtb_spec x y)
         end; cbn [OffLimits_for]; intros Hoff; try discriminate Hoff; try reflexivity; lia.
Qed.

(** ** The copy to a directory *)

Lemma HRESULT_FROM_WIN32_FAILED (x : Z) : x <> 0 -> FAILED (HRESULT_FROM_WIN32 x) = true.
Proof.
  intros Hx. unfold HRESULT_FROM_WIN32, FAILED.
  destruct (Z.leb_spec x 0); apply Z.ltb_lt; [lia|].
  assert (0 <= Z.land x 65535 < 2 ^ 16).
  { change 65535 with (Z.ones 16). rewrite Z.land_ones by lia. apply Z.mod_pos_bound. lia. }
  assert (Z.lor (Z.land x 65535) 0x80070000 < 2 ^ 32); [|lia].
  apply Z.log2_lt_cancel. rewrite Z.log2_lor by lia.
  change (Z.log2 (2 ^ 32)) with 32. change (Z.log2 0x80070000) with 31.
  assert (Z.log2 (Z.land x 65535) < 16).
  { destruct (Z.eq_dec (Z.land x 65535) 0) as [->|]; [cbn; lia|].
    apply Z.log2_lt_pow2; lia. }
  lia.
Qed.

Lemma CopyStream_cases `{Runtime} `{Collaborators}
    (src : ByteStream) (outPath : wstring) (st : Main) (hr : HRESULT) (st' : Main) :
  CopyStream src outPath st = (hr, st') ->
  (hr = S_OK /\ st' = log (CopyStream_calls src outPath) st)
  \/ (FAILED hr = true
      /\ exists n, (0 < n <= 4)%nat /\ st' = log (take n (CopyStream_calls src outPath)) st).
Proof.
  unfold CopyStream, CopyStream_calls.
  destruct (Z.eqb_spec (create_directories_ec (trace st) (parent_path outPath)) 0)
    as [Hec|Hec]; cbn [negb].
  2:{ intros [= <- <-]. right. split; [now apply HRESULT_FROM_WIN32_FAILED|].
      exists 1%nat. split; [lia|reflexivity]. }
  destruct (FAILED (WriteTo_hr _ _)) eqn:F1.
  { intros [= <- <-]. right. split; [exact F1|]. exists 2%nat. split; [lia|].
    cbn [take]. unfold log, emit. cbn. now rewrite <- app_assoc. }
  destruct (FAILED (CopyTo_hr _ _ _)) eqn:F2.
  { intros [= <- <-]. right. split; [exact F2|]. exists 3%nat. split; [lia|].
    cbn [take]. unfold log, emit. cbn. now rewrite <- !app_assoc. }
  destruct (FAILED (CloseOutput_hr _ _)) eqn:F3.
  { intros [= <- <-]. right. split; [exact F3|]. exists 4%nat. split; [lia|].
    cbn [take]. unfold log, emit. cbn. now rewrite <- !app_assoc. }
  intros [= <- <-]. left. split; [reflexivity|].
  unfold log, emit. cbn. now rewrite <- !app_assoc.
Qed.


(** The directory sink, for a sample within the limits: either it fails,
    having created the directory or not and made at most four calls of the
    copy, with no hash read and no row written; or it returns [S_OK], and
    then the whole copy was made, the hashes were read after it and the rows
    of the sample written last. *)
Theorem WriteSample_directory_row_follows_copy `{Runtime} `{Collaborators}
    (outputDir : wstring) (k : SampleKey) (s : SampleRef.t) (st : Main)
    (hr : HRESULT) (st' : Main) :
  Samples st !! k = Some s ->
  SampleRef.OffLimits s = false ->
  WriteSample_directory outputDir k st = Some (hr, st') ->
  let sampleFile := path_append outputDir (SampleRef.SampleName s) in
  (FAILED hr = true
   /\ exists n,
        (n <= 4)%nat
        /\ st' = log (create_directories (parent_path sampleFile)
                      :: match SampleRef.CopyStream s with
                         | Some src => take n (CopyStream_calls src sampleFile)
                         | None => []
                         end) st)
  \/ (hr = S_OK
      /\ exists src s' rs,
           SampleRef.CopyStream s = Some src
           /\ same_report s s'
           /\ sample_rows s' (SampleRef.Matches s') = Some rs
           /\ st' = log (create_directories (parent_path sampleFile)
                         :: CopyStream_calls src sampleFile
                         ++ finalize_calls s
                         ++ map (Row (key_of s')) rs)
                        (set_Samples (<[k := s']> (Samples st)) st)).
Proof.
  intros Hk Hoff. unfold WriteSample_directory. rewrite Hk. cbn [mbind option_bind].
  rewrite Hoff. cbv zeta.
  set (sampleFile := path_append outputDir (SampleRef.SampleName s)).
  destruct (Z.eqb_spec (create_directories_ec (trace st) (parent_path sampleFile)) 0)
    as [Hec|Hec]; cbn [negb].
  2:{ intros [= <- <-]. left. split; [now apply HRESULT_FROM_WIN32_FAILED|].
      exists 0%nat. split; [lia|]. cbn [take]. now destruct (SampleRef.CopyStream s). }
  destruct (SampleRef.CopyStream s) as [src|] eqn:Hsrc; [|discriminate].
  cbn [mbind option_bind].
  destruct (CopyStream src sampleFile _) as [hr1 st1] eqn:E1.
  destruct (CopyStream_cases _ _ _ _ _ E1)
    as [[-> ->]|(F1 & n & Hn & ->)].
  2:{ rewrite F1. intros [= <- <-]. left. split; [exact F1|].
      exists n. split; [lia|]. change (emit ?e st) with (log [e] st). now rewrite log_log. }
  cbn [FAILED S_OK Z.ltb Z.compare].
  change (emit ?e st) with (log [e] st). rewrite log_log. cbn [app].
  set (st1 := log _ st).
  destruct (FinalizeHashes_in_limits s st1 Hoff) as (s' & -> & Hsame).
  cbn [mbind option_bind].
  destruct (AddSampleRefToCSV _ _) as [[hr3 st3]|] eqn:Hcsv; [|discriminate].
  destruct (AddSampleRefToCSV_spec _ _ _ _ Hcsv) as (-> & rs & Hrs & ->).
  cbn [mbind option_bind FAILED S_OK Z.ltb Z.compare]. intros [= <- <-].
  right. split; [reflexivity|]. exists src, s', rs.
  split; [reflexivity|]. split; [exact Hsame|]. split; [exact Hrs|].
  unfold st1, log, set_Samples. cbn. f_equal. now rewrite <- !app_assoc.
Qed.

(** ** The chain of streams *)

Lemma select_stream_selected `{Collaborators} sampleRef attr st hr stream st' :
  select_stream sampleRef attr st = (hr, stream, st') ->
  stream = selected_stream (SampleRef.Content sampleRef) (content (config st)) attr.
Proof.
  unfold selected_stream.
  destruct (Type_ (SampleRef.Content sampleRef)) eqn:Ht.
  1,2,4: unfold select_stream; rewrite Ht; now intros [= <- <- <-].
  intros E. pose proof (select_stream_strings _ _ _ _ _ _ Ht E) as Hs.
  destruct (strings_bounds _ _) as [lo hi]. now destruct Hs as (-> & _).
Qed.

(** The streams [ConfigureSampleStreams] leaves in a sample.  On a failure the
    copy stream and the size are as they were.  On success the copy stream
    is the selected content, under the crypto-hash stream if a crypto
    algorithm is asked for, under the fuzzy-hash stream if a fuzzy one is;
    the fuzzy-hash stream reads from the crypto-hash one; and the size is
    that of the outermost stream. *)
Theorem ConfigureSampleStreams_chain `{Runtime} `{Collaborators}
    (sampleRef : SampleRef.t) (attr : Attribute.t) (st : Main)
    (hr : HRESULT) (sampleRef' : SampleRef.t) (st' : Main) :
  SampleRef.attribute sampleRef = Some attr ->
  ConfigureSampleStreams sampleRef st = Some (hr, sampleRef', st') ->
  let base := selected_stream (SampleRef.Content sampleRef) (content (config st)) attr in
  let crypto := CryptoHashAlgs (config st) in
  let fuzzy := FuzzyHashAlgs (config st) in
  (FAILED hr = true
   /\ SampleRef.CopyStream sampleRef' = SampleRef.CopyStream sampleRef
   /\ SampleRef.SampleSize sampleRef' = SampleRef.SampleSize sampleRef)
  \/ (hr = S_OK
      /\ SampleRef.HashStream sampleRef'
         = (if decide (crypto = Undefined) then SampleRef.HashStream sampleRef
            else Some (CryptoHashStream crypto base))
      /\ SampleRef.FuzzyHashStream sampleRef'
         = (if decide (fuzzy = Undefined) then SampleRef.FuzzyHashStream sampleRef
            else Some (FuzzyHashStream fuzzy (crypto_layer crypto base)))
      /\ SampleRef.CopyStream sampleRef'
         = Some (fuzzy_layer fuzzy (crypto_layer crypto base))
      /\ SampleRef.SampleSize sampleRef'
         = GetSize (trace st') (fuzzy_layer fuzzy (crypto_layer crypto base))).
Proof.
  intros Hattr. unfold ConfigureSampleStreams. rewrite Hattr. cbv zeta.
  destruct (decide _) as [|_]. { intros [= <- <- <-]. left. auto. }
  cbn [mbind option_bind].
  destruct (select_stream sampleRef attr st) as [[hr1 stream] st1] eqn:E1.
  pose proof (select_stream_selected _ _ _ _ _ _ E1) as ->.
  assert (Hc1 : config st1 = config st) by apply (quiet_fields _ _ (select_stream_quiet _ _ _ _ _ _ E1)).
  destruct (FAILED hr1) eqn:F1. { intros [= <- <- <-]. left. auto. }
  unfold chain_crypto, chain_fuzzy, crypto_layer, fuzzy_layer. rewrite Hc1.
  destruct (decide (CryptoHashAlgs (config st) = Undefined)) as [Hu|Hu].
  - cbn [FAILED S_OK Z.ltb Z.compare]. rewrite Hc1.
    destruct (decide (FuzzyHashAlgs (config st) = Undefined)) as [Hf|Hf].
    + cbn [FAILED S_OK Z.ltb Z.compare]. intros [= <- <- <-]. right. cbn. auto.
    + destruct (FAILED (FuzzyOpenToRead_hr _ _ _)) eqn:F3; intros [= <- <- <-].
      * left. auto.
      * right. cbn. auto.
  - destruct (FAILED (CryptoOpenToRead_hr _ _ _)) eqn:F2. { intros [= <- <- <-]. left. auto. }
    cbn [config emit]. rewrite Hc1.
    destruct (decide (FuzzyHashAlgs (config st) = Undefined)) as [Hf|Hf].
    + cbn [FAILED S_OK Z.ltb Z.compare]. intros [= <- <- <-]. right. cbn. auto.
    + destruct (FAILED (FuzzyOpenToRead_hr _ _ _)) eqn:F3; intros [= <- <- <-].
      * left. auto.
      * right. cbn. auto.
Qed.

(** ** The names of the registry *)

Lemma account_fields `{Runtime} `{Collaborators} status hr dwlDataSize aSpecIt st :
  Samples (account status hr dwlDataSize aSpecIt st) = Samples st
  /\ SampleNames (account status hr dwlDataSize aSpecIt st) = SampleNames st
  /\ m_compressor (account status hr dwlDataSize aSpecIt st) = m_compressor st
  /\ trace (account status hr dwlDataSize aSpecIt st) = trace st.
Proof.
  unfold account, update_global, update_spec.
  destruct status; try destruct (decide _); cbn; auto.
Qed.

Lemma name_search_result `{Runtime} (Content : ContentSpec) (name : Name.t)
    (AttrName specName : wstring) (names : gset wstring) (fuel : nat) :
  forall idx cab hr found,
    name_search fuel Content name AttrName specName names idx cab = Some (hr, found) ->
    (Name.FILENAME name = None /\ hr = E_POINTER /\ found = cab)
    \/ (hr = S_OK /\ found ∉ names).
Proof.
  induction fuel as [|fuel IH]; intros idx cab hr found; cbn [name_search]; [discriminate|].
  unfold CreateSampleFileName.
  destruct (Name.FILENAME name) as [fn|]; [|intros [= <- <-]; auto].
  destruct (Printf.swprintf_s _ _) as [tmpName|]; [|discriminate].
  cbn [FAILED S_OK Z.ltb Z.compare].
  destruct (decide (_ ∈ names)) as [Hin|Hout].
  - intros Hrest. destruct (IH _ _ _ _ Hrest) as [(Hnone & _)|Hok]; [discriminate|auto].
  - intros [= <- <-]. auto.
Qed.

Lemma name_sample_result `{Runtime} aSpec anAttr date MatchingNames :
  forall sampleRef (names : gset wstring) sampleRef' names',
    name_sample aSpec anAttr date MatchingNames sampleRef names = Some (sampleRef', names') ->
    names ⊆ names'
    /\ ((MatchingNames = [] /\ SampleRef.SampleName sampleRef' = SampleRef.SampleName sampleRef)
        \/ (MatchingNames <> []
            /\ SampleRef.SampleName sampleRef' ∈ names'
            /\ (SampleRef.SampleName sampleRef' = []
                \/ SampleRef.SampleName sampleRef' ∉ names))).
Proof.
  induction MatchingNames as [|name rest IH]; intros s names s' names'; cbn [name_sample].
  - intros [= <- <-]. auto.
  - destruct (name_search _ _ _ _ _ _ _ _) as [[hr cab]|] eqn:Es; [|discriminate].
    cbn [mbind option_bind]. intros Hrest.
    destruct (IH _ _ _ _ Hrest) as [Hsub Hname].
    assert (Hgrow : names ⊆ names').
    { etrans; [apply (union_subseteq_r {[cab]} names)|exact Hsub]. }
    split; [exact Hgrow|]. right. split; [discriminate|].
    assert (Hcab : cab = [] \/ cab ∉ names).
    { destruct (name_search_result _ _ _ _ _ _ _ _ _ _ Es) as [(_ & _ & ->)|[_ Hout]]; auto. }
    destruct Hname as [[-> Hsame]|(_ & Hin & Hfresh)].
    + rewrite Hsame. cbn. split; [|exact Hcab].
      apply Hsub, elem_of_union_l, elem_of_singleton. reflexivity.
    + split; [exact Hin|]. destruct Hfresh as [|Hout]; [auto|]. right.
      intros Hold. apply Hout, elem_of_union_r, Hold.
Qed.

Lemma ConfigureSampleStreams_SampleName `{Runtime} `{Collaborators} sampleRef st hr sampleRef' st' :
  ConfigureSampleStreams sampleRef st = Some (hr, sampleRef', st') ->
  SampleRef.SampleName sampleRef' = SampleRef.SampleName sampleRef.
Proof.
  unfold ConfigureSampleStreams.
  destruct (decide _) as [|_]; [now intros [= <- <- <-]|].
  destruct (SampleRef.attribute sampleRef) as [attr|]; [|discriminate].
  cbn [mbind option_bind].
  destruct (select_stream sampleRef attr st) as [[hr1 stream] st1].
  destruct (FAILED hr1); [now intros [= <- <- <-]|].
  unfold chain_crypto, chain_fuzzy.
  repeat match goal with
         | |- context [decide ?P] => destruct (decide P)
         | |- context [FAILED ?x] => destruct (FAILED x)
         end; now intros [= <- <- <-].
Qed.

Lemma add_sample_for_attribute_new `{Runtime} `{Collaborators}
    status aSpec aMatch sIndex anAttr st hr st' :
  Samples st !! key_of (draft_sample status aMatch anAttr sIndex) = None ->
  add_sample_for_attribute status aSpec aMatch sIndex anAttr st = Some (hr, st') ->
  exists s1 names s2 st2,
    name_sample aSpec anAttr (CollectionDate st) (Match.MatchingNames aMatch)
                (draft_sample status aMatch anAttr sIndex) (SampleNames st)
    = Some (s1, names)
    /\ ConfigureSampleStreams s1 (set_SampleNames names st) = Some (hr, s2, st2)
    /\ key_of s2 = key_of (draft_sample status aMatch anAttr sIndex)
    /\ st' = set_Samples (<[key_of s2 := s2]> (Samples st)) st2
    /\ quiet (set_SampleNames names st) st2.
Proof.
  intros Hnone. unfold add_sample_for_attribute. cbv zeta. rewrite Hnone.
  destruct (name_sample _ _ _ _ _ _) as [[s1 names]|] eqn:En; [|discriminate].
  cbn [mbind option_bind].
  destruct (ConfigureSampleStreams s1 _) as [[[hr2 s2] st2]|] eqn:Ec; [|discriminate].
  cbn [mbind option_bind]. intros [= <- <-].
  destruct (name_sample_keeps _ _ _ _ _ _ _ _ En) as [K1 _].
  destruct (ConfigureSampleStreams_frame _ _ _ _ _ Ec) as (_ & Q & K2 & _).
  exists s1, names, s2, st2. split; [reflexivity|]. split; [exact Ec|].
  split; [now rewrite (keeps_key _ _ K2), (keeps_key _ _ K1)|].
  split; [|exact Q].
  destruct (quiet_fields _ _ Q) as (_ & _ & -> & _). reflexivity.
Qed.

Lemma add_sample_for_attribute_names `{Runtime} `{Collaborators}
    status aSpec aMatch sIndex anAttr st hr st' :
  add_sample_for_attribute status aSpec aMatch sIndex anAttr st = Some (hr, st') ->
  names_reserved st /\ names_distinct st ->
  names_reserved st' /\ names_distinct st'.
Proof.
  intros Hadd [Hres Hdis].
  destruct (Samples st !! key_of (draft_sample status aMatch anAttr sIndex)) as [prev|] eqn:Hk.
  { unfold add_sample_for_attribute in Hadd. cbv zeta in Hadd. rewrite Hk in Hadd.
    destruct (head _); [|discriminate]. injection Hadd as <- <-. auto. }
  destruct (add_sample_for_attribute_new _ _ _ _ _ _ _ _ Hk Hadd)
    as (s1 & names & s2 & st2 & En & Ec & Hkey & -> & Q).
  destruct (quiet_fields _ _ Q) as (_ & _ & _ & Hn & _). cbn in Hn.
  destruct (name_sample_result _ _ _ _ _ _ _ _ En) as [Hsub Hname].
  pose proof (ConfigureSampleStreams_SampleName _ _ _ _ _ Ec) as Hsame.
  assert (Hnew : SampleRef.SampleName s2 = []
                 \/ (SampleRef.SampleName s2 ∈ names
                     /\ SampleRef.SampleName s2 ∉ SampleNames st)).
  { rewrite Hsame. destruct Hname as [[_ ->]|(_ & Hin & [->|Hout])]; auto. }
  rewrite Hkey. set (k := key_of (draft_sample status aMatch anAttr sIndex)) in *.
  split.
  - intros k' s'. cbn [Samples SampleNames set_Samples]. rewrite Hn.
    destruct (decide (k = k')) as [<-|Hne].
    + rewrite lookup_insert_eq. intros [= <-] Hne. destruct Hnew as [|[Hin _]]; tauto.
    + rewrite lookup_insert_ne by exact Hne. intros Hk' Hne'.
      apply Hsub. eapply Hres; eassumption.
  - intros k1 k2 t1 t2. cbn [Samples set_Samples].
    destruct (decide (k = k1)) as [<-|Hne1]; destruct (decide (k = k2)) as [<-|Hne2].
    + congruence.
    + rewrite lookup_insert_eq, lookup_insert_ne by exact Hne2.
      intros [= <-] H2 _ Hnamed. destruct Hnew as [|[_ Hout]]; [contradiction|].
      intros Heq. destruct (decide (SampleRef.SampleName t2 = [])) as [He|He]; [congruence|].
      apply Hout. rewrite Heq. eapply Hres; eassumption.
    + rewrite lookup_insert_eq, lookup_insert_ne by exact Hne1.
      intros H1 [= <-] _ Hnamed. destruct Hnew as [->|[_ Hout]]; [exact Hnamed|].
      intros Heq. apply Hout. rewrite <- Heq. eapply Hres; eassumption.
    + rewrite !lookup_insert_ne by assumption. apply Hdis.
Qed.

Section IngestionInvariant.
Context `{Runtime} `{Collaborators}.
Variable P : Main -> Prop.
Hypothesis P_attribute :
  forall status aSpec aMatch sIndex anAttr st hr st',
    P st -> add_sample_for_attribute status aSpec aMatch sIndex anAttr st = Some (hr, st') ->
    P st'.
Hypothesis P_account :
  forall status hr dwlDataSize aSpecIt st, P st -> P (account status hr dwlDataSize aSpecIt st).

Lemma add_samples_for_attributes_P status aSpec aMatch attrs :
  forall sIndex hr0 st hr st',
    P st ->
    add_samples_for_attributes status aSpec aMatch sIndex attrs hr0 st = Some (hr, st') ->
    P st'.
Proof.
  induction attrs as [|anAttr rest IH]; intros sIndex hr0 st hr st' HP;
    cbn [add_samples_for_attributes].
  - now intros [= <- <-].
  - destruct (add_sample_for_attribute _ _ _ _ _ _) as [[hr1 st1]|] eqn:E1; [|discriminate].
    cbn [mbind option_bind]. apply IH. eapply P_attribute; eassumption.
Qed.

Lemma AddSamplesForMatch_P status aSpec aMatch st hr st' :
  P st -> AddSamplesForMatch status aSpec aMatch st = Some (hr, st') -> P st'.
Proof.
  intros HP. unfold AddSamplesForMatch.
  destruct (add_samples_for_attributes _ _ _ _ _ _ _) as [[hr1 st1]|] eqn:E; [|discriminate].
  cbn [mbind option_bind]. intros Hret.
  assert (st' = st1) as -> by (destruct (decide _); congruence).
  eapply add_samples_for_attributes_P; eassumption.
Qed.

Lemma on_attributes_P aSpecIt aMatch attrs :
  forall st st', P st -> on_attributes aSpecIt aMatch attrs st = Some st' -> P st'.
Proof.
  induction attrs as [|attr rest IH]; intros st st' HP; cbn [on_attributes].
  - now intros [= <-].
  - destruct (listofSpecs (config st) !! aSpecIt) as [aSpec|]; [|discriminate].
    cbn [mbind option_bind].
    destruct (head (Match.MatchingNames aMatch)); [|discriminate].
    cbn [mbind option_bind].
    destruct (AddSamplesForMatch _ _ _ _) as [[hr st1]|] eqn:E1; [|discriminate].
    cbn [mbind option_bind]. apply IH, P_account. eapply AddSamplesForMatch_P; eassumption.
Qed.

Lemma onMatchCb_P aMatch st st' : P st -> onMatchCb aMatch st = Some st' -> P st'.
Proof.
  intros HP. unfold onMatchCb.
  destruct (Match.MatchingAttributes aMatch) as [|a attrs].
  { destruct (head (Match.MatchingNames aMatch)); [|discriminate]. now intros [= <-]. }
  destruct (list_find _ _) as [[aSpecIt aSpec]|]; [|now intros [= <-]].
  now apply on_attributes_P.
Qed.

Lemma FindMatchingSamples_P found :
  forall st st', P st -> FindMatchingSamples found st = Some st' -> P st'.
Proof.
  induction found as [|aMatch rest IH]; intros st st' HP; cbn [FindMatchingSamples].
  - now intros [= <-].
  - destruct (onMatchCb aMatch st) as [st1|] eqn:E1; [|discriminate].
    cbn [mbind option_bind]. apply IH. eapply onMatchCb_P; eassumption.
Qed.

End IngestionInvariant.

(** Ingestion never gives two samples the same name: if the named samples of
    the registry have distinct names, all reserved in [SampleNames], this
    still holds after [FindMatchingSamples]. *)
Theorem registry_names_are_distinct `{Runtime} `{Collaborators}
    (found : list Match.t) (st st' : Main) :
  names_reserved st -> names_distinct st ->
  FindMatchingSamples found st = Some st' ->
  names_reserved st' /\ names_distinct st'.
Proof.
  intros Hres Hdis Hrun.
  apply (FindMatchingSamples_P (fun st => names_reserved st /\ names_distinct st))
    with (found := found) (st := st); [| |auto|exact Hrun].
  - intros status aSpec aMatch sIndex anAttr a hr b HP Hadd.
    eapply add_sample_for_attribute_names; eassumption.
  - intros status hr size i a [Hr Hd].
    destruct (account_fields status hr size i a) as (Hs & Hn & _).
    unfold names_reserved, names_distinct. rewrite Hs, Hn. auto.
Qed.

(** ** What ingestion leaves of the settings *)

Lemma limits_kept_refl l : limits_kept l l.
Proof. split; auto. Qed.

Lemma limits_kept_trans a b c : limits_kept a b -> limits_kept b c -> limits_kept a c.
Proof. intros [] []. split; try congruence; auto. Qed.

Lemma spec_kept_refl a : spec_kept a a.
Proof. split; auto using limits_kept_refl. Qed.

Lemma spec_kept_trans a b c : spec_kept a b -> spec_kept b c -> spec_kept a c.
Proof. intros [] []. split; try congruence. eapply limits_kept_trans; eassumption. Qed.

Lemma Forall2_spec_kept_refl l : Forall2 spec_kept l l.
Proof. induction l; constructor; auto using spec_kept_refl. Qed.

Lemma Forall2_spec_kept_trans a :
  forall b c, Forall2 spec_kept a b -> Forall2 spec_kept b c -> Forall2 spec_kept a c.
Proof.
  induction a as [|x a IH]; intros b c Hab Hbc.
  - inversion Hab; subst. inversion Hbc; subst. constructor.
  - inversion Hab; subst. inversion Hbc; subst. constructor.
    + eapply spec_kept_trans; eassumption.
    + eapply IH; eassumption.
Qed.

Lemma settings_kept_refl st : settings_kept st st.
Proof. split; auto using limits_kept_refl, Forall2_spec_kept_refl. Qed.

Lemma settings_kept_trans a b c : settings_kept a b -> settings_kept b c -> settings_kept a c.
Proof.
  intros [] []. split; try congruence.
  - eapply limits_kept_trans; eassumption.
  - eapply Forall2_spec_kept_trans; eassumption.
Qed.

Lemma Forall2_spec_kept_alter (f : Limits -> Limits) i l :
  (forall x, limits_kept x (f x)) ->
  Forall2 spec_kept l
    (alter (fun aSpec =>
              SampleSpec.set_PerSampleLimits (f (SampleSpec.PerSampleLimits aSpec)) aSpec) i l).
Proof.
  intros Hf. revert i. induction l as [|x l IH]; intros [|i]; cbn; constructor;
    auto using spec_kept_refl, Forall2_spec_kept_refl.
  split; cbn; auto.
Qed.

Lemma limits_kept_accumulate size l : limits_kept l (accumulate size l).
Proof. split; cbn; auto. Qed.

Lemma account_settings_kept `{Runtime} `{Collaborators} status hr dwlDataSize aSpecIt st :
  settings_kept st (account status hr dwlDataSize aSpecIt st).
Proof.
  unfold account, update_global, update_spec.
  destruct status; try destruct (decide _); try apply settings_kept_refl;
    (split; cbn; try reflexivity;
     try apply limits_kept_refl; try apply Forall2_spec_kept_refl;
     try apply Forall2_spec_kept_alter; try (intros x);
     try (split; cbn; auto)).
Qed.

Lemma add_sample_for_attribute_settings `{Runtime} `{Collaborators}
    status aSpec aMatch sIndex anAttr st hr st' :
  add_sample_for_attribute status aSpec aMatch sIndex anAttr st = Some (hr, st') ->
  config st' = config st /\ GlobalLimits st' = GlobalLimits st
  /\ CollectionDate st' = CollectionDate st.
Proof.
  intros Hadd.
  destruct (Samples st !! key_of (draft_sample status aMatch anAttr sIndex)) as [prev|] eqn:Hk.
  { unfold add_sample_for_attribute in Hadd. cbv zeta in Hadd. rewrite Hk in Hadd.
    destruct (head _); [|discriminate]. injection Hadd as <- <-. auto. }
  destruct (add_sample_for_attribute_new _ _ _ _ _ _ _ _ Hk Hadd)
    as (s1 & names & s2 & st2 & _ & _ & _ & -> & Q).
  destruct (quiet_fields _ _ Q) as (Hc & Hg & _ & _ & Hd & _). cbn in *. auto.
Qed.

(** [FindMatchingSamples] changes nothing of the configuration but the
    accumulators and the reached-flags of the limits: the maxima, the ignore
    flag, the specifications' names, terms and contents, the hash
    algorithms, the output and the collection date are as before, and a
    reached-flag that was set is still set. *)
Theorem run_keeps_settings_and_sticky_flags `{Runtime} `{Collaborators}
    (found : list Match.t) (st st' : Main) :
  FindMatchingSamples found st = Some st' -> settings_kept st st'.
Proof.
  intros Hrun.
  apply (FindMatchingSamples_P (settings_kept st)) with (found := found) (st := st);
    [| |apply settings_kept_refl|exact Hrun].
  - intros status aSpec aMatch sIndex anAttr a hr b HP Hadd.
    destruct (add_sample_for_attribute_settings _ _ _ _ _ _ _ _ Hadd) as (Hc & Hg & Hd).
    destruct HP. split; rewrite ?Hc, ?Hg, ?Hd; assumption.
  - intros status hr size i a HP.
    eapply settings_kept_trans; [exact HP|apply account_settings_kept].
Qed.

(** ** A match of several attributes *)

Lemma key_of_draft_sample status aMatch anAttr sIndex :
  key_of (draft_sample status aMatch anAttr sIndex) = attribute_key aMatch anAttr.
Proof. reflexivity. Qed.

Lemma add_sample_for_attribute_registers `{Runtime} `{Collaborators}
    status aSpec aMatch sIndex anAttr st hr st' :
  add_sample_for_attribute status aSpec aMatch sIndex anAttr st = Some (hr, st') ->
  Samples st ⊆ Samples st' /\ is_Some (Samples st' !! attribute_key aMatch anAttr).
Proof.
  intros Hadd. rewrite <- (key_of_draft_sample status aMatch anAttr sIndex).
  destruct (Samples st !! key_of (draft_sample status aMatch anAttr sIndex)) as [prev|] eqn:Hk.
  { unfold add_sample_for_attribute in Hadd. cbv zeta in Hadd. rewrite Hk in Hadd.
    destruct (head _); [|discriminate]. injection Hadd as <- <-. rewrite Hk. eauto. }
  destruct (add_sample_for_attribute_new _ _ _ _ _ _ _ _ Hk Hadd)
    as (s1 & names & s2 & st2 & _ & _ & Hkey & -> & _).
  cbn [Samples set_Samples]. rewrite Hkey. split.
  - now apply insert_subseteq.
  - rewrite lookup_insert_eq. eauto.
Qed.

Lemma add_samples_for_attributes_registers `{Runtime} `{Collaborators}
    status aSpec aMatch attrs :
  forall sIndex hr0 st hr st',
    add_samples_for_attributes status aSpec aMatch sIndex attrs hr0 st = Some (hr, st') ->
    Samples st ⊆ Samples st'
    /\ Forall (fun anAttr => is_Some (Samples st' !! attribute_key aMatch anAttr)) attrs.
Proof.
  induction attrs as [|anAttr rest IH]; intros sIndex hr0 st hr st';
    cbn [add_samples_for_attributes].
  - intros [= <- <-]. split; [reflexivity|constructor].
  - destruct (add_sample_for_attribute _ _ _ _ _ _) as [[hr1 st1]|] eqn:E1; [|discriminate].
    cbn [mbind option_bind]. intros Hrest.
    destruct (add_sample_for_attribute_registers _ _ _ _ _ _ _ _ E1) as [Hsub1 [s Hs]].
    destruct (IH _ _ _ _ _ Hrest) as [Hsub Hall].
    split; [etrans; eassumption|]. constructor; [|exact Hall].
    exists s. eapply lookup_weaken; eassumption.
Qed.

Lemma add_samples_for_attributes_registered `{Runtime} `{Collaborators}
    status aSpec aMatch attrs :
  forall sIndex hr0 st hr st',
    Forall (fun anAttr => is_Some (Samples st !! attribute_key aMatch anAttr)) attrs ->
    add_samples_for_attributes status aSpec aMatch sIndex attrs hr0 st = Some (hr, st') ->
    st' = st /\ (attrs <> [] -> hr = S_FALSE).
Proof.
  induction attrs as [|anAttr rest IH]; intros sIndex hr0 st hr st' Hall;
    cbn [add_samples_for_attributes].
  - intros [= <- <-]. split; [reflexivity|congruence].
  - apply Forall_cons in Hall. destruct Hall as [[prev Hprev] Hall].
    unfold add_sample_for_attribute. cbv zeta.
    rewrite key_of_draft_sample, Hprev.
    destruct (head (Match.MatchingNames aMatch)); [|discriminate].
    cbn [mbind option_bind]. intros Hrest.
    destruct (IH _ _ _ _ _ Hall Hrest) as [-> Hhr]. split; [reflexivity|]. intros _.
    destruct rest as [|b rest]; [|apply Hhr; discriminate].
    cbn in Hrest. congruence.
Qed.

(** A match of which every attribute is in the registry: [AddSamplesForMatch]
    changes nothing and says so. *)
Lemma AddSamplesForMatch_registered `{Runtime} `{Collaborators} status aSpec aMatch st hr st' :
  Forall (fun anAttr => is_Some (Samples st !! attribute_key aMatch anAttr))
         (Match.MatchingAttributes aMatch) ->
  Match.MatchingAttributes aMatch <> [] ->
  AddSamplesForMatch status aSpec aMatch st = Some (hr, st') ->
  hr = S_FALSE /\ st' = st.
Proof.
  intros Hall Hne. unfold AddSamplesForMatch.
  destruct (add_samples_for_attributes _ _ _ _ _ _ _) as [[hr1 st1]|] eqn:E; [|discriminate].
  destruct (add_samples_for_attributes_registered _ _ _ _ _ _ _ _ _ Hall E) as [-> Hhr].
  rewrite (Hhr Hne). cbn [mbind option_bind].
  destruct (decide (S_FALSE = S_FALSE)); [|congruence]. now intros [= <- <-].
Qed.

Lemma AddSamplesForMatch_registers `{Runtime} `{Collaborators} status aSpec aMatch st hr st' :
  AddSamplesForMatch status aSpec aMatch st = Some (hr, st') ->
  Samples st ⊆ Samples st'
  /\ Forall (fun anAttr => is_Some (Samples st' !! attribute_key aMatch anAttr))
            (Match.MatchingAttributes aMatch).
Proof.
  unfold AddSamplesForMatch.
  destruct (add_samples_for_attributes _ _ _ _ _ _ _) as [[hr1 st1]|] eqn:E; [|discriminate].
  cbn [mbind option_bind]. intros Hret.
  assert (st' = st1) as -> by (destruct (decide _); congruence).
  eapply add_samples_for_attributes_registers; exact E.
Qed.

Lemma account_S_FALSE_accumulators `{Runtime} `{Collaborators} status dwlDataSize aSpecIt st :
  accumulators (account status S_FALSE dwlDataSize aSpecIt st) = accumulators st.
Proof.
  unfold account, update_global, update_spec, accumulators.
  destruct status; try (destruct (decide (S_FALSE = S_FALSE)); [|congruence]);
    try reflexivity; cbn; f_equal;
    generalize (listofSpecs (config st)) as l; intros l; revert aSpecIt;
    induction l as [|x l IH]; intros [|i]; cbn; f_equal; auto.
Qed.

(** The later turns of the callback's loop, every attribute of the match
    being in the registry by then. *)
Lemma on_attributes_registered `{Runtime} `{Collaborators} aSpecIt aMatch attrs :
  forall st st',
    Forall (fun anAttr => is_Some (Samples st !! attribute_key aMatch anAttr))
           (Match.MatchingAttributes aMatch) ->
    Match.MatchingAttributes aMatch <> [] ->
    on_attributes aSpecIt aMatch attrs st = Some st' ->
    Samples st' = Samples st /\ accumulators st' = accumulators st.
Proof.
  induction attrs as [|attr rest IH]; intros st st' Hall Hne; cbn [on_attributes].
  - now intros [= <-].
  - destruct (listofSpecs (config st) !! aSpecIt) as [aSpec|]; [|discriminate].
    cbn [mbind option_bind].
    destruct (head (Match.MatchingNames aMatch)); [|discriminate].
    cbn [mbind option_bind].
    destruct (AddSamplesForMatch _ _ _ _) as [[hr st1]|] eqn:E1; [|discriminate].
    destruct (AddSamplesForMatch_registered _ _ _ _ _ _ Hall Hne E1) as [-> ->].
    cbn [mbind option_bind]. intros Hrest.
    destruct (account_fields (SampleLimitStatus (GlobalLimits st)
                                (SampleSpec.PerSampleLimits aSpec)
                                (GetSize (trace st) (Attribute.DataStream attr)))
                             S_FALSE (GetSize (trace st) (Attribute.DataStream attr))
                             aSpecIt st) as (Hs & _).
    destruct (IH _ _ ltac:(rewrite Hs; exact Hall) Hne Hrest) as [HS HA].
    rewrite HS, HA, Hs. split; [reflexivity|apply account_S_FALSE_accumulators].
Qed.

Lemma AddSamplesForMatch_settings `{Runtime} `{Collaborators} status aSpec aMatch st hr st' :
  AddSamplesForMatch status aSpec aMatch st = Some (hr, st') ->
  config st' = config st /\ GlobalLimits st' = GlobalLimits st.
Proof.
  apply (AddSamplesForMatch_P (fun a => config a = config st /\ GlobalLimits a = GlobalLimits st));
    [|auto].
  intros s aS aM i aA a h b [Hc Hg] Hadd.
  destruct (add_sample_for_attribute_settings _ _ _ _ _ _ _ _ Hadd) as (-> & -> & _). auto.
Qed.

Lemma add_samples_for_attributes_created `{Runtime} `{Collaborators}
    status aSpec aMatch attrs :
  forall sIndex hr0 st hr st',
    drop sIndex (Match.MatchingAttributes aMatch) = attrs ->
    add_samples_for_attributes status aSpec aMatch sIndex attrs hr0 st = Some (hr, st') ->
    forall k s,
      Samples st !! k = None -> Samples st' !! k = Some s ->
      created_by status aMatch (CryptoHashAlgs (config st)) s.
Proof.
  induction attrs as [|anAttr rest IH]; intros sIndex hr0 st hr st' Hdrop;
    cbn [add_samples_for_attributes].
  - intros [= <- <-] k s Hold Hnew. congruence.
  - destruct (add_sample_for_attribute _ _ _ _ _ _) as [[hr1 st1]|] eqn:E1; [|discriminate].
    cbn [mbind option_bind]. intros Hrest k s Hold Hnew.
    assert (Hattr : Match.MatchingAttributes aMatch !! sIndex = Some anAttr).
    { rewrite <- (Nat.add_0_r sIndex), <- lookup_drop, Hdrop. reflexivity. }
    assert (Hdrop' : drop (S sIndex) (Match.MatchingAttributes aMatch) = rest).
    { replace (S sIndex) with (sIndex + 1)%nat by lia.
      rewrite <- drop_drop, Hdrop. reflexivity. }
    destruct (add_sample_for_attribute_spec _ _ _ _ _ _ _ _ Hattr E1)
      as [(_ & _ & ->)|(Hnone & _ & s0 & Hkey & Hcr & Hs & Hc & _)].
    + eapply IH; eassumption.
    + destruct (Samples st1 !! k) as [s1|] eqn:Hk1.
      * destruct (add_samples_for_attributes_registers _ _ _ _ _ _ _ _ _ Hrest) as [Hsub _].
        pose proof (lookup_weaken _ _ _ _ Hk1 Hsub) as Hk'.
        assert (s = s1) as -> by congruence.
        rewrite Hs in Hk1.
        destruct (decide (key_of (draft_sample status aMatch anAttr sIndex) = k)) as [<-|Hne].
        -- rewrite lookup_insert_eq in Hk1. now injection Hk1 as <-.
        -- rewrite lookup_insert_ne in Hk1 by exact Hne. congruence.
      * rewrite <- Hc. eapply IH; eassumption.
Qed.

Lemma add_samples_created `{Runtime} `{Collaborators} status aSpec aMatch st hr st' :
  AddSamplesForMatch status aSpec aMatch st = Some (hr, st') ->
  forall k s,
    Samples st !! k = None -> Samples st' !! k = Some s ->
    SampleRef.OffLimits s = OffLimits_for status /\ SampleRef.Matches s = [aMatch].
Proof.
  unfold AddSamplesForMatch.
  destruct (add_samples_for_attributes _ _ _ _ _ _ _) as [[hr1 st1]|] eqn:E; [|discriminate].
  cbn [mbind option_bind]. intros Hret k s Hold Hnew.
  assert (st' = st1) as -> by (destruct (decide _); congruence).
  destruct (add_samples_for_attributes_created _ _ _ _ 0%nat _ _ _ _ eq_refl E k s Hold Hnew).
  auto.
Qed.

(** The callback's first turn adds the samples, the others find them. *)
Lemma onMatchCb_first_turn `{Runtime} `{Collaborators}
    (aMatch : Match.t) (a0 : Attribute.t) (rest : list Attribute.t)
    (aSpecIt : nat) (aSpec : SampleSpec.t) (st st' : Main) :
  Match.MatchingAttributes aMatch = a0 :: rest ->
  list_find (has_term (Match.Term aMatch)) (listofSpecs (config st)) = Some (aSpecIt, aSpec) ->
  onMatchCb aMatch st = Some st' ->
  let size0 := GetSize (trace st) (Attribute.DataStream a0) in
  let status0 :=
    SampleLimitStatus (GlobalLimits st) (SampleSpec.PerSampleLimits aSpec) size0 in
  exists hr st1,
    AddSamplesForMatch status0 aSpec aMatch st = Some (hr, st1)
    /\ Samples st' = Samples st1
    /\ accumulators st' = accumulators (account status0 hr size0 aSpecIt st1).
Proof.
  intros Hattrs Hspec Hrun size0 status0.
  unfold onMatchCb in Hrun. rewrite Hattrs, Hspec in Hrun.
  cbn [on_attributes] in Hrun.
  apply list_find_Some in Hspec. destruct Hspec as (Hi & _).
  rewrite Hi in Hrun. cbn [mbind option_bind] in Hrun.
  destruct (head (Match.MatchingNames aMatch)); [|discriminate].
  cbn [mbind option_bind] in Hrun. fold size0 status0 in Hrun.
  destruct (AddSamplesForMatch status0 aSpec aMatch st) as [[hr st1]|] eqn:E1; [|discriminate].
  cbn [mbind option_bind] in Hrun. exists hr, st1. split; [reflexivity|].
  destruct (AddSamplesForMatch_registers _ _ _ _ _ _ E1) as [_ Hall].
  destruct (account_fields status0 hr size0 aSpecIt st1) as (Hs & _).
  destruct (on_attributes_registered aSpecIt aMatch rest
              (account status0 hr size0 aSpecIt st1) st') as [HS HA].
  - rewrite Hs. exact Hall.
  - rewrite Hattrs. discriminate.
  - exact Hrun.
  - rewrite HS, Hs. auto.
Qed.

(** For a match with several attributes, only the status of the callback's
    first turn decides, the one computed from the size of the first
    attribute's data stream: after the callback every attribute of the match
    is in the registry, and every sample it added is off limits or not by
    that one status, whatever its own size, with the match as its only
    match. *)
Theorem onMatchCb_first_attribute_decides `{Runtime} `{Collaborators}
    (aMatch : Match.t) (a0 : Attribute.t) (rest : list Attribute.t)
    (aSpecIt : nat) (aSpec : SampleSpec.t) (st st' : Main) :
  Match.MatchingAttributes aMatch = a0 :: rest ->
  list_find (has_term (Match.Term aMatch)) (listofSpecs (config st)) = Some (aSpecIt, aSpec) ->
  onMatchCb aMatch st = Some st' ->
  let status0 :=
    SampleLimitStatus (GlobalLimits st) (SampleSpec.PerSampleLimits aSpec)
                      (GetSize (trace st) (Attribute.DataStream a0)) in
  Forall (fun anAttr => is_Some (Samples st' !! attribute_key aMatch anAttr)) (a0 :: rest)
  /\ forall k s,
       Samples st !! k = None -> Samples st' !! k = Some s ->
       SampleRef.OffLimits s = OffLimits_for status0
       /\ SampleRef.Matches s = [aMatch].
Proof.
  intros Hattrs Hspec Hcb status0.
  destruct (onMatchCb_first_turn aMatch a0 rest aSpecIt aSpec st st' Hattrs Hspec Hcb)
    as (hr & st1 & E1 & HS & _).
  fold status0 in E1. rewrite HS. split.
  - rewrite <- Hattrs. apply (AddSamplesForMatch_registers _ _ _ _ _ _ E1).
  - intros k s Hold Hnew.
    destruct (add_samples_created _ _ _ _ _ _ E1 k s Hold Hnew) as [Hoff Hm]. auto.
Qed.

(** The callback counts a match at most once, whatever the number of its
    attributes: the accumulators are left as they were, or the status of the
    first attribute is within the limits and they are raised once, by one
    sample and the size of the first attribute. *)
Theorem onMatchCb_counts_a_match_once `{Runtime} `{Collaborators}
    (aMatch : Match.t) (a0 : Attribute.t) (rest : list Attribute.t)
    (aSpecIt : nat) (aSpec : SampleSpec.t) (st st' : Main) :
  Match.MatchingAttributes aMatch = a0 :: rest ->
  list_find (has_term (Match.Term aMatch)) (listofSpecs (config st)) = Some (aSpecIt, aSpec) ->
  onMatchCb aMatch st = Some st' ->
  let size0 := GetSize (trace st) (Attribute.DataStream a0) in
  let status0 :=
    SampleLimitStatus (GlobalLimits st) (SampleSpec.PerSampleLimits aSpec) size0 in
  accumulators st' = accumulators st
  \/ (OffLimits_for status0 = false
      /\ accumulators st'
         = accumulators (update_global (accumulate size0)
                                       (update_spec aSpecIt (accumulate size0) st))).
Proof.
  intros Hattrs Hspec Hcb size0 status0.
  destruct (onMatchCb_first_turn aMatch a0 rest aSpecIt aSpec st st' Hattrs Hspec Hcb)
    as (hr & st1 & E1 & _ & HA).
  fold size0 status0 in E1, HA. rewrite HA.
  destruct (AddSamplesForMatch_settings _ _ _ _ _ _ E1) as [Hc Hg].
  assert (Hsame : accumulators st1 = accumulators st).
  { unfold accumulators. now rewrite Hc, Hg. }
  assert (Hflag : forall f g,
             (forall l, accumulated (f l) = accumulated l) ->
             (forall l, accumulated (g l) = accumulated l) ->
             accumulators (update_global f (update_spec aSpecIt g st1)) = accumulators st).
  { intros f g Hf Hgl. rewrite <- Hsame.
    unfold accumulators, update_global, update_spec. cbn. rewrite Hf. f_equal.
    generalize (listofSpecs (config st1)) as l. intros l. generalize aSpecIt as i.
    induction l as [|x l IH]; intros [|i]; cbn; f_equal; auto. }
  unfold account.
  destruct status0 eqn:Es;
    try (left; first [exact Hsame
                     | apply (Hflag _ (fun l => l)); auto
                     | apply (Hflag (fun l => l)); auto]).
  all: destruct (decide (hr = S_FALSE)); [left; exact Hsame|right].
  all: split; [reflexivity|].
  all: unfold accumulators, update_global, update_spec; cbn; now rewrite Hc, Hg.
Qed.

(** ** A sample whose streams fail *)

Lemma ConfigureSampleStreams_failed `{Runtime} `{Collaborators} sampleRef st hr sampleRef' st' :
  ConfigureSampleStreams sampleRef st = Some (hr, sampleRef', st') ->
  FAILED hr = true ->
  SampleRef.CopyStream sampleRef' = SampleRef.CopyStream sampleRef
  /\ SampleRef.SampleSize sampleRef' = SampleRef.SampleSize sampleRef.
Proof.
  unfold ConfigureSampleStreams.
  destruct (decide _) as [|_]; [now intros [= <- <- <-]|].
  destruct (SampleRef.attribute sampleRef) as [attr|]; [|discriminate].
  cbn [mbind option_bind].
  destruct (select_stream sampleRef attr st) as [[hr1 stream] st1].
  destruct (FAILED hr1); [now intros [= <- <- <-]|].
  destruct (chain_crypto stream sampleRef st1) as [[[hr2 up2] s2] st2] eqn:E2.
  assert (H2 : SampleRef.CopyStream s2 = SampleRef.CopyStream sampleRef
               /\ SampleRef.SampleSize s2 = SampleRef.SampleSize sampleRef).
  { unfold chain_crypto in E2. destruct (decide _); now injection E2 as <- <- <- <-. }
  destruct (FAILED hr2); [now intros [= <- <- <-]|].
  destruct (chain_fuzzy up2 s2 st2) as [[[hr3 up3] s3] st3] eqn:E3.
  assert (H3 : SampleRef.CopyStream s3 = SampleRef.CopyStream s2
               /\ SampleRef.SampleSize s3 = SampleRef.SampleSize s2).
  { unfold chain_fuzzy in E3. destruct (decide _); now injection E3 as <- <- <- <-. }
  destruct (FAILED hr3).
  - intros [= <- <- <-] _. destruct H2, H3. split; congruence.
  - intros [= <- <- <-]. discriminate.
Qed.

Lemma name_sample_CopyStream `{Runtime} aSpec anAttr date MatchingNames :
  forall sampleRef names sampleRef' names',
    name_sample aSpec anAttr date MatchingNames sampleRef names = Some (sampleRef', names') ->
    SampleRef.CopyStream sampleRef' = SampleRef.CopyStream sampleRef.
Proof.
  induction MatchingNames as [|name rest IH]; intros s names s' names'; cbn [name_sample].
  - now intros [= <- <-].
  - destruct (name_search _ _ _ _ _ _ _ _) as [[hr cab]|]; [|discriminate].
    cbn [mbind option_bind]. intros Hrest. now rewrite (IH _ _ _ _ Hrest).
Qed.

(** A sample not yet in the registry is added to it whatever the status that
    [add_sample_for_attribute] returns: also when the configuration of its
    streams fails, and then it is in the registry with no copy stream. *)
Theorem sample_is_registered_though_streams_fail `{Runtime} `{Collaborators}
    (status : LimitStatus) (aSpec : SampleSpec.t) (aMatch : Match.t) (sIndex : nat)
    (anAttr : Attribute.t) (st : Main) (hr : HRESULT) (st' : Main) :
  Match.MatchingAttributes aMatch !! sIndex = Some anAttr ->
  Samples st !! attribute_key aMatch anAttr = None ->
  add_sample_for_attribute status aSpec aMatch sIndex anAttr st = Some (hr, st') ->
  exists s,
    Samples st' = <[attribute_key aMatch anAttr := s]> (Samples st)
    /\ SampleRef.OffLimits s = OffLimits_for status
    /\ SampleRef.Matches s = [aMatch]
    /\ (FAILED hr = true -> SampleRef.CopyStream s = None).
Proof.
  intros Hattr Hnone Hadd.
  rewrite <- (key_of_draft_sample status aMatch anAttr sIndex) in Hnone |- *.
  destruct (add_sample_for_attribute_spec _ _ _ _ _ _ _ _ Hattr Hadd)
    as [([? Hin] & _)|(_ & _ & s & Hkey & Hcr & Hs & _)]; [congruence|].
  destruct (add_sample_for_attribute_new _ _ _ _ _ _ _ _ Hnone Hadd)
    as (s1 & names & s2 & st2 & En & Ec & Hkey2 & Hst & _).
  assert (s = s2) as ->.
  { rewrite Hst in Hs. cbn [Samples set_Samples] in Hs. rewrite Hkey2 in Hs.
    apply (f_equal (fun m => m !! key_of (draft_sample status aMatch anAttr sIndex))) in Hs.
    rewrite !lookup_insert_eq in Hs. congruence. }
  exists s2. split; [exact Hs|]. split; [apply (created_OffLimits _ _ _ _ Hcr)|].
  split; [apply (created_Matches _ _ _ _ Hcr)|].
  intros Hf. destruct (ConfigureSampleStreams_failed _ _ _ _ _ Ec Hf) as [-> _].
  now rewrite (name_sample_CopyStream _ _ _ _ _ _ _ _ En).
Qed.

(** ** The rows of a sample *)

Lemma csv_cells_length `{Collaborators} s m attr name fn :
  length (csv_cells s m attr name fn) = 28%nat.
Proof. reflexivity. Qed.

Lemma match_rows_shape `{Collaborators} s m rs :
  match_rows s m = Some rs ->
  Forall2 (fun name cells =>
             length cells = 28%nat
             /\ cells !! 4%nat = Some (WriteString (Name.FullPathName name)))
          (Match.MatchingNames m) rs.
Proof.
  unfold match_rows. destruct (Match.MatchingNames m) as [|n ns] eqn:En.
  - intros [= <-]. constructor.
  - destruct (_ !! _) as [attr|]; [|discriminate]. cbn [mbind option_bind].
    intros Hrows. apply mapM_Some_1 in Hrows.
    eapply Forall2_impl; [exact Hrows|].
    intros name cells Hrow. unfold csv_row in Hrow.
    destruct (Name.FILENAME name) as [fn|]; [|discriminate].
    injection Hrow as <-. split; reflexivity.
Qed.

Lemma sample_rows_shape `{Collaborators} s Matches :
  forall rs,
    sample_rows s Matches = Some rs ->
    Forall2 (fun name cells =>
               length cells = 28%nat
               /\ cells !! 4%nat = Some (WriteString (Name.FullPathName name)))
            (Matches ≫= Match.MatchingNames) rs.
Proof.
  induction Matches as [|m ms IH]; intros rs; cbn [sample_rows].
  - intros [= <-]. constructor.
  - destruct (match_rows s m) as [r1|] eqn:E1; [|discriminate]. cbn [mbind option_bind].
    destruct (sample_rows s ms) as [r2|]; [|discriminate]. cbn [mbind option_bind].
    intros [= <-]. rewrite bind_cons. apply Forall2_app; [|now apply IH].
    eapply match_rows_shape. exact E1.
Qed.

(** [AddSampleRefToCSV], when it returns, returns [S_OK] and has written one
    row for each name of each match of the sample, in their order, each of
    28 cells with the full path of that name in the fifth. *)
Theorem AddSampleRefToCSV_writes_a_row_per_name `{Runtime} `{Collaborators}
    (sample : SampleRef.t) (st : Main) (hr : HRESULT) (st' : Main) :
  AddSampleRefToCSV sample st = Some (hr, st') ->
  hr = S_OK
  /\ exists rs,
       st' = log (map (Row (key_of sample)) rs) st
       /\ Forall2 (fun name cells =>
                     length cells = 28%nat
                     /\ cells !! 4%nat = Some (WriteString (Name.FullPathName name)))
                  (names_of sample) rs.
Proof.
  intros Hcsv. destruct (AddSampleRefToCSV_spec _ _ _ _ Hcsv) as (-> & rs & Hrs & ->).
  split; [reflexivity|]. exists rs. split; [reflexivity|].
  eapply sample_rows_shape. exact Hrs.
Qed.

(** ** The directory sink *)

Lemma WriteSample_directory_step `{Runtime} `{Collaborators} outputDir k st hr st' :
  WriteSample_directory outputDir k st = Some (hr, st') ->
  tracks (Samples st) st'
  /\ exists events,
       trace st' = trace st ++ events
       /\ forall s, Samples st !! k = Some s -> SampleRef.OffLimits s = false ->
                    directory_attempt outputDir s ∈ events.
Proof.
  unfold WriteSample_directory.
  destruct (Samples st !! k) as [s|] eqn:Hk; [|discriminate]. cbn [mbind option_bind].
  destruct (SampleRef.OffLimits s) eqn:Hoff.
  { intros [= <- <-]. split; [apply tracks_refl|]. exists []. rewrite app_nil_r.
    split; [reflexivity|]. intros s' [= <-] Hoff'. congruence. }
  assert (Hquiet : forall st1, quiet st st1 ->
            directory_attempt outputDir s ∈ drop (length (trace st)) (trace st1) ->
            tracks (Samples st) st1
            /\ exists events,
                 trace st1 = trace st ++ events
                 /\ forall s', Some s = Some s' -> SampleRef.OffLimits s' = false ->
                               directory_attempt outputDir s' ∈ events).
  { intros st1 Q Hin. destruct (quiet_fields _ _ Q) as (_ & _ & Hs & _).
    split; [rewrite <- Hs; apply tracks_refl|].
    destruct Q as (ev & -> & _). exists ev. split; [reflexivity|].
    intros s' [= <-] _. cbn [log trace] in Hin. now rewrite drop_app_length in Hin. }
  set (st0 := emit (create_directories _) st).
  assert (Q0 : quiet st st0) by now apply quiet_emit.
  assert (Hin0 : forall ev, directory_attempt outputDir s
                            ∈ drop (length (trace st)) (trace (log ev st0))).
  { intros ev. unfold st0. cbn [log emit trace]. rewrite <- app_assoc, drop_app_length.
    apply elem_of_app. left. apply list_elem_of_singleton. reflexivity. }
  destruct (negb _).
  { intros [= <- <-]. apply Hquiet; [exact Q0|]. rewrite <- (log_nil st0). apply Hin0. }
  destruct (SampleRef.CopyStream s) as [src|]; [|discriminate]. cbn [mbind option_bind].
  destruct (CopyStream src _ st0) as [hr1 st1] eqn:E1.
  pose proof (CopyStream_quiet _ _ _ _ _ E1) as Q1.
  assert (Q : quiet st st1) by (eapply quiet_trans; eassumption).
  destruct (FAILED hr1).
  { intros [= <- <-]. apply Hquiet; [exact Q|]. destruct Q1 as (ev & -> & _). apply Hin0. }
  destruct (FinalizeHashes s st1) as [[s' st2]|] eqn:Hfin; [|discriminate].
  cbn [mbind option_bind].
  destruct (AddSampleRefToCSV _ _) as [[hr3 st3]|] eqn:Hcsv; [|discriminate].
  cbn [mbind option_bind]. intros Hret.
  assert (st' = st3) as -> by (destruct (FAILED hr3); congruence). clear Hret.
  destruct (FinalizeHashes_spec _ _ _ _ Hfin) as (Hsame & ev2 & -> & _ & _).
  destruct (AddSampleRefToCSV_spec _ _ _ _ Hcsv) as (_ & rs & _ & ->).
  destruct Q1 as (ev1 & -> & _).
  split.
  - intros k' t Hk'. cbn [log set_Samples Samples].
    change (Samples st0) with (Samples st).
    destruct (decide (k = k')) as [<-|Hne].
    + rewrite lookup_insert_eq. exists s'. split; [reflexivity|]. congruence.
    + rewrite lookup_insert_ne by exact Hne. exists t. split; [exact Hk'|apply same_report_refl].
  - eexists. split.
    + cbn [log set_Samples trace]. unfold st0. cbn [emit trace].
      rewrite <- !app_assoc. reflexivity.
    + intros t [= <-] _. apply elem_of_app. left.
      apply list_elem_of_singleton. reflexivity.
Qed.

Lemma tracks_trans registry st st' :
  tracks registry st -> tracks (Samples st) st' -> tracks registry st'.
Proof.
  intros H1 H2 k s Hk. destruct (H1 k s Hk) as (s1 & Hk1 & Hs1).
  destruct (H2 k s1 Hk1) as (s2 & Hk2 & Hs2). exists s2. split; [exact Hk2|].
  eapply same_report_trans; eassumption.
Qed.

Lemma write_to_directory_attempts `{Runtime} `{Collaborators} outputDir registry keys :
  forall st st',
    tracks registry st ->
    write_to_directory outputDir keys st = Some st' ->
    exists events,
      trace st' = trace st ++ events
      /\ forall k s, k ∈ keys -> registry !! k = Some s -> SampleRef.OffLimits s = false ->
                     directory_attempt outputDir s ∈ events.
Proof.
  induction keys as [|k rest IH]; intros st st' Htr; cbn [write_to_directory].
  - intros [= <-]. exists []. rewrite app_nil_r. split; [reflexivity|].
    intros k s Hin. now apply elem_of_nil in Hin.
  - destruct (WriteSample_directory outputDir k st) as [[hr st1]|] eqn:E1; [|discriminate].
    cbn [mbind option_bind]. intros Hrest.
    destruct (WriteSample_directory_step _ _ _ _ _ E1) as (Htr1 & ev1 & Ht1 & Hin1).
    assert (Hrest' : write_to_directory outputDir rest st1 = Some st').
    { destruct (FAILED hr); [exact Hrest|].
      destruct (Samples st1 !! k) as [s1|]; [|discriminate]. cbn [mbind option_bind] in Hrest.
      destruct (SampleRef.CopyStream s1); [exact Hrest|discriminate]. }
    destruct (IH st1 st' (tracks_trans _ _ _ Htr Htr1) Hrest') as (ev2 & Ht2 & Hin2).
    exists (ev1 ++ ev2). split; [rewrite Ht2, Ht1; now rewrite app_assoc|].
    intros k' s Hk' Hreg Hoff. apply elem_of_app.
    apply elem_of_cons in Hk'. destruct Hk' as [->|Hk']; [left|right; eauto].
    destruct (Htr k s Hreg) as (s0 & Hk0 & Hsame).
    unfold directory_attempt. rewrite <- (same_SampleName _ _ Hsame).
    apply Hin1; [exact Hk0|]. now rewrite (same_OffLimits _ _ Hsame).
Qed.

(** [WriteSamples] to a directory returns [S_OK] whatever happens to the
    samples, and goes on after a sample that fails: for every sample of the
    registry that is within the limits, the creation of its directory was
    asked for. *)
Theorem WriteSamples_directory_attempts_every_sample `{Runtime} `{Collaborators}
    (outputDir : wstring) (st : Main) (hr : HRESULT) (st' : Main) :
  WriteSamples_directory outputDir st = Some (hr, st') ->
  hr = S_OK
  /\ exists events,
       trace st' = trace st ++ events
       /\ forall k s, Samples st !! k = Some s -> SampleRef.OffLimits s = false ->
                      directory_attempt outputDir s ∈ events.
Proof.
  unfold WriteSamples_directory.
  destruct (write_to_directory _ _ _) as [st1|] eqn:E; [|discriminate].
  cbn [mbind option_bind]. intros [= <- <-]. split; [reflexivity|].
  destruct (write_to_directory_attempts _ (Samples st) _ _ _ (tracks_refl st) E)
    as (ev & Ht & Hin).
  exists ev. split; [exact Ht|]. intros k s Hk Hoff. apply (Hin k s); [|exact Hk|exact Hoff].
  apply list_elem_of_fmap. exists (k, s). split; [reflexivity|].
  now apply elem_of_registry_order.
Qed.

(** ** Output set-up and tear-down *)

(** [RegFlushKeys] flushes both hives and reports only the second flush: it
    fails exactly when the flush of [HKEY_USERS] does, so a failed flush of
    [HKEY_LOCAL_MACHINE] followed by a successful one goes unreported. *)
Theorem RegFlushKeys_reports_the_last_flush (a : OutputAnswers) :
  0 <= RegFlushKey a HKEY_USERS < 2 ^ 32 ->
  (FAILED (RegFlushKeys a).1 = true <-> RegFlushKey a HKEY_USERS <> ERROR_SUCCESS)
  /\ (RegFlushKeys a).2 = [RegFlushKey_call HKEY_LOCAL_MACHINE; RegFlushKey_call HKEY_USERS].
Proof.
  intros Hrange. split; [|reflexivity]. unfold RegFlushKeys, ERROR_SUCCESS. cbn [fst].
  destruct (Z.eqb_spec (RegFlushKey a HKEY_USERS) 0) as [Hu|Hu]; cbn [negb].
  - rewrite Hu. destruct (negb (RegFlushKey a HKEY_LOCAL_MACHINE =? 0)); cbn;
      split; intros; [discriminate|contradiction|discriminate|contradiction].
  - split; [auto|]. intros _. cbn [negb]. apply HRESULT_FROM_WIN32_FAILED.
    unfold HRESULT_of_DWORD. destruct (Z.ltb_spec (RegFlushKey a HKEY_USERS) (2 ^ 31)); lia.
Qed.

Lemma CreateCompressor_ok a Path Password ok hr calls :
  CreateCompressor a Path Password = (ok, hr, calls) -> ok = negb (FAILED hr).
Proof.
  unfold CreateCompressor.
  destruct (MakeCreate_null a); [now intros [= <- <- <-]|].
  destruct (FAILED (InitArchive_hr a)) eqn:F1; [intros [= <- <- <-]; now rewrite F1|].
  destruct (decide (Password <> [])).
  - destruct (FAILED (SetPassword_hr a)) eqn:F2; [intros [= <- <- <-]; now rewrite F2|].
    destruct (FAILED (SetCompressionLevel_hr a)) eqn:F3; intros [= <- <- <-]; now rewrite F3.
  - destruct (FAILED (SetCompressionLevel_hr a)) eqn:F3; intros [= <- <- <-]; now rewrite F3.
Qed.

(** [CreateCompressor] returns no compressor exactly when the status it
    leaves is a failure.  The password is set only if there is one, and
    once the archive is initialised; the callback is set exactly when a
    compressor is returned. *)
Theorem CreateCompressor_null_exactly_on_failure
    (a : OutputAnswers) (Path Password : wstring)
    (ok : bool) (hr : HRESULT) (calls : list OutputCall) :
  CreateCompressor a Path Password = (ok, hr, calls) ->
  ok = negb (FAILED hr)
  /\ (SetPassword_call Password ∈ calls
      <-> Password <> [] /\ MakeCreate_null a = false /\ FAILED (InitArchive_hr a) = false)
  /\ (SetCallback_call ∈ calls <-> ok = true).
Proof.
  intros Hc. split; [exact (CreateCompressor_ok _ _ _ _ _ _ Hc)|].
  revert Hc. unfold CreateCompressor.
  destruct (MakeCreate_null a).
  { intros [= <- <- <-]. split; split.
    - intros Hin. apply list_elem_of_singleton in Hin. discriminate.
    - intros (_ & [=] & _).
    - intros Hin. apply list_elem_of_singleton in Hin. discriminate.
    - discriminate. }
  destruct (FAILED (InitArchive_hr a)) eqn:F1.
  { intros [= <- <- <-]. split; split.
    - intros Hin. repeat (apply elem_of_cons in Hin; destruct Hin as [[=]|Hin]).
      now apply elem_of_nil in Hin.
    - intros (_ & _ & [=]).
    - intros Hin. repeat (apply elem_of_cons in Hin; destruct Hin as [[=]|Hin]).
      now apply elem_of_nil in Hin.
    - discriminate. }
  destruct (decide (Password <> [])) as [Hp|Hp].
  - destruct (FAILED (SetPassword_hr a)); [|destruct (FAILED (SetCompressionLevel_hr a))];
      intros [= <- <- <-]; (split; split; [auto|intros _|..]);
      cbn; rewrite ?elem_of_cons, ?elem_of_nil; try tauto; try discriminate;
      intros Hin; decompose [or] Hin; try discriminate; try contradiction.
  - destruct (FAILED (SetCompressionLevel_hr a));
      intros [= <- <- <-]; (split; split; [|tauto|..]);
      cbn; rewrite ?elem_of_cons, ?elem_of_nil; try tauto; try discriminate;
      intros Hin; decompose [or] Hin; try discriminate; try contradiction;
      match goal with Heq : SetPassword_call _ = _ |- _ => discriminate Heq end.
Qed.

Lemma CreateCsvWriter_ok a out ok hr calls :
  CreateCsvWriter a out = (ok, hr, calls) -> ok = negb (FAILED hr).
Proof.
  unfold CreateCsvWriter.
  destruct (FAILED (CsvStream_Open_hr a)) eqn:F1; [intros [= <- <- <-]; now rewrite F1|].
  destruct (FAILED (WriteToStream_hr a)) eqn:F2; [intros [= <- <- <-]; now rewrite F2|].
  destruct (FAILED (SetSchema_hr a)) eqn:F3; intros [= <- <- <-]; now rewrite F3.
Qed.

Lemma InitOutput_cases `{Runtime} `{Collaborators} a Password st hr o calls :
  InitOutput a Password st = (hr, o, calls) ->
  FAILED hr = true
  \/ (hr = S_OK /\ tableWriter_set o = true
      /\ match Output_Type (Output (config st)) with
         | Archive => compressor_set o = true
         | Directory => compressor_set o = false
         | OtherOutput => False
         end).
Proof.
  unfold InitOutput. destruct (Output_Type (Output (config st))).
  - unfold InitArchiveOutput.
    destruct (decide (parent_path _ = [])) as [_|_];
      (destruct (CreateLogStream a _) as [[logStream hr1] c1];
       destruct (FAILED hr1) eqn:F1; [intros [= <- <- <-]; auto|];
       destruct (CreateCompressor a _ Password) as [[ok2 hr2] c2] eqn:E2;
       pose proof (CreateCompressor_ok _ _ _ _ _ _ E2) as ->;
       destruct (FAILED hr2) eqn:F2; cbn [negb]; [intros [= <- <- <-]; auto|];
       destruct (CreateCsvWriter a _) as [[ok3 hr3] c3] eqn:E3;
       pose proof (CreateCsvWriter_ok _ _ _ _ _ E3) as ->;
       destruct (FAILED hr3) eqn:F3; cbn [negb]; intros [= <- <- <-]; auto).
  - unfold InitDirectoryOutput.
    destruct (Z.eqb_spec (create_output_directories_ec a) 0) as [Hec|Hec]; cbn [negb].
    2:{ intros [= <- <- <-]. left. now apply HRESULT_FROM_WIN32_FAILED. }
    destruct (CreateCsvWriter a _) as [[ok3 hr3] c3] eqn:E3.
    pose proof (CreateCsvWriter_ok _ _ _ _ _ E3) as ->.
    destruct (FAILED hr3) eqn:F3; cbn [negb]; intros [= <- <- <-]; auto.
  - intros [= <- <- <-]. left. reflexivity.
Qed.

Lemma CreateCompressor_calls a Path Password ok hr calls :
  CreateCompressor a Path Password = (ok, hr, calls) -> MakeCreate_call ∈ calls.
Proof.
  unfold CreateCompressor.
  destruct (MakeCreate_null a); [intros [= <- <- <-]; apply list_elem_of_here|].
  destruct (FAILED (InitArchive_hr a)); [intros [= <- <- <-]; apply list_elem_of_here|].
  destruct (decide _); repeat destruct (FAILED _);
    intros [= <- <- <-]; rewrite ?elem_of_app, ?elem_of_cons; tauto.
Qed.

(** When [InitOutput] does not fail it returns [S_OK] with the table writer
    set, and the output is an archive, with the compressor made and set, or
    a directory, with its creation asked for and no compressor: no other
    output type initialises. *)
Theorem InitOutput_success_sets_the_outputs `{Runtime} `{Collaborators}
    (a : OutputAnswers) (Password : wstring) (st : Main)
    (hr : HRESULT) (o : Outputs) (calls : list OutputCall) :
  InitOutput a Password st = (hr, o, calls) ->
  FAILED hr = false ->
  hr = S_OK
  /\ tableWriter_set o = true
  /\ (Output_Type (Output (config st)) = Archive /\ compressor_set o = true
      /\ MakeCreate_call ∈ calls
      \/ Output_Type (Output (config st)) = Directory /\ compressor_set o = false
         /\ create_output_directories (Output_Path (Output (config st))) ∈ calls).
Proof.
  intros Hinit Hok.
  destruct (InitOutput_cases _ _ _ _ _ _ Hinit) as [Hf|(Hhr & Hw & Hkind)]; [congruence|].
  split; [exact Hhr|]. split; [exact Hw|].
  revert Hinit. unfold InitOutput.
  destruct (Output_Type (Output (config st))); [left|right|contradiction].
  - split; [reflexivity|]. split; [exact Hkind|]. revert Hinit. unfold InitArchiveOutput.
    destruct (decide (parent_path _ = [])) as [_|_];
      (destruct (CreateLogStream a _) as [[logStream hr1] c1];
       destruct (FAILED hr1) eqn:F1; [intros [= ? <- ?]; discriminate|];
       destruct (CreateCompressor a _ Password) as [[ok2 hr2] c2] eqn:E2;
       pose proof (CreateCompressor_calls _ _ _ _ _ _ E2) as Hmk;
       destruct (negb ok2); [intros [= ? <- ?]; discriminate|];
       destruct (CreateCsvWriter a _) as [[ok3 hr3] c3];
       destruct (negb ok3); intros [= ? <- <-]; [discriminate|];
       rewrite ?elem_of_cons, !elem_of_app; tauto).
  - split; [reflexivity|]. split; [exact Hkind|]. revert Hinit. unfold InitDirectoryOutput.
    destruct (negb _); [intros [= ? ? <-]; apply list_elem_of_here|].
    destruct (CreateCsvWriter a _) as [[ok3 hr3] c3].
    destruct (negb ok3); intros [= ? ? <-]; apply list_elem_of_here.
Qed.

(** [CloseArchiveOutput] flushes the encoder's queue and reports only the
    completion of the archive and the closing of the table stream: the
    statuses of the writer's flush and of the two added streams are dropped.
    The table is added if its stream is there and not empty, the log
    likewise, and the table stream is closed only if the archive
    completed. *)
Theorem CloseArchiveOutput_fails_only_on_Complete_or_Close `{Runtime} `{Collaborators}
    (a : OutputAnswers) (o : Outputs) (st : Main)
    (hr : HRESULT) (st' : Main) (calls : list OutputCall) :
  CloseArchiveOutput a o st = Some (hr, st', calls) ->
  ArchiveCreate.FlushQueue st = Some st'
  /\ hr = (if FAILED (Complete_hr a) then Complete_hr a
           else if FAILED (TableStream_Close_hr a) then TableStream_Close_hr a
           else S_OK)
  /\ (AddStream_table_call ∈ calls
      <-> GetStream_null a = false /\ TableStream_GetSize a <> 0)
  /\ (AddStream_log_call ∈ calls
      <-> GetByteStream_null a = false /\ 0 < LogStream_GetSize a)
  /\ (TableStream_Close_call ∈ calls <-> FAILED (Complete_hr a) = false).
Proof.
  unfold CloseArchiveOutput.
  destruct (compressor_set o); [|discriminate]. cbn [negb].
  destruct (ArchiveCreate.FlushQueue st) as [st1|]; [|discriminate]. cbn [mbind option_bind].
  destruct (tableWriter_set o); [|discriminate]. cbn [negb].
  destruct (GetStream_null a) eqn:Ht, (Z.eqb_spec (TableStream_GetSize a) 0) as [Hs|Hs],
           (GetByteStream_null a) eqn:Hl, (Z.gtb_spec (LogStream_GetSize a) 0) as [Hz|Hz];
    cbn [negb andb];
    destruct (FAILED (Complete_hr a)) eqn:Fc; try discriminate;
    try destruct (FAILED (TableStream_Close_hr a)) eqn:Fk;
    intros [= <- <- <-];
    (split; [reflexivity|]); (split; [reflexivity|]);
    cbn; rewrite ?elem_of_cons, ?elem_of_nil;
    intuition (try discriminate; try congruence; try lia).
Qed.

Lemma CollectSamples_supported `{Runtime} `{Collaborators} st hr st' :
  CollectSamples st = Some (hr, st') ->
  Output_Type (Output (config st)) <> OtherOutput ->
  hr = S_OK.
Proof.
  unfold CollectSamples, WriteSamples_archive, WriteSamples_directory.
  destruct (Output_Type (Output (config st))); [| |congruence].
  - destruct (write_to_archive _ _); [|discriminate]. now intros [= <- <-].
  - destruct (write_to_directory _ _ _); [|discriminate]. now intros [= <- <-].
Qed.


(** ** The index of a name *)

Lemma length_digits base glyph n :
  forall v, (length (Printf.digits base glyph n v) <= n)%nat.
Proof.
  induction n as [|n IH]; intros v; cbn [Printf.digits]; [cbn; lia|].
  destruct (v =? 0); [cbn; lia|]. rewrite length_app. cbn. specialize (IH (v / base)). lia.
Qed.

(** A name fits the buffer at every index if it does with ten digits. *)
Lemma fits_with_ten_digits `{Runtime} Content fn DataName idx :
  (length (before_index Content fn DataName) + 10 + length (after_index Content)
   < MAX_PATH)%nat ->
  0 <= idx < 2 ^ 32 ->
  fits Content fn DataName idx.
Proof.
  intros Hlen Hidx. unfold fits.
  destruct (Z.eq_dec idx 0) as [->|Hne].
  - pose proof (name_format_zero_length Content fn DataName). lia.
  - rewrite name_format_indexed by exact Hne. rewrite convert_Unsigned by lia.
    rewrite !length_app.
    pose proof (length_digits 10 Printf.dec_glyph 10 idx). lia.
Qed.

(** * The properties on the small run *)

Import Example.



(** C2, the code at the failing input: the 11-byte file against the 10-byte
    limit.  The sample is registered off-limits and the sticky flag is set;
    after collection and flush, on either sink, the trace holds the one call
    ingestion made and nothing else: no archive entry, no file, and no row.
    The reporter itself would have written the row, with column 6 empty. *)
Theorem off_limits_sample_gets_no_row :
  Run [first_match] (start Archive 7 0 ten_bytes) = Some over_limit_archive
  /\ Run [first_match] (start Directory 7 0 ten_bytes) = Some over_limit_directory
  /\ Samples over_limit_archive !! key0 = Some over_limit_sample
  /\ Samples over_limit_directory !! key0 = Some over_limit_sample
  /\ SampleRef.OffLimits over_limit_sample = true
  /\ bMaxBytesPerSampleReached (GlobalLimits over_limit_archive) = true
  /\ trace over_limit_archive = [CryptoOpenToRead 7 (AttributeStream 1)]
  /\ trace over_limit_directory = [CryptoOpenToRead 7 (AttributeStream 1)]
  /\ rows (trace over_limit_archive) = []
  /\ rows (trace over_limit_directory) = []
  /\ (exists cells,
         sample_rows over_limit_sample (SampleRef.Matches over_limit_sample) = Some [cells]
         /\ name_column cells = Some WriteNothing).
Proof.
  repeat (split; [vm_compute; reflexivity|]).
  eexists. split; vm_compute; reflexivity.
Qed.

(** C3, the code at the failing input: the file was ingested for its unnamed
    stream; it is matched again with that stream and a named one.  The first
    attribute of the second match is in the registry, the second is not, and
    [AddSamplesForMatch] returns [S_OK]. *)
Theorem duplicate_before_new_attribute_returns_S_OK :
  AddSamplesForMatch SampleWithinLimits data_spec first_match
                     (start Archive 7 0 unlimited_limits)
  = Some (S_OK, after_first)
  /\ is_Some (Samples after_first
              !! key_of (draft_sample SampleWithinLimits second_match data0 0))
  /\ Samples after_first !! key_of (draft_sample SampleWithinLimits second_match ads1 1)
     = None
  /\ AddSamplesForMatch SampleWithinLimits data_spec second_match after_first
     = Some (S_OK, after_second)
  /\ S_OK <> S_FALSE.
Proof.
  split; [vm_compute; reflexivity|].
  split; [vm_compute; eauto|].
  split; [vm_compute; reflexivity|].
  split; [vm_compute; reflexivity|discriminate].
Qed.

(** With the limits ignored the 11-byte file, matched twice, leaves no
    off-limits sample, though the 10-byte limit is configured. *)
Lemma OffLimits_follows_status_ignored :
  FindMatchingSamples [first_match; second_match] (start Archive 7 0 ten_bytes_ignored)
  = Some ignored_found
  /\ Forall (fun p => SampleRef.OffLimits p.2 = false) (map_to_list (Samples ignored_found))
  /\ length (map_to_list (Samples ignored_found)) = 2%nat.
Proof.
  split; [vm_compute; reflexivity|]. split; [|vm_compute; reflexivity].
  apply Forall_forall. intros [k s] Hin. apply elem_of_map_to_list in Hin.
  apply (proj2 (@OffLimits_follows_status crt env)
               [first_match; second_match] (start Archive 7 0 ten_bytes_ignored)
               ignored_found) with (i := k); [| | |exact Hin].
  - reflexivity.
  - apply map_Forall_empty.
  - vm_compute. reflexivity.
Defined.

(** C4, the code at the failing input: a file with an unnamed stream of 5
    bytes and a named stream of 11, matched on both, against the limit of 10
    bytes per sample.  The status of the named stream is
    [GlobalMaxBytesPerSample], before the match and with the limits as the
    match leaves them, and the callback's second turn did set the sticky
    flag of that limit; but the sample of the named stream is in the
    registry with its 11 bytes and not off-limits: it was added in the first
    turn, under the status of the 5-byte stream. *)
Lemma second_attribute_takes_first_status :
  @onMatchCb crt sized second_match (start Archive 0 0 ten_bytes) = Some uneven_found
  /\ @GetSize sized [] (Attribute.DataStream data0) = 5
  /\ @GetSize sized [] (Attribute.DataStream ads1) = 11
  /\ SampleLimitStatus ten_bytes unlimited_limits 5 = SampleWithinLimits
  /\ SampleLimitStatus ten_bytes unlimited_limits 11 = GlobalMaxBytesPerSample
  /\ SampleLimitStatus (GlobalLimits uneven_found) unlimited_limits 11
     = GlobalMaxBytesPerSample
  /\ bMaxBytesPerSampleReached (GlobalLimits uneven_found) = true
  /\ exists s,
       Samples uneven_found !! attribute_key second_match ads1 = Some s
       /\ SampleRef.SampleSize s = 11
       /\ SampleRef.OffLimits s = false.
Proof.
  repeat (split; [vm_compute; reflexivity|]).
  eexists. split; [vm_compute; reflexivity|]. split; reflexivity.
Qed.


(** C6, where the claim fails: a file name of 255 characters does not fit
    the buffer of [MAX_PATH] characters, so no name comes back; and a name
    holding a NUL is cut there, not at its length. *)
Lemma CreateSampleFileName_long_or_cut_name :
  CreateSampleFileName (mkContentSpec DATA 0 0) (Some long_name) [] 0 [] = InvalidParameter
  /\ length (NameContract.template (mkContentSpec DATA 0 0) long_name [] 0) = 277%nat
  /\ CreateSampleFileName (mkContentSpec DATA 0 0) (Some nul_name) [] 0 []
     = Returned S_OK (L "000500000000002A_a_data")
  /\ CreateSampleFileName (mkContentSpec DATA 0 0) (Some nul_name) [] 0 []
     <> Returned S_OK
          (NameContract.replace_forbidden
             (NameContract.template (mkContentSpec DATA 0 0) nul_name [] 0)).
Proof.
  split; [vm_compute; reflexivity|].
  split; [vm_compute; reflexivity|].
  split; [vm_compute; reflexivity|].
  vm_compute. discriminate.
Qed.

(** C6 on the small run's file: a.txt, no data name, index 0, DATA. *)
Lemma CreateSampleFileName_template_a_txt :
  CreateSampleFileName (mkContentSpec DATA 0 0) (Some a_txt) [] 0 []
  = Returned S_OK
      (NameContract.replace_forbidden
         (NameContract.template (mkContentSpec DATA 0 0) a_txt [] 0))
  /\ NameContract.replace_forbidden
       (NameContract.template (mkContentSpec DATA 0 0) a_txt [] 0)
     = L "000500000000002A_a.txt_data".
Proof.
  split; [|vm_compute; reflexivity].
  apply (@CreateSampleFileName_template crt (mkContentSpec DATA 0 0) a_txt [] 0 []).
  - split; cbn; try lia; repeat constructor; discriminate.
  - apply Nat.ltb_lt. vm_compute. reflexivity.
Defined.

(** C7 on a sample with STRINGS content and no bounds of its own: the
    configuration's (4, 16) are used. *)
Lemma ConfigureSampleStreams_strings_bounds_fallback :
  exists hr sampleRef' st',
    ConfigureSampleStreams strings_sample (start Archive 7 0 unlimited_limits)
    = Some (hr, sampleRef', st')
    /\ strings_calls (trace st') = [(AttributeStream 1, 4, 16)].
Proof.
  destruct (@ConfigureSampleStreams_strings_bounds crt env strings_sample data0
              (start Archive 7 0 unlimited_limits))
    as (hr & s' & st' & Hrun & Hcalls).
  - reflexivity.
  - discriminate.
  - reflexivity.
  - exists hr, s', st'. split; [exact Hrun|]. exact (proj1 Hcalls).
Defined.

(** C9 on the run: after the second match, a duplicate for the unnamed
    stream, the first sample is the one the first match left, with that one
    match. *)
Lemma registry_sample_keeps_its_one_match_twice :
  Samples after_second !! key0 = Samples after_first !! key0
  /\ (SampleRef.Matches <$> Samples after_second !! key0) = Some [first_match]
  /\ add_sample_for_attribute SampleWithinLimits data_spec second_match 0 data0 after_first
     = Some (S_FALSE, after_first).
Proof.
  split; [vm_compute; reflexivity|]. split; [vm_compute; reflexivity|].
  apply (proj1 (proj2 (@registry_sample_keeps_its_one_match crt env)));
    vm_compute; eauto.
Defined.

(** C10 on the run: no crypto algorithm, both fuzzy algorithms.  The fuzzy
    stream is chained and is the copy stream, the archive entry is written
    and consumed, and the row has empty SSDEEP and TLSH. *)
Lemma no_crypto_stream_no_fuzzy_hashes_run :
  SampleRef.FuzzyHashStream fuzzy_only_sample = Some (FuzzyHashStream 3 (AttributeStream 1))
  /\ SampleRef.CopyStream fuzzy_only_sample = Some (FuzzyHashStream 3 (AttributeStream 1))
  /\ Samples fuzzy_only_flushed !! key0 = Some fuzzy_only_sample
  /\ Forall (fun r => r.1 = key0 -> fuzzy_columns_empty r.2) (rows (trace fuzzy_only_flushed))
  /\ length (rows (trace fuzzy_only_flushed)) = 1%nat.
Proof.
  split; [vm_compute; reflexivity|]. split; [vm_compute; reflexivity|].
  assert (Hrun : rtc run_step fuzzy_only_found fuzzy_only_flushed).
  { eapply rtc_l; [apply (step_write_archive key0 _ S_OK fuzzy_only_written)|].
    - vm_compute. reflexivity.
    - apply rtc_once, step_flush. vm_compute. reflexivity. }
  destruct (proj2 (proj2 (@no_crypto_stream_no_fuzzy_hashes crt env))
              key0 fuzzy_only_sample fuzzy_only_found fuzzy_only_flushed)
    as [Hkept Hrows].
  - intros k s Hk. apply elem_of_map_to_list in Hk. vm_compute in Hk.
    apply list_elem_of_In in Hk. destruct Hk as [[= <- <-]|[]]. reflexivity.
  - vm_compute. reflexivity.
  - reflexivity.
  - reflexivity.
  - reflexivity.
  - intros cells Hin. vm_compute in Hin. apply list_elem_of_In in Hin. destruct Hin.
  - exact Hrun.
  - split; [exact Hkept|]. split; [|vm_compute; reflexivity].
    apply Forall_forall. intros [k cells] Hin Hk. cbn in Hk. subst k. now apply Hrows.
Defined.


(** ** The further properties on the small run *)

Lemma CreateSampleFileName_is_a_file_name_a_txt :
  S_OK = S_OK
  /\ (16 < length (L "000500000000002A_a.txt_data") < MAX_PATH)%nat
  /\ Forall (fun c => iswspace c = false /\ c <> 58 /\ c <> 35)
            (L "000500000000002A_a.txt_data").
Proof.
  apply (@CreateSampleFileName_is_a_file_name crt (mkContentSpec DATA 0 0) (Some a_txt)
           [] 0 [] S_OK (L "000500000000002A_a.txt_data")); reflexivity.
Defined.

Lemma SampleLimitStatus_accepts_smaller_ten_bytes :
  SampleLimitStatus ten_bytes unlimited_limits 4 = SampleLimitStatus ten_bytes unlimited_limits 10.
Proof.
  apply SampleLimitStatus_accepts_smaller; cbn; first [lia|reflexivity].
Defined.

Lemma ConfigureSampleStreams_chain_strings :
  exists hr sampleRef' st',
    ConfigureSampleStreams strings_sample (start Archive 7 3 unlimited_limits)
    = Some (hr, sampleRef', st')
    /\ SampleRef.CopyStream sampleRef'
       = Some (FuzzyHashStream 3 (CryptoHashStream 7 (StringsStream (AttributeStream 1) 4 16)))
    /\ SampleRef.SampleSize sampleRef' = 11.
Proof.
  destruct (ConfigureSampleStreams strings_sample (start Archive 7 3 unlimited_limits))
    as [[[hr s'] st']|] eqn:E; [|vm_compute in E; discriminate].
  exists hr, s', st'. split; [reflexivity|].
  destruct (@ConfigureSampleStreams_chain crt env strings_sample data0
              (start Archive 7 3 unlimited_limits) hr s' st' eq_refl E)
    as [(Hf & _)|(_ & _ & _ & Hcopy & Hsize)].
  - vm_compute in E. injection E as <- _ _. discriminate Hf.
  - split; [exact Hcopy|exact Hsize].
Defined.

Lemma AddSamplesForMatch_reports_last_attribute_new :
  exists hr1 st1,
    add_samples_for_attributes SampleWithinLimits data_spec second_match 0 [data0] E_FAIL
                               after_first
    = Some (hr1, st1)
    /\ (S_OK = S_FALSE
        <-> is_Some (Samples st1
                     !! key_of (draft_sample SampleWithinLimits second_match ads1
                                             (length [data0]))))
    /\ (S_OK = S_FALSE \/ S_OK = S_OK).
Proof.
  apply (@AddSamplesForMatch_reports_last_attribute crt env SampleWithinLimits data_spec
           second_match [data0] ads1 after_first S_OK after_second);
    vm_compute; reflexivity.
Defined.

Lemma crt_digits_are_not_spaces : forall c, 48 <= c <= 57 -> iswspace c = false.
Proof.
  intros c Hc. cbn. destruct (Z.eqb_spec c 32); [lia|].
  destruct (Z.leb_spec 9 c), (Z.leb_spec c 13); try reflexivity; lia.
Qed.

Lemma AddSamplesForMatch_total_first_match :
  exists hr st',
    AddSamplesForMatch SampleWithinLimits data_spec first_match
                       (start Archive 7 0 unlimited_limits)
    = Some (hr, st')
    /\ (hr = S_OK \/ hr = S_FALSE).
Proof.
  apply (@AddSamplesForMatch_total crt env).
  - exact crt_digits_are_not_spaces.
  - intros name fn anAttr j Hname Hfn Hattr Hj.
    apply list_elem_of_singleton in Hname. subst name. injection Hfn as <-.
    apply list_elem_of_singleton in Hattr. subst anAttr.
    apply fits_with_ten_digits; [|exact Hj]. vm_compute. lia.
  - vm_compute. eauto.
  - vm_compute. reflexivity.
Defined.

Lemma sample_is_registered_though_streams_fail_refused :
  exists s,
    Samples refused = <[attribute_key first_match data0 := s]> ∅
    /\ SampleRef.OffLimits s = false
    /\ SampleRef.Matches s = [first_match]
    /\ SampleRef.CopyStream s = None.
Proof.
  destruct (@sample_is_registered_though_streams_fail crt refusing SampleWithinLimits
              data_spec first_match 0%nat data0 (start Archive 7 0 unlimited_limits)
              E_FAIL refused)
    as (s & Hs & Hoff & Hm & Hcopy); [reflexivity|reflexivity|vm_compute; reflexivity|].
  exists s. split; [exact Hs|]. split; [exact Hoff|]. split; [exact Hm|].
  apply Hcopy. reflexivity.
Defined.

Lemma registry_names_are_distinct_both :
  names_reserved both_found /\ names_distinct both_found.
Proof.
  apply (@registry_names_are_distinct crt env [first_match; second_match]
           (start Archive 7 3 unlimited_limits) both_found).
  - intros k s Hk. cbn [start Samples] in Hk. now rewrite lookup_empty in Hk.
  - intros k1 k2 s1 s2 Hk. cbn [start Samples] in Hk. now rewrite lookup_empty in Hk.
  - vm_compute. reflexivity.
Defined.

Lemma run_keeps_settings_and_sticky_flags_ignored :
  settings_kept (start Archive 7 0 ten_bytes_ignored) ignored_found.
Proof.
  apply (@run_keeps_settings_and_sticky_flags crt env [first_match; second_match]).
  vm_compute. reflexivity.
Defined.

Lemma onMatchCb_first_attribute_decides_both :
  Forall (fun anAttr => is_Some (Samples both_over_limit !! attribute_key second_match anAttr))
         [data0; ads1]
  /\ forall k s,
       Samples (start Archive 7 0 ten_bytes) !! k = None ->
       Samples both_over_limit !! k = Some s ->
       SampleRef.OffLimits s = OffLimits_for GlobalMaxBytesPerSample
       /\ SampleRef.Matches s = [second_match].
Proof.
  apply (@onMatchCb_first_attribute_decides crt env second_match data0 [ads1] 0%nat data_spec
           (start Archive 7 0 ten_bytes) both_over_limit); vm_compute; reflexivity.
Defined.

Lemma onMatchCb_counts_a_match_once_both :
  accumulators both_counted = accumulators (start Archive 7 0 unlimited_limits)
  \/ (OffLimits_for SampleWithinLimits = false
      /\ accumulators both_counted
         = accumulators (update_global (accumulate 11)
                           (update_spec 0 (accumulate 11)
                                        (start Archive 7 0 unlimited_limits)))).
Proof.
  apply (@onMatchCb_counts_a_match_once crt env second_match data0 [ads1] 0%nat data_spec
           (start Archive 7 0 unlimited_limits) both_counted); vm_compute; reflexivity.
Defined.

Lemma AddSampleRefToCSV_writes_a_row_per_name_off_limits :
  S_OK = S_OK
  /\ exists rs,
       default over_limit_archive
         (snd <$> AddSampleRefToCSV over_limit_sample over_limit_archive)
       = log (map (Row (key_of over_limit_sample)) rs) over_limit_archive
       /\ Forall2 (fun name cells =>
                     length cells = 28%nat
                     /\ cells !! 4%nat = Some (WriteString (Name.FullPathName name)))
                  (names_of over_limit_sample) rs.
Proof.
  apply (@AddSampleRefToCSV_writes_a_row_per_name crt env over_limit_sample over_limit_archive).
  vm_compute. reflexivity.
Defined.


Lemma WriteSample_directory_row_follows_copy_first :
  exists src s' rs,
    SampleRef.CopyStream first_sample = Some src
    /\ same_report first_sample s'
    /\ sample_rows s' (SampleRef.Matches s') = Some rs
    /\ first_copied
       = log (directory_attempt (L "out") first_sample
              :: CopyStream_calls src (path_append (L "out") (SampleRef.SampleName first_sample))
              ++ finalize_calls first_sample
              ++ map (Row (key_of s')) rs)
             (set_Samples (<[key0 := s']> (Samples both_found)) both_found).
Proof.
  assert (Hk : Samples both_found !! key0 = Some first_sample) by (vm_compute; reflexivity).
  assert (Hw : WriteSample_directory (L "out") key0 both_found = Some (S_OK, first_copied))
    by (vm_compute; reflexivity).
  destruct (@WriteSample_directory_row_follows_copy crt env (L "out") key0
              first_sample both_found S_OK first_copied Hk eq_refl Hw)
    as [(Hf & _)|(_ & src & s' & rs & Hsrc & Hsame & Hrs & Hst)].
  - discriminate Hf.
  - exists src, s', rs. auto.
Defined.

Lemma WriteSamples_directory_attempts_every_sample_both :
  S_OK = S_OK
  /\ exists events,
       trace both_copied = trace both_found ++ events
       /\ forall k s, Samples both_found !! k = Some s -> SampleRef.OffLimits s = false ->
                      directory_attempt (L "out") s ∈ events.
Proof.
  apply (@WriteSamples_directory_attempts_every_sample crt env (L "out") both_found S_OK
           both_copied).
  vm_compute. reflexivity.
Defined.

Lemma RegFlushKeys_reports_the_last_flush_denied :
  (FAILED (RegFlushKeys answers).1 = true <-> RegFlushKey answers HKEY_USERS <> ERROR_SUCCESS)
  /\ (RegFlushKeys answers).2
     = [RegFlushKey_call HKEY_LOCAL_MACHINE; RegFlushKey_call HKEY_USERS].
Proof.
  apply RegFlushKeys_reports_the_last_flush. vm_compute. split; [discriminate|reflexivity].
Defined.

Lemma CreateCompressor_null_exactly_on_failure_password :
  true = negb (FAILED S_OK)
  /\ (SetPassword_call (L "secret")
      ∈ [MakeCreate_call; InitArchive_call (L "out"); SetPassword_call (L "secret");
         SetCompressionLevel_call; SetCallback_call]
      <-> L "secret" <> [] /\ MakeCreate_null answers = false
          /\ FAILED (InitArchive_hr answers) = false)
  /\ (SetCallback_call
      ∈ [MakeCreate_call; InitArchive_call (L "out"); SetPassword_call (L "secret");
         SetCompressionLevel_call; SetCallback_call]
      <-> true = true).
Proof.
  apply (CreateCompressor_null_exactly_on_failure answers (L "out") (L "secret")).
  vm_compute. reflexivity.
Defined.

Lemma InitOutput_success_sets_the_outputs_archive :
  exists o calls,
    @InitOutput env answers [] (start Archive 7 0 unlimited_limits) = (S_OK, o, calls)
    /\ tableWriter_set o = true /\ compressor_set o = true
    /\ MakeCreate_call ∈ calls.
Proof.
  destruct (@InitOutput env answers [] (start Archive 7 0 unlimited_limits))
    as [[hr o] calls] eqn:E.
  destruct (@InitOutput_success_sets_the_outputs crt env answers []
              (start Archive 7 0 unlimited_limits) hr o calls E)
    as (-> & Hw & [(_ & Hc & Hin)|([=] & _)]).
  - vm_compute in E. now injection E as <- _ _.
  - exists o, calls. auto.
Defined.

Lemma CloseArchiveOutput_fails_only_on_Complete_or_Close_flushed :
  exists calls,
    CloseArchiveOutput answers (mkOutputs true true) fuzzy_only_written
    = Some (S_OK, fuzzy_only_flushed, calls)
    /\ AddStream_table_call ∈ calls
    /\ AddStream_log_call ∉ calls.
Proof.
  destruct (CloseArchiveOutput answers (mkOutputs true true) fuzzy_only_written)
    as [[[hr st'] calls]|] eqn:E; [|vm_compute in E; discriminate].
  destruct (@CloseArchiveOutput_fails_only_on_Complete_or_Close crt env answers
              (mkOutputs true true) fuzzy_only_written hr st' calls E)
    as (Hflush & -> & Htable & Hlog & _).
  assert (st' = fuzzy_only_flushed) as ->.
  { vm_compute in Hflush. now injection Hflush as <-. }
  exists calls. split; [reflexivity|]. split.
  - apply Htable. split; [reflexivity|discriminate].
  - intros Hin. apply Hlog in Hin. destruct Hin as [_ Hpos]. vm_compute in Hpos. discriminate.
Defined.

